(** * Traffic signal simulator: controller, calculator, protocol and registry

    A shallow embedding of the Node.js traffic-signal server
    (constants.js, TrafficCalculator.js, TrafficSignalController.js,
    MessageHandler.js, ClientManager.js, server.js) together with the
    properties its specification states about it.

    Conventions of the embedding:
    - demand scores and the green-time and cycle-time computations are
      JavaScript numbers in IEEE 754 binary64, type [number]: every sum,
      product and quotient is the exact result rounded to the nearest
      binary64 value, ties to even, with overflow to an infinity, gradual
      underflow and NaN;
    - vehicle counts and durations in seconds are what [parseInt] and
      [Math.round] return, numbers without a fractional part, type
      [integral]: an integer, NaN or an infinity; millisecond clock
      readings are [Z]; arithmetic on integers is exact;
    - [Date.now()] is an explicit argument of every function that reads
      the clock;
    - logging calls are dropped: the logger only prints;
    - string conversion ([ToString], as [parseInt] and template literals
      apply it) is modelled on the values [JSON.parse] produces: it throws
      a TypeError on an object with an own property [toString];
    - JavaScript builtins whose full behaviour is outside the repository
      ([JSON.parse], [String.prototype.trim], [parseInt] on a string, the
      printing of a number) are the fields of the class [JSBuiltins], over
      which every statement is universally quantified;
    - a thrown exception is the [Throw] case of [result]. *)

From stdpp Require Import gmap strings list fin_maps.
From Stdlib Require Import ZArith QArith Qround Qminmax Qpower Qreduction.
From Stdlib Require Import Lia Lqa Ascii String DecimalString SpecFloat.

Set Warnings "-notation-for-abbreviation,-register-all".
Local Open Scope Z_scope.

(* ===================================================================== *)
(** * constants.js *)
(* ===================================================================== *)

Inductive SignalColor := GREEN | YELLOW | RED.

Module ROUTES.
Inductive Route := A | B | C | D.
End ROUTES.
Notation Route := ROUTES.Route.

Inductive Phase :=
  PHASE_AC_GREEN | PHASE_AC_YELLOW | PHASE_BD_GREEN | PHASE_BD_YELLOW.

Inductive MessageType :=
  CAMERA_UPDATE | SUBSCRIBE | UNSUBSCRIBE | QUERY | STATUS | ERROR.

Module TIMING.
Definition MIN_GREEN : Z := 5.
Definition MAX_GREEN : Z := 60.
Definition YELLOW_DURATION : Z := 3.
Definition MIN_CYCLE_TIME : Z := 30.
End TIMING.

Module TRAFFIC_WEIGHTS.
Definition NORMAL_VEHICLE : Q := 1.
Definition HEAVY_VEHICLE : Q := 5 # 2.
End TRAFFIC_WEIGHTS.

#[global] Instance SignalColor_eq_dec : EqDecision SignalColor.
Proof. solve_decision. Defined.
#[global] Instance Route_eq_dec : EqDecision Route.
Proof. solve_decision. Defined.
#[global] Instance Phase_eq_dec : EqDecision Phase.
Proof. solve_decision. Defined.
#[global] Instance MessageType_eq_dec : EqDecision MessageType.
Proof. solve_decision. Defined.

(** The string each enum member stands for in the source. *)
Definition color_name (c : SignalColor) : string :=
  match c with GREEN => "GREEN" | YELLOW => "YELLOW" | RED => "RED" end.

Definition route_name (r : Route) : string :=
  match r with
  | ROUTES.A => "A" | ROUTES.B => "B" | ROUTES.C => "C" | ROUTES.D => "D"
  end.

(** [Object.values(ROUTES)], in declaration order. *)
Definition ROUTES_values : list Route :=
  [ROUTES.A; ROUTES.B; ROUTES.C; ROUTES.D].

(** The route whose name is [s], if [s] is one of the four names: the
    inverse of [route_name], used for [Object.values(ROUTES).includes]. *)
Definition route_of_name (s : string) : option Route :=
  if String.eqb s "A" then Some ROUTES.A
  else if String.eqb s "B" then Some ROUTES.B
  else if String.eqb s "C" then Some ROUTES.C
  else if String.eqb s "D" then Some ROUTES.D
  else None.

(** A JavaScript object with exactly the four route keys, such as
    [signalState] and [trafficData]. *)
Record RouteMap (V : Type) := mkRouteMap {
  atA : V; atB : V; atC : V; atD : V
}.
Arguments mkRouteMap {V}.
Arguments atA {V}.
Arguments atB {V}.
Arguments atC {V}.
Arguments atD {V}.

Definition rm_get {V} (m : RouteMap V) (r : Route) : V :=
  match r with
  | ROUTES.A => atA m | ROUTES.B => atB m
  | ROUTES.C => atC m | ROUTES.D => atD m
  end.

Definition rm_set {V} (m : RouteMap V) (r : Route) (v : V) : RouteMap V :=
  match r with
  | ROUTES.A => mkRouteMap v (atB m) (atC m) (atD m)
  | ROUTES.B => mkRouteMap (atA m) v (atC m) (atD m)
  | ROUTES.C => mkRouteMap (atA m) (atB m) v (atD m)
  | ROUTES.D => mkRouteMap (atA m) (atB m) (atC m) v
  end.

Definition rm_const {V} (v : V) : RouteMap V := mkRouteMap v v v v.

(* ===================================================================== *)
(** * JavaScript numbers: IEEE 754 binary64 *)
(* ===================================================================== *)

(** A JavaScript number: NaN, an infinity, or a finite value given by the
    rational it stands for.  The two zeros are not told apart: the program
    never divides by a zero and never prints the sign of one. *)
Inductive number :=
| NaN
| PosInf
| NegInf
| Fin (x : Q).

(** [2^k] for an integer exponent. *)
Definition pow2 (k : Z) : Q := (2 ^ k)%Q.

(** The binade of a positive rational: the [e] with
    [2^e <= x < 2^(e+1)]. *)
Definition ilog2 (x : Q) : Z :=
  let l := (Z.log2 (Qnum x) - Z.log2 (Zpos (Qden x)))%Z in
  if Qle_bool (pow2 l) x then l else (l - 1)%Z.

(** The nearest integer, ties to the even one. *)
Definition RNE (q : Q) : Z :=
  let f := Qfloor q in
  match (q - inject_Z f ?= 1 # 2)%Q with
  | Lt => f
  | Gt => (f + 1)%Z
  | Eq => if Z.even f then f else (f + 1)%Z
  end.

(** The exponent of the unit in the last place of a positive rational in
    binary64: 53 significant bits, and the subnormal spacing [2^-1074]
    below [2^-1022]. *)
Definition ulp_exp (x : Q) : Z := (Z.max (ilog2 x) (-1022) - 52)%Z.

(** A positive rational rounded to the nearest multiple of its unit in the
    last place, ties to even, with the exponent not bounded above. *)
Definition round_pos (x : Q) : Q :=
  let k := ulp_exp x in
  (inject_Z (RNE (x * pow2 (- k))) * pow2 k)%Q.

(** The binary64 value of an exact result: round to nearest, ties to even;
    a rounded magnitude of [2^1024] or more overflows to an infinity. *)
Definition round64 (x : Q) : number :=
  let x := Qred x in
  match Qnum x with
  | Z0 => Fin 0
  | Zpos _ =>
      let y := round_pos x in
      if Qle_bool (pow2 1024) y then PosInf else Fin (Qred y)
  | Zneg _ =>
      let y := round_pos (- x) in
      if Qle_bool (pow2 1024) y then NegInf else Fin (Qred (- y))
  end.

(** [a + b] *)
Definition nadd (a b : number) : number :=
  match a, b with
  | NaN, _ | _, NaN => NaN
  | PosInf, NegInf | NegInf, PosInf => NaN
  | PosInf, _ | _, PosInf => PosInf
  | NegInf, _ | _, NegInf => NegInf
  | Fin x, Fin y => round64 (x + y)
  end.

(** The sign of a rational as a comparison with zero. *)
Definition Qsign (x : Q) : comparison := (x ?= 0)%Q.

(** An infinity times or divided by a finite value of the given sign. *)
Definition scale_inf (negative : bool) (sign : comparison) : number :=
  match sign with
  | Eq => NaN
  | Gt => if negative then NegInf else PosInf
  | Lt => if negative then PosInf else NegInf
  end.

(** [a * b] *)
Definition nmul (a b : number) : number :=
  match a, b with
  | NaN, _ | _, NaN => NaN
  | PosInf, PosInf | NegInf, NegInf => PosInf
  | PosInf, NegInf | NegInf, PosInf => NegInf
  | PosInf, Fin y => scale_inf false (Qsign y)
  | NegInf, Fin y => scale_inf true (Qsign y)
  | Fin x, PosInf => scale_inf false (Qsign x)
  | Fin x, NegInf => scale_inf true (Qsign x)
  | Fin x, Fin y => round64 (x * y)
  end.

(** [a / b]; a zero divisor counts as positive. *)
Definition ndiv (a b : number) : number :=
  match a, b with
  | NaN, _ | _, NaN => NaN
  | (PosInf | NegInf), (PosInf | NegInf) => NaN
  | PosInf, Fin y => match Qsign y with Lt => NegInf | _ => PosInf end
  | NegInf, Fin y => match Qsign y with Lt => PosInf | _ => NegInf end
  | Fin _, (PosInf | NegInf) => Fin 0
  | Fin x, Fin y =>
      match Qsign y with
      | Eq => match Qsign x with Eq => NaN | Gt => PosInf | Lt => NegInf end
      | _ => round64 (x / y)
      end
  end.

(** [Math.max(a, b)] *)
Definition nmax (a b : number) : number :=
  match a, b with
  | NaN, _ | _, NaN => NaN
  | PosInf, _ | _, PosInf => PosInf
  | NegInf, v | v, NegInf => v
  | Fin x, Fin y => if Qle_bool x y then Fin y else Fin x
  end.

(** [Math.min(a, b)] *)
Definition nmin (a b : number) : number :=
  match a, b with
  | NaN, _ | _, NaN => NaN
  | NegInf, _ | _, NegInf => NegInf
  | PosInf, v | v, PosInf => v
  | Fin x, Fin y => if Qle_bool x y then Fin x else Fin y
  end.

(** [a || 0] on a number: NaN and zero are falsy. *)
Definition nor0 (a : number) : number :=
  match a with
  | NaN => Fin 0
  | Fin x => if Qeq_bool x 0 then Fin 0 else a
  | _ => a
  end.

(** [a === 0] *)
Definition nis0 (a : number) : bool :=
  match a with Fin x => Qeq_bool x 0 | _ => false end.

(** [a <= b]; false as soon as one side is NaN. *)
Definition nle (a b : number) : Prop :=
  match a, b with
  | NaN, _ | _, NaN => False
  | NegInf, _ | _, PosInf => True
  | Fin x, Fin y => (x <= y)%Q
  | _, _ => False
  end.

(** The number is finite. *)
Definition finite (a : number) : Prop :=
  match a with Fin _ => True | _ => False end.

(** The number is a binary64 value: rounding leaves it as it is. *)
Definition isDouble (a : number) : Prop :=
  match a with Fin x => round64 x = Fin x | _ => True end.

(** Numbers without a fractional part, as [parseInt] and [Math.round]
    return them.  Integers are exact whatever their size. *)
Inductive integral :=
| INaN
| IPosInf
| INegInf
| IInt (z : Z).

Definition number_of_integral (i : integral) : number :=
  match i with
  | INaN => NaN
  | IPosInf => PosInf
  | INegInf => NegInf
  | IInt z => Fin (inject_Z z)
  end.

(** [Math.round]: the nearest integer, ties upwards. *)
Definition Math_round_number (a : number) : integral :=
  match a with
  | NaN => INaN
  | PosInf => IPosInf
  | NegInf => INegInf
  | Fin x => IInt (Qfloor (x + (1 # 2))%Q)
  end.

(** [Math.max(a, b)] on integral numbers. *)
Definition imax (a b : integral) : integral :=
  match a, b with
  | INaN, _ | _, INaN => INaN
  | IPosInf, _ | _, IPosInf => IPosInf
  | INegInf, v | v, INegInf => v
  | IInt x, IInt y => IInt (Z.max x y)
  end.

(** [a || 0] *)
Definition ior0 (a : integral) : integral :=
  match a with
  | INaN => IInt 0
  | _ => a
  end.

(** [isNaN(a)] *)
Definition isNaN (a : integral) : bool :=
  match a with INaN => true | _ => false end.

(** [a - e] for an integer [e]. *)
Definition isub (a : integral) (e : Z) : integral :=
  match a with
  | IInt z => IInt (z - e)
  | _ => a
  end.

(** [e + a] for an integer [e]. *)
Definition iadd (e : Z) (a : integral) : integral :=
  match a with
  | IInt z => IInt (e + z)
  | _ => a
  end.

(** [e >= a] for an integer [e]; false when [a] is NaN. *)
Definition ige (e : Z) (a : integral) : bool :=
  match a with
  | INaN | IPosInf => false
  | INegInf => true
  | IInt z => (z <=? e)%Z
  end.

(** [0 <= a]: a non-negative integer or plus infinity. *)
Definition nonNegative_i (a : integral) : Prop :=
  match a with
  | IInt z => (0 <= z)%Z
  | IPosInf => True
  | _ => False
  end.

(** One route's traffic sample: [{ vehicles, heavyVehicles }]. *)
Record Sample := mkSample { vehicles : integral; heavyVehicles : integral }.

(* ===================================================================== *)
(** * JavaScript values and exceptions *)
(* ===================================================================== *)

(** Values that [JSON.parse] can produce, with numbers in general (the
    program also passes on numbers it computed).  An object is the list of
    its own properties; [undefined] is [None] at type [option json]. *)
Inductive json :=
| JNull
| JBool (b : bool)
| JNum (n : number)
| JStr (s : string)
| JArr (items : list json)
| JObj (fields : list (string * json)).

(** Outcome of code that may throw. *)
Inductive result (T : Type) :=
| Ok (v : T)
| Throw (e : string).
Arguments Ok {T}.
Arguments Throw {T}.

(** Sequencing: a throw skips the rest (stdpp's [x ← r; k] notation). *)
#[global] Instance result_bind : MBind result :=
  fun T U (k : T -> result U) (r : result T) =>
    match r with Ok v => k v | Throw e => Throw e end.
#[global] Instance result_ret : MRet result := @Ok.

(** Own property lookup [o[k]] on an object; other values have none of the
    properties the program reads. *)
Fixpoint assoc (k : string) (fields : list (string * json)) : option json :=
  match fields with
  | [] => None
  | (k', v) :: rest => if String.eqb k k' then Some v else assoc k rest
  end.

Definition get_prop (o : json) (k : string) : option json :=
  match o with JObj fields => assoc k fields | _ => None end.

(** [!v]: the falsy values are undefined, null, false, 0, NaN and the
    empty string. *)
Definition falsy (v : option json) : bool :=
  match v with
  | None | Some JNull | Some (JBool false) => true
  | Some (JNum NaN) => true
  | Some (JNum (Fin n)) => Qeq_bool n 0
  | Some (JStr s) => String.eqb s ""
  | _ => false
  end.

(** [typeof v === 'object']: objects, arrays and null. *)
Definition typeof_object (v : option json) : bool :=
  match v with
  | Some JNull | Some (JArr _) | Some (JObj _) => true
  | _ => false
  end.

(** The builtins of the JavaScript runtime that the program calls and whose
    full behaviour is not part of the repository. *)
Class JSBuiltins := {
  (** [JSON.parse(text)]; [None] when it throws a SyntaxError. *)
  JSON_parse : string -> option json;
  (** [text.trim()] *)
  String_trim : string -> string;
  (** [parseInt(text)] on a string. *)
  parseInt_string : string -> integral;
  (** The decimal text of a number. *)
  Number_toString : number -> string
}.

(** [ToString(v)], the conversion that [parseInt] and template literals
    apply to their argument.  An array joins the texts of its elements
    (nothing for null); a parsed object has no callable [toString] of its
    own, so either it inherits [Object.prototype.toString] or, with an own
    property of that name, cannot be converted. *)
Fixpoint ToString `{JSBuiltins} (v : json) : result string :=
  match v with
  | JNull => Ok "null"
  | JBool b => Ok (if b then "true" else "false")
  | JNum n => Ok (Number_toString n)
  | JStr s => Ok s
  | JArr items =>
      (fix join (items : list json) : result string :=
         match items with
         | [] => Ok ""
         | item :: rest =>
             first ← match item with JNull => Ok "" | _ => ToString item end;
             match rest with
             | [] => Ok first
             | _ => others ← join rest; Ok (first +:+ "," +:+ others)
             end
         end) items
  | JObj fields =>
      match assoc "toString" fields with
      | Some _ => Throw "TypeError: Cannot convert object to primitive value"
      | None => Ok "[object Object]"
      end
  end.

(** [parseInt(v)] on a defined value. *)
Definition parseInt `{JSBuiltins} (v : json) : result integral :=
  text ← ToString v; Ok (parseInt_string text).

(** [parseInt(v)] where [v] may be undefined: [parseInt(undefined)] is
    NaN. *)
Definition js_parseInt `{JSBuiltins} (v : option json) : result integral :=
  match v with Some j => parseInt j | None => Ok INaN end.

(** [Math.round] on a rational: the nearest integer, ties upwards. *)
Definition Math_round (x : Q) : Z := Qfloor (x + (1 # 2))%Q.

(** The literal [0.8]: the binary64 value nearest to 8/10. *)
Definition point8 : number := round64 (8 # 10).

(* ===================================================================== *)
(** * TrafficCalculator.js *)
(* ===================================================================== *)

Module TrafficCalculator.

Definition calculateDemand (vehicleCount heavyVehicleCount : number) : number :=
  let normalDemand := nmul vehicleCount (Fin TRAFFIC_WEIGHTS.NORMAL_VEHICLE) in
  let heavyDemand := nmul heavyVehicleCount (Fin TRAFFIC_WEIGHTS.HEAVY_VEHICLE) in
  nadd normalDemand heavyDemand.

(** [Math.max(0, Number(d) || 0)] *)
Definition nonNegative (d : number) : number := nmax (Fin 0) (nor0 d).

Definition calculateGreenDuration
    (demandA demandB demandC demandD : number) (phase : Phase) : integral :=
  let demandA := nonNegative demandA in
  let demandB := nonNegative demandB in
  let demandC := nonNegative demandC in
  let demandD := nonNegative demandD in
  let '(pair1Demand, pair2Demand) :=
    match phase with
    | PHASE_AC_GREEN | PHASE_AC_YELLOW =>
        (nadd demandA demandC, nadd demandB demandD)
    | _ => (nadd demandB demandD, nadd demandA demandC)
    end in
  let totalDemand := nadd pair1Demand pair2Demand in
  if nis0 totalDemand then IInt TIMING.MIN_GREEN
  else
    let pair1Ratio := ndiv pair1Demand totalDemand in
    let timeRange := Fin (inject_Z (TIMING.MAX_GREEN - TIMING.MIN_GREEN)) in
    let greenDuration :=
      nadd (Fin (inject_Z TIMING.MIN_GREEN))
           (nmul (nmul timeRange pair1Ratio) point8) in
    Math_round_number greenDuration.

Definition calculateAllDemands (trafficData : RouteMap Sample) : RouteMap number :=
  let demandOf (routeData : Sample) :=
    calculateDemand (number_of_integral (vehicles routeData))
                    (number_of_integral (heavyVehicles routeData)) in
  mkRouteMap (demandOf (atA trafficData)) (demandOf (atB trafficData))
             (demandOf (atC trafficData)) (demandOf (atD trafficData)).

End TrafficCalculator.

(* ===================================================================== *)
(** * TrafficSignalController.js *)
(* ===================================================================== *)

Record Controller := mkController {
  signalState : RouteMap SignalColor;
  trafficData : RouteMap Sample;
  currentPhase : Phase;
  phaseStartTime : Z;                 (* milliseconds *)
  currentPhaseDuration : integral;    (* seconds *)
  yellowTimeRemaining : Z;
  isInYellow : bool;
  lastBroadcastState : string
}.

(** What [getPhaseInfo] returns. *)
Record PhaseInfo := mkPhaseInfo {
  pi_phase : Phase;
  pi_signalState : RouteMap SignalColor;
  pi_elapsedSeconds : Z;
  pi_totalDurationSeconds : integral;
  pi_remainingSeconds : integral;
  pi_isYellow : bool;
  pi_timestamp : Z
}.

(** What [getStatus] returns. *)
Record Status := mkStatus {
  st_timestamp : Z;
  st_phase : PhaseInfo;
  st_traffic : RouteMap Sample;
  st_demands : RouteMap number;
  st_signals : RouteMap SignalColor
}.

(** The double-quote character, and a quoted string. *)
Definition dquote : string := String (ascii_of_nat 34) EmptyString.
Definition quoted (s : string) : string := dquote +:+ s +:+ dquote.

(** [JSON.stringify(this.signalState)]: the keys keep their creation order
    A, B, C, D. *)
Definition JSON_stringify_signals (st : RouteMap SignalColor) : string :=
  let entry (r : Route) :=
    quoted (route_name r) +:+ ":" +:+ quoted (color_name (rm_get st r)) in
  "{" +:+ entry ROUTES.A +:+ "," +:+ entry ROUTES.B +:+ ","
      +:+ entry ROUTES.C +:+ "," +:+ entry ROUTES.D +:+ "}".

Definition all_red : RouteMap SignalColor := rm_const RED.
Definition no_traffic : RouteMap Sample :=
  rm_const (mkSample (IInt 0) (IInt 0)).

(** Elapsed whole seconds since [start], as both [getPhaseInfo] and
    [updatePhase] compute them:
    [Math.round((Date.now() - this.phaseStartTime) / 1000)]. *)
Definition elapsedSeconds (now start : Z) : Z :=
  Math_round (inject_Z (now - start) / inject_Z 1000)%Q.

Section Controller.

Context `{JSBuiltins}.

(** [new TrafficSignalController(logger)], constructed at clock reading
    [now]. *)
Definition constructor (now : Z) : Controller :=
  {| signalState := all_red;
     trafficData := no_traffic;
     currentPhase := PHASE_AC_GREEN;
     phaseStartTime := now;
     currentPhaseDuration := IInt TIMING.MIN_GREEN;
     yellowTimeRemaining := 0;
     isInYellow := false;
     lastBroadcastState := JSON_stringify_signals all_red |}.

(** [Math.max(0, parseInt(v) || 0)]; the conversion inside [parseInt] may
    throw. *)
Definition sanitizeCount (v : json) : result integral :=
  n ← parseInt v; Ok (imax (IInt 0) (ior0 n)).

(** [throw new Error(`Invalid route: ${route}`)] *)
Definition invalidRoute (route : json) : result Controller :=
  text ← ToString route; Throw ("Invalid route: " +:+ text).

(** [updateTrafficData(route, vehicles, heavyVehicles)]; throws on a route
    outside [Object.values(ROUTES)], and when a count cannot be converted
    to a string, before anything is stored. *)
Definition updateTrafficData (route : json) (vehicles heavyVehicles : json)
    (c : Controller) : result Controller :=
  match route with
  | JStr name =>
      match route_of_name name with
      | Some r =>
          vehicles' ← sanitizeCount vehicles;
          heavyVehicles' ← sanitizeCount heavyVehicles;
          Ok {| signalState := signalState c;
                trafficData :=
                  rm_set (trafficData c) r (mkSample vehicles' heavyVehicles');
                currentPhase := currentPhase c;
                phaseStartTime := phaseStartTime c;
                currentPhaseDuration := currentPhaseDuration c;
                yellowTimeRemaining := yellowTimeRemaining c;
                isInYellow := isInYellow c;
                lastBroadcastState := lastBroadcastState c |}
      | None => invalidRoute route
      end
  | _ => invalidRoute route
  end.

Definition getSignalState (c : Controller) : RouteMap SignalColor :=
  signalState c.

Definition getPhaseInfo (now : Z) (c : Controller) : PhaseInfo :=
  let elapsedTime := elapsedSeconds now (phaseStartTime c) in
  {| pi_phase := currentPhase c;
     pi_signalState := getSignalState c;
     pi_elapsedSeconds := elapsedTime;
     pi_totalDurationSeconds := currentPhaseDuration c;
     pi_remainingSeconds :=
       imax (IInt 0) (isub (currentPhaseDuration c) elapsedTime);
     pi_isYellow := isInYellow c;
     pi_timestamp := now |}.

Definition calculateDemands (c : Controller) : RouteMap number :=
  TrafficCalculator.calculateAllDemands (trafficData c).

(** [applyPhaseSignals], as a function of the phase: every route RED, then
    the phase's pair GREEN or YELLOW. *)
Definition phaseSignals (p : Phase) : RouteMap SignalColor :=
  match p with
  | PHASE_AC_GREEN =>
      rm_set (rm_set all_red ROUTES.A GREEN) ROUTES.C GREEN
  | PHASE_AC_YELLOW =>
      rm_set (rm_set all_red ROUTES.A YELLOW) ROUTES.C YELLOW
  | PHASE_BD_GREEN =>
      rm_set (rm_set all_red ROUTES.B GREEN) ROUTES.D GREEN
  | PHASE_BD_YELLOW =>
      rm_set (rm_set all_red ROUTES.B YELLOW) ROUTES.D YELLOW
  end.

Definition applyPhaseSignals (c : Controller) : Controller :=
  {| signalState := phaseSignals (currentPhase c);
     trafficData := trafficData c;
     currentPhase := currentPhase c;
     phaseStartTime := phaseStartTime c;
     currentPhaseDuration := currentPhaseDuration c;
     yellowTimeRemaining := yellowTimeRemaining c;
     isInYellow := isInYellow c;
     lastBroadcastState := lastBroadcastState c |}.

(** [executePhaseTransition], with [now] the clock reading stored as the
    new phase start. *)
Definition executePhaseTransition (now : Z) (c : Controller) : Controller :=
  let demands := calculateDemands c in
  let demandA := atA demands in
  let demandB := atB demands in
  let demandC := atC demands in
  let demandD := atD demands in
  let '(inYellow, nextPhase, nextPhaseDuration) :=
    if isInYellow c then
      if decide (currentPhase c = PHASE_AC_YELLOW) then
        (false, PHASE_BD_GREEN,
         TrafficCalculator.calculateGreenDuration
           demandA demandB demandC demandD PHASE_BD_GREEN)
      else
        (false, PHASE_AC_GREEN,
         TrafficCalculator.calculateGreenDuration
           demandA demandB demandC demandD PHASE_AC_GREEN)
    else
      if decide (currentPhase c = PHASE_AC_GREEN) then
        (true, PHASE_AC_YELLOW, IInt TIMING.YELLOW_DURATION)
      else
        (true, PHASE_BD_YELLOW, IInt TIMING.YELLOW_DURATION) in
  applyPhaseSignals
    {| signalState := signalState c;
       trafficData := trafficData c;
       currentPhase := nextPhase;
       phaseStartTime := now;
       currentPhaseDuration := nextPhaseDuration;
       yellowTimeRemaining := yellowTimeRemaining c;
       isInYellow := inYellow;
       lastBroadcastState := lastBroadcastState c |}.

(** [updatePhase]: [now] is the clock reading of the elapsed-time check,
    [now'] the later reading taken inside [executePhaseTransition]. *)
Definition updatePhase (now now' : Z) (c : Controller) : bool * Controller :=
  let elapsedTime := elapsedSeconds now (phaseStartTime c) in
  if ige elapsedTime (currentPhaseDuration c) then
    (true, executePhaseTransition now' c)
  else (false, c).

(** [hasStateChanged]: the answer and the controller afterwards. *)
Definition hasStateChanged (c : Controller) : bool * Controller :=
  let currentState := JSON_stringify_signals (signalState c) in
  let hasChanged := negb (String.eqb currentState (lastBroadcastState c)) in
  (hasChanged,
   if hasChanged then
     {| signalState := signalState c;
        trafficData := trafficData c;
        currentPhase := currentPhase c;
        phaseStartTime := phaseStartTime c;
        currentPhaseDuration := currentPhaseDuration c;
        yellowTimeRemaining := yellowTimeRemaining c;
        isInYellow := isInYellow c;
        lastBroadcastState := currentState |}
   else c).

(** [reset], at clock reading [now]. *)
Definition reset (now : Z) (c : Controller) : Controller :=
  applyPhaseSignals
    {| signalState := all_red;
       trafficData := no_traffic;
       currentPhase := PHASE_AC_GREEN;
       phaseStartTime := now;
       currentPhaseDuration := IInt TIMING.MIN_GREEN;
       yellowTimeRemaining := yellowTimeRemaining c;
       isInYellow := false;
       lastBroadcastState := JSON_stringify_signals all_red |}.

Definition getStatus (now : Z) (c : Controller) : Status :=
  {| st_timestamp := now;
     st_phase := getPhaseInfo now c;
     st_traffic := trafficData c;
     st_demands := calculateDemands c;
     st_signals := signalState c |}.

(** A step of the controller's public interface. *)
Inductive ControllerStep : Controller -> Controller -> Prop :=
| step_updatePhase now now' c :
    ControllerStep c (updatePhase now now' c).2
| step_executePhaseTransition now c :
    ControllerStep c (executePhaseTransition now c)
| step_updateTrafficData route v h c c' :
    updateTrafficData route v h c = Ok c' ->
    ControllerStep c c'
| step_reset now c :
    ControllerStep c (reset now c).

(** The states reachable from a freshly constructed controller. *)
Inductive Reachable : Controller -> Prop :=
| reach_constructor now : Reachable (constructor now)
| reach_step c c' : Reachable c -> ControllerStep c c' -> Reachable c'.

(** Both routes of a pair show a colour other than RED. *)
Definition pairNonRed (st : RouteMap SignalColor) (r1 r2 : Route) : Prop :=
  rm_get st r1 <> RED /\ rm_get st r2 <> RED.

(** Both routes of a pair show RED. *)
Definition pairRed (st : RouteMap SignalColor) (r1 r2 : Route) : Prop :=
  rm_get st r1 = RED /\ rm_get st r2 = RED.

(** Exactly one of the pairs {A,C} and {B,D} is non-red and the other is
    red. *)
Definition exclusivePairs (st : RouteMap SignalColor) : Prop :=
  (pairNonRed st ROUTES.A ROUTES.C /\ pairRed st ROUTES.B ROUTES.D) \/
  (pairNonRed st ROUTES.B ROUTES.D /\ pairRed st ROUTES.A ROUTES.C).

(** The successor of a phase in the fixed cycle. *)
Definition nextInCycle (p : Phase) : Phase :=
  match p with
  | PHASE_AC_GREEN => PHASE_AC_YELLOW
  | PHASE_AC_YELLOW => PHASE_BD_GREEN
  | PHASE_BD_GREEN => PHASE_BD_YELLOW
  | PHASE_BD_YELLOW => PHASE_AC_GREEN
  end.





End Controller.

Definition isYellowPhase (p : Phase) : bool :=
  match p with PHASE_AC_YELLOW | PHASE_BD_YELLOW => true | _ => false end.

Definition isGreenPhase (p : Phase) : bool :=
  match p with PHASE_AC_GREEN | PHASE_BD_GREEN => true | _ => false end.

(** The flag [isInYellow] agrees with the phase, as it does after the
    constructor and after every transition. *)
Definition flagConsistent (c : Controller) : Prop :=
  isInYellow c = isYellowPhase (currentPhase c).

(** A green phase is in progress. *)
Definition greenInProgress (c : Controller) : Prop :=
  isGreenPhase (currentPhase c) = true /\ isInYellow c = false.

(** The value the specification gives for equal pair demands:
    [round(MIN_GREEN + (MAX_GREEN - MIN_GREEN) * 0.5 * 0.8)]. *)
Definition equalDemandDuration : Z :=
  Math_round
    (inject_Z TIMING.MIN_GREEN
     + (inject_Z TIMING.MAX_GREEN - inject_Z TIMING.MIN_GREEN)
       * (1 # 2) * (8 # 10))%Q.

(* ===================================================================== *)
(** * Outbound frames (MessageHandler.formatMessage / formatError) *)
(* ===================================================================== *)

(** The [data] objects the server passes to [formatMessage]. *)
Inductive Payload :=
| Welcome (clientId : nat)
| CameraAck (dataProcessed : nat)
| SubscribedAck (routes : list string)
| UnsubscribedAck (routes : list string)
| PhaseReply (info : PhaseInfo)
| StatusReply (status : Status)
| TrafficReply (traffic : RouteMap Sample) (demands : RouteMap number).

Inductive FrameBody :=
| Data (data : Payload)
| Failure (error : string) (error_code : string).

(** A frame before [JSON.stringify(...) + '\n']. *)
Record Frame := mkFrame {
  frame_type : MessageType;
  frame_timestamp : Z;
  frame_body : FrameBody
}.

Definition formatMessage (now : Z) (data : Payload) (type : MessageType) : Frame :=
  {| frame_type := type; frame_timestamp := now; frame_body := Data data |}.

Definition formatError (now : Z) (error : string) (error_code : string) : Frame :=
  {| frame_type := ERROR; frame_timestamp := now;
     frame_body := Failure error error_code |}.

Definition isErrorFrame (f : Frame) : bool :=
  bool_decide (frame_type f = ERROR).

Definition isStatusFrame (f : Frame) : bool :=
  bool_decide (frame_type f = STATUS).

(* ===================================================================== *)
(** * ClientManager.js *)
(* ===================================================================== *)

(** A TCP socket as the server sees it: the frames handed to
    [socket.write] so far (oldest first), whether writes report an error to
    their callback, and whether it was destroyed. *)
Record Socket := mkSocket {
  written : list Frame;
  failing : bool;
  destroyed : bool
}.

Definition socket_write (message : Frame) (s : Socket) : Socket :=
  {| written := written s ++ [message];
     failing := failing s;
     destroyed := destroyed s |}.

Module ClientConnection.

Record t := mk {
  id : nat;
  socket : Socket;
  subscribedRoutes : gset string;
  isActive : bool;
  createdAt : Z;
  lastMessageAt : Z;
  bufferedData : string
}.

Definition new (id : nat) (socket : Socket) (now : Z) : t :=
  {| id := id; socket := socket; subscribedRoutes := ∅; isActive := true;
     createdAt := now; lastMessageAt := now; bufferedData := "" |}.

Definition with_subscribedRoutes (routes : gset string) (c : t) : t :=
  {| id := id c; socket := socket c; subscribedRoutes := routes;
     isActive := isActive c; createdAt := createdAt c;
     lastMessageAt := lastMessageAt c; bufferedData := bufferedData c |}.

Definition subscribeToRoutes (routes : list string) (c : t) : t :=
  with_subscribedRoutes
    (foldl (fun acc route => {[route]} ∪ acc) (subscribedRoutes c) routes) c.

Definition unsubscribeFromRoutes (routes : list string) (c : t) : t :=
  with_subscribedRoutes
    (foldl (fun acc route => acc ∖ {[route]}) (subscribedRoutes c) routes) c.

Definition isSubscribedTo (route : string) (c : t) : bool :=
  bool_decide (route ∈ subscribedRoutes c).

Definition getSubscriptions (c : t) : list string :=
  elements (subscribedRoutes c).

(** [sendMessage]: the promise's value and the connection afterwards.  An
    inactive connection is not written to; a write whose callback reports
    an error marks the connection inactive. *)
Definition sendMessage (message : Frame) (c : t) : bool * t :=
  if negb (isActive c) then (false, c)
  else
    let socket' := socket_write message (socket c) in
    if failing (socket c) then
      (false,
       {| id := id c; socket := socket'; subscribedRoutes := subscribedRoutes c;
          isActive := false; createdAt := createdAt c;
          lastMessageAt := lastMessageAt c; bufferedData := bufferedData c |})
    else
      (true,
       {| id := id c; socket := socket'; subscribedRoutes := subscribedRoutes c;
          isActive := isActive c; createdAt := createdAt c;
          lastMessageAt := lastMessageAt c; bufferedData := bufferedData c |}).

End ClientConnection.

Module ClientManager.

Record t := mk {
  clients : gmap nat ClientConnection.t;
  nextClientId : nat
}.

Definition new : t := {| clients := ∅; nextClientId := 1 |}.

Definition with_clients (cs : gmap nat ClientConnection.t) (m : t) : t :=
  {| clients := cs; nextClientId := nextClientId m |}.

Definition addClient (socket : Socket) (now : Z) (m : t) : ClientConnection.t * t :=
  let clientId := nextClientId m in
  let client := ClientConnection.new clientId socket now in
  (client,
   {| clients := <[clientId := client]> (clients m);
      nextClientId := S clientId |}).

Definition getClient (clientId : nat) (m : t) : option ClientConnection.t :=
  clients m !! clientId.

(** [Array.from(this.clients.values())]; the order of the entries is not
    modelled. *)
Definition values (m : t) : list ClientConnection.t :=
  (map_to_list (clients m)).*2.

Definition getActiveClients (m : t) : list ClientConnection.t :=
  List.filter ClientConnection.isActive (values m).

Definition subscribeClient (clientId : nat) (routes : list string) (m : t)
    : bool * t :=
  match getClient clientId m with
  | None => (false, m)
  | Some client =>
      (true,
       with_clients
         (<[clientId := ClientConnection.subscribeToRoutes routes client]>
            (clients m)) m)
  end.

Definition unsubscribeClient (clientId : nat) (routes : list string) (m : t)
    : bool * t :=
  match getClient clientId m with
  | None => (false, m)
  | Some client =>
      (true,
       with_clients
         (<[clientId := ClientConnection.unsubscribeFromRoutes routes client]>
            (clients m)) m)
  end.

(** [getSubscribedClients(routes = null)]: [None] is the null default. *)
Definition getSubscribedClients (routes : option (list string)) (m : t)
    : list nat :=
  List.map ClientConnection.id
    (List.filter
       (fun client =>
          if negb (ClientConnection.isActive client) then false
          else
            match routes with
            | None =>
                bool_decide
                  (0 < List.length (ClientConnection.getSubscriptions client))%nat
            | Some rs =>
                existsb
                  (fun route => ClientConnection.isSubscribedTo route client)
                  rs
            end)
       (values m)).

(** The client object [clientId] sends [message]; the promise's value and
    the registry holding the updated client. *)
Definition sendVia (clientId : nat) (message : Frame) (m : t) : bool * t :=
  match getClient clientId m with
  | None => (false, m)
  | Some client =>
      let '(sent, client') := ClientConnection.sendMessage message client in
      (sent, with_clients (<[clientId := client']> (clients m)) m)
  end.

(** The ids [broadcastMessage] selects before it writes. *)
Definition broadcastTargets (routes : option (list string))
    (excludeClientIds : list nat) (m : t) : list nat :=
  let targetClientIds :=
    match routes with
    | Some rs => getSubscribedClients (Some rs) m
    | None => List.map ClientConnection.id (getActiveClients m)
    end in
  List.filter (fun i => negb (bool_decide (i ∈ excludeClientIds)))
    targetClientIds.

(** [broadcastMessage(message, routes = null, excludeClientIds = [])]:
    [(targetCount, successCount)] and the registry afterwards. *)
Definition broadcastMessage (message : Frame) (routes : option (list string))
    (excludeClientIds : list nat) (m : t) : (nat * nat) * t :=
  let targetClientIds := broadcastTargets routes excludeClientIds m in
  let '(successCount, m') :=
    foldl
      (fun '(count, acc) clientId =>
         match getClient clientId acc with
         | Some client =>
             if ClientConnection.isActive client then
               let '(sent, acc') := sendVia clientId message acc in
               ((if sent then S count else count), acc')
             else (count, acc)
         | None => (count, acc)
         end)
      (0%nat, m) targetClientIds in
  ((List.length targetClientIds, successCount), m').

(** The frames written to client [clientId]'s socket so far. *)
Definition writtenTo (clientId : nat) (m : t) : list Frame :=
  match getClient clientId m with
  | Some client => written (ClientConnection.socket client)
  | None => []
  end.

(** The subscription set of client [clientId]. *)
Definition subscriptionsOf (clientId : nat) (m : t) : option (gset string) :=
  ClientConnection.subscribedRoutes <$> getClient clientId m.

End ClientManager.

(* ===================================================================== *)
(** * MessageHandler.js *)
(* ===================================================================== *)

(** A validator's answer: [{ valid: true, ... }] or
    [{ valid: false, error }]. *)
Inductive Validation (T : Type) :=
| Valid (v : T)
| Invalid (error : string).
Arguments Valid {T}.
Arguments Invalid {T}.

(** [validatedData]: for each of the four routes, the sanitised sample if
    the message carried that route. *)
Definition ValidatedData := RouteMap (option Sample).

(** [Object.keys(trafficData).length] *)
Definition keyCount (d : ValidatedData) : nat :=
  List.length (List.filter (fun r => bool_decide (is_Some (rm_get d r))) ROUTES_values).

(** What [processIncomingMessage] returns. *)
Inductive ProcessedMessage :=
| Rejected (type : option MessageType) (error : string)
| AcceptedCameraUpdate (data : ValidatedData)
| AcceptedSubscribe (routes : list string)
| AcceptedUnsubscribe (routes : list string)
| AcceptedQuery (queryType : string).

Definition isValid (r : ProcessedMessage) : bool :=
  match r with Rejected _ _ => false | _ => true end.

(** [data.hasOwnProperty(k)]: the method is looked up on [data] itself
    first, so an own property of that name (never callable in parsed JSON)
    makes the call throw. *)
Definition hasOwnProperty (data : json) (k : string) : result bool :=
  match data with
  | JObj fields =>
      match assoc "hasOwnProperty" fields with
      | Some _ => Throw "TypeError: data.hasOwnProperty is not a function"
      | None => Ok (bool_decide (is_Some (assoc k fields)))
      end
  | JNull => Throw "TypeError: Cannot read properties of null"
  | _ => Ok false
  end.

(** [Object.values(ROUTES).includes(v)] *)
Definition isRoute (v : json) : bool :=
  match v with
  | JStr name => bool_decide (is_Some (route_of_name name))
  | _ => false
  end.

Section MessageHandler.

Context `{JSBuiltins}.

Definition parseMessage (rawData : string) : option json :=
  if String.eqb rawData "" then None
  else
    let trimmed := String_trim rawData in
    if String.eqb trimmed "" then None
    else
      match JSON_parse trimmed with
      | None => None                      (* SyntaxError, caught *)
      | Some JNull => None                (* TypeError on .type, caught *)
      | Some message =>
          if falsy (get_prop message "type") then None else Some message
      end.

(** The body of the loop of [validateCameraUpdate] for one route. *)
Definition validateCameraRoute (data : json) (route : Route)
    (validatedData : ValidatedData) : result (Validation ValidatedData) :=
  has ← hasOwnProperty data (route_name route);
  if has : bool then
    let routeData := get_prop data (route_name route) in
    if negb (typeof_object routeData) then
      Ok (Invalid ("Route " +:+ route_name route +:+ " data must be an object"))
    else
      match routeData with
      | Some JNull | None =>
          Throw "TypeError: Cannot read properties of null"
      | Some rd =>
          vehicles ← js_parseInt (get_prop rd "vehicles");
          heavyVehicles ← js_parseInt (get_prop rd "heavyVehicles");
          if isNaN vehicles
             && bool_decide (is_Some (get_prop rd "vehicles")) then
            Ok (Invalid ("Route " +:+ route_name route
                         +:+ " vehicles must be a valid number"))
          else if isNaN heavyVehicles
                  && bool_decide (is_Some (get_prop rd "heavyVehicles")) then
            Ok (Invalid ("Route " +:+ route_name route
                         +:+ " heavyVehicles must be a valid number"))
          else
            Ok (Valid
                  (rm_set validatedData route
                     (Some
                        (mkSample
                           (if isNaN vehicles then IInt 0
                            else imax (IInt 0) vehicles)
                           (if isNaN heavyVehicles then IInt 0
                            else imax (IInt 0) heavyVehicles)))))
      end
  else Ok (Valid validatedData).

(** The loop [for (const route of Object.values(ROUTES))] with its early
    returns. *)
Fixpoint validateCameraRoutes (data : json) (routes : list Route)
    (validatedData : ValidatedData) : result (Validation ValidatedData) :=
  match routes with
  | [] => Ok (Valid validatedData)
  | route :: rest =>
      r ← validateCameraRoute data route validatedData;
      match r with
      | Invalid error => Ok (Invalid error)
      | Valid validatedData' => validateCameraRoutes data rest validatedData'
      end
  end.

Definition validateCameraUpdate (message : json)
    : result (Validation ValidatedData) :=
  match get_prop message "data" with
  | Some data =>
      if falsy (Some data) || negb (typeof_object (Some data)) then
        Ok (Invalid ("Camera update requires " +:+ quoted "data" +:+ " object"))
      else validateCameraRoutes data ROUTES_values (rm_const None)
  | None =>
      Ok (Invalid ("Camera update requires " +:+ quoted "data" +:+ " object"))
  end.

(** The route names of an array all of whose elements are routes, or the
    first element that is not. *)
Fixpoint checkRoutes (items : list json) : string + json :=
  match items with
  | [] => inl ""
  | JStr name :: rest =>
      if isRoute (JStr name) then
        match checkRoutes rest with
        | inl _ => inl ""
        | inr bad => inr bad
        end
      else inr (JStr name)
  | other :: _ => inr other
  end.

(** The array [message.routes] as it is handed on: its elements are
    strings once [checkRoutes] has passed. *)
Definition routeStrings (items : list json) : list string :=
  omap (fun v => match v with JStr name => Some name | _ => None end) items.

(** The error texts are template literals over the offending element, so
    building them may throw. *)
Definition validateSubscribe (message : json)
    : result (Validation (list string)) :=
  let routes := get_prop message "routes" in
  if falsy routes then
    Ok (Invalid ("Subscribe requires " +:+ quoted "routes"
                 +:+ " field (array or " +:+ quoted "all" +:+ ")"))
  else
    match routes with
    | Some (JStr s) =>
        if String.eqb s "all" then Ok (Valid (List.map route_name ROUTES_values))
        else Ok (Invalid ("Routes must be an array or " +:+ quoted "all"))
    | Some (JArr items) =>
        match checkRoutes items with
        | inr route =>
            text ← ToString route;
            Ok (Invalid ("Invalid route: " +:+ text
                         +:+ ". Valid routes are: A, B, C, D"))
        | inl _ => Ok (Valid (routeStrings items))
        end
    | _ => Ok (Invalid ("Routes must be an array or " +:+ quoted "all"))
    end.

Definition validateUnsubscribe (message : json)
    : result (Validation (list string)) :=
  let routes := get_prop message "routes" in
  if falsy routes then
    Ok (Invalid ("Unsubscribe requires " +:+ quoted "routes"
                 +:+ " field (array or " +:+ quoted "all" +:+ ")"))
  else
    match routes with
    | Some (JStr s) =>
        if String.eqb s "all" then Ok (Valid (List.map route_name ROUTES_values))
        else Ok (Invalid ("Routes must be an array or " +:+ quoted "all"))
    | Some (JArr items) =>
        match checkRoutes items with
        | inr route =>
            text ← ToString route; Ok (Invalid ("Invalid route: " +:+ text))
        | inl _ => Ok (Valid (routeStrings items))
        end
    | _ => Ok (Invalid ("Routes must be an array or " +:+ quoted "all"))
    end.

Definition validQueryTypes : list string := ["status"; "phase"; "traffic"].

Definition validateQuery (message : json) : Validation string :=
  let queryType :=
    if falsy (get_prop message "queryType") then Some (JStr "status")
    else get_prop message "queryType" in
  match queryType with
  | Some (JStr q) =>
      if bool_decide (q ∈ validQueryTypes) then Valid q
      else Invalid "Invalid query type. Valid types are: status, phase, traffic"
  | _ => Invalid "Invalid query type. Valid types are: status, phase, traffic"
  end.

(** The message type a [type] field names, for the [switch]. *)
Definition messageTypeOf (type : option json) : option MessageType :=
  match type with
  | Some (JStr s) =>
      if String.eqb s "CAMERA_UPDATE" then Some CAMERA_UPDATE
      else if String.eqb s "SUBSCRIBE" then Some SUBSCRIBE
      else if String.eqb s "UNSUBSCRIBE" then Some UNSUBSCRIBE
      else if String.eqb s "QUERY" then Some QUERY
      else if String.eqb s "STATUS" then Some STATUS
      else if String.eqb s "ERROR" then Some ERROR
      else None
  | _ => None
  end.

Definition processIncomingMessage (rawData : string) : result ProcessedMessage :=
  match parseMessage rawData with
  | None => Ok (Rejected None "Failed to parse message")
  | Some message =>
      let messageType := get_prop message "type" in
      match messageTypeOf messageType with
      | Some CAMERA_UPDATE =>
          r ← validateCameraUpdate message;
          Ok match r with
             | Valid data => AcceptedCameraUpdate data
             | Invalid error => Rejected (Some CAMERA_UPDATE) error
             end
      | Some SUBSCRIBE =>
          r ← validateSubscribe message;
          Ok match r with
             | Valid routes => AcceptedSubscribe routes
             | Invalid error => Rejected (Some SUBSCRIBE) error
             end
      | Some UNSUBSCRIBE =>
          r ← validateUnsubscribe message;
          Ok match r with
             | Valid routes => AcceptedUnsubscribe routes
             | Invalid error => Rejected (Some UNSUBSCRIBE) error
             end
      | Some QUERY =>
          Ok match validateQuery message with
             | Valid queryType => AcceptedQuery queryType
             | Invalid error => Rejected (Some QUERY) error
             end
      | _ =>
          text ← match messageType with
                 | Some v => ToString v
                 | None => Ok "undefined"
                 end;
          Ok (Rejected None ("Unknown message type: " +:+ text))
      end
  end.

End MessageHandler.

(* ===================================================================== *)
(** * server.js *)
(* ===================================================================== *)

Record TrafficSignalServer := mkServer {
  signalController : Controller;
  clientManager : ClientManager.t
}.

Section Server.

Context `{JSBuiltins}.

Definition with_controller (c : Controller) (s : TrafficSignalServer)
    : TrafficSignalServer :=
  {| signalController := c; clientManager := clientManager s |}.

Definition with_manager (m : ClientManager.t) (s : TrafficSignalServer)
    : TrafficSignalServer :=
  {| signalController := signalController s; clientManager := m |}.

(** [client.sendMessage(message)] for the client object [clientId]. *)
Definition clientSend (clientId : nat) (message : Frame)
    (s : TrafficSignalServer) : TrafficSignalServer :=
  with_manager (ClientManager.sendVia clientId message (clientManager s)).2 s.

(** [handleNewConnection]: registers the socket and writes the welcome
    frame straight to it. *)
Definition handleNewConnection (now : Z) (socket : Socket)
    (s : TrafficSignalServer) : nat * TrafficSignalServer :=
  let '(client, m) := ClientManager.addClient socket now (clientManager s) in
  let clientId := ClientConnection.id client in
  let welcomeMsg := formatMessage now (Welcome clientId) STATUS in
  let client' :=
    {| ClientConnection.id := clientId;
       ClientConnection.socket := socket_write welcomeMsg socket;
       ClientConnection.subscribedRoutes := ClientConnection.subscribedRoutes client;
       ClientConnection.isActive := ClientConnection.isActive client;
       ClientConnection.createdAt := ClientConnection.createdAt client;
       ClientConnection.lastMessageAt := ClientConnection.lastMessageAt client;
       ClientConnection.bufferedData := ClientConnection.bufferedData client |} in
  (clientId,
   with_manager
     (ClientManager.with_clients
        (<[clientId := client']> (ClientManager.clients m)) m) s).

(** The loop of [handleCameraUpdate] over the four routes: the controller
    reached, and the error if [updateTrafficData] threw on the way. *)
Fixpoint applyCameraRoutes (routes : list Route) (trafficData : ValidatedData)
    (c : Controller) : Controller * option string :=
  match routes with
  | [] => (c, None)
  | route :: rest =>
      match rm_get trafficData route with
      | Some sample =>
          match updateTrafficData (JStr (route_name route))
                  (JNum (number_of_integral (vehicles sample)))
                  (JNum (number_of_integral (heavyVehicles sample))) c with
          | Ok c' => applyCameraRoutes rest trafficData c'
          | Throw e => (c, Some e)
          end
      | None => applyCameraRoutes rest trafficData c
      end
  end.

Definition handleCameraUpdate (now : Z) (clientId : nat)
    (trafficData : ValidatedData) (s : TrafficSignalServer)
    : TrafficSignalServer :=
  match ClientManager.getClient clientId (clientManager s) with
  | None => s
  | Some _ =>
      match applyCameraRoutes ROUTES_values trafficData (signalController s) with
      | (c, None) =>
          let ackMsg := formatMessage now (CameraAck (keyCount trafficData)) STATUS in
          clientSend clientId ackMsg (with_controller c s)
      | (c, Some e) =>
          let errorMsg :=
            formatError now ("Failed to process camera update: " +:+ e)
                        "INVALID_MESSAGE" in
          clientSend clientId errorMsg (with_controller c s)
      end
  end.

Definition handleSubscribe (now : Z) (clientId : nat) (routes : list string)
    (s : TrafficSignalServer) : TrafficSignalServer :=
  match ClientManager.getClient clientId (clientManager s) with
  | None => s
  | Some _ =>
      let '(success, m) :=
        ClientManager.subscribeClient clientId routes (clientManager s) in
      if success then
        clientSend clientId (formatMessage now (SubscribedAck routes) STATUS)
                   (with_manager m s)
      else
        clientSend clientId
                   (formatError now "Failed to subscribe" "INVALID_MESSAGE")
                   (with_manager m s)
  end.

Definition handleUnsubscribe (now : Z) (clientId : nat) (routes : list string)
    (s : TrafficSignalServer) : TrafficSignalServer :=
  match ClientManager.getClient clientId (clientManager s) with
  | None => s
  | Some _ =>
      let '(success, m) :=
        ClientManager.unsubscribeClient clientId routes (clientManager s) in
      if success then
        clientSend clientId (formatMessage now (UnsubscribedAck routes) STATUS)
                   (with_manager m s)
      else
        clientSend clientId
                   (formatError now "Failed to unsubscribe" "INVALID_MESSAGE")
                   (with_manager m s)
  end.

Definition handleQuery (now : Z) (clientId : nat) (queryType : string)
    (s : TrafficSignalServer) : TrafficSignalServer :=
  match ClientManager.getClient clientId (clientManager s) with
  | None => s
  | Some _ =>
      let c := signalController s in
      let responseData :=
        if String.eqb queryType "status" then StatusReply (getStatus now c)
        else if String.eqb queryType "phase" then PhaseReply (getPhaseInfo now c)
        else if String.eqb queryType "traffic" then
          TrafficReply (trafficData c) (calculateDemands c)
        else StatusReply (getStatus now c) in
      clientSend clientId (formatMessage now responseData STATUS) s
  end.

(** [processClientMessage(clientId, rawMessage)]; an exception raised while
    validating is not caught here and escapes to the caller. *)
Definition processClientMessage (now : Z) (clientId : nat)
    (rawMessage : string) (s : TrafficSignalServer)
    : result TrafficSignalServer :=
  match ClientManager.getClient clientId (clientManager s) with
  | None => Ok s
  | Some _ =>
      r ← processIncomingMessage rawMessage;
      Ok match r with
         | Rejected _ error =>
             clientSend clientId (formatError now error "INVALID_MESSAGE") s
         | AcceptedCameraUpdate data => handleCameraUpdate now clientId data s
         | AcceptedSubscribe routes => handleSubscribe now clientId routes s
         | AcceptedUnsubscribe routes => handleUnsubscribe now clientId routes s
         | AcceptedQuery queryType => handleQuery now clientId queryType s
         end
  end.

(** One firing of the timer set up by [startPhaseUpdates]. *)
Definition phaseUpdateTick (now now' : Z) (s : TrafficSignalServer)
    : TrafficSignalServer :=
  with_controller (updatePhase now now' (signalController s)).2 s.

(** One firing of the timer set up by [startBroadcasting]. *)
Definition broadcastTick (now : Z) (s : TrafficSignalServer)
    : TrafficSignalServer :=
  let '(changed, c) := hasStateChanged (signalController s) in
  if negb changed then with_controller c s
  else
    let currentState := getPhaseInfo now c in
    let message := formatMessage now (PhaseReply currentState) STATUS in
    with_manager
      (ClientManager.broadcastMessage message None [] (clientManager s)).2
      (with_controller c s).

End Server.

(* ===================================================================== *)
(** * Concrete inputs used by the examples *)
(* ===================================================================== *)

(** The line [{"type":"CAMERA_UPDATE","data":{"hasOwnProperty":1}}]. *)
Definition shadowing_line : string :=
  "{" +:+ quoted "type" +:+ ":" +:+ quoted "CAMERA_UPDATE" +:+ ","
      +:+ quoted "data" +:+ ":{" +:+ quoted "hasOwnProperty" +:+ ":1}}".

(** What [JSON.parse] makes of [shadowing_line]. *)
Definition shadowing_message : json :=
  JObj [("type", JStr "CAMERA_UPDATE");
        ("data", JObj [("hasOwnProperty", JNum (Fin 1))])].

(** The line [{"type":"CAMERA_UPDATE","data":{}}]. *)
Definition empty_update_line : string :=
  "{" +:+ quoted "type" +:+ ":" +:+ quoted "CAMERA_UPDATE" +:+ ","
      +:+ quoted "data" +:+ ":{}}".

Definition empty_update_message : json :=
  JObj [("type", JStr "CAMERA_UPDATE"); ("data", JObj [])].

(** The line [{"type":{"toString":1}}]: a message of no known type. *)
Definition unconvertible_type_line : string :=
  "{" +:+ quoted "type" +:+ ":{" +:+ quoted "toString" +:+ ":1}}".

Definition unconvertible_type_message : json :=
  JObj [("type", JObj [("toString", JNum (Fin 1))])].

(** The value of a decimal digit. *)
Definition digit_of (ch : ascii) : option Z :=
  let code := Z.of_nat (nat_of_ascii ch) in
  if (48 <=? code) && (code <=? 57) then Some (code - 48) else None.

(** The integer that the leading decimal digits of [text] spell, if there
    is a digit. *)
Fixpoint readDigits (text : string) (acc : option Z) : option Z :=
  match text with
  | EmptyString => acc
  | String ch rest =>
      match digit_of ch with
      | Some d => readDigits rest (Some (10 * default 0 acc + d))
      | None => acc
      end
  end.

(** [parseInt] on text without leading blanks: an optional minus sign and
    the leading decimal digits; NaN without a digit. *)
Definition readInt (text : string) : integral :=
  match text with
  | String "-" rest =>
      match readDigits rest None with Some n => IInt (- n) | None => INaN end
  | _ =>
      match readDigits text None with Some n => IInt n | None => INaN end
  end.

(** The text of a number: integers in decimal, the special values by name;
    of a number with a fraction, which no example prints, the integral
    part. *)
Definition printNumber (n : number) : string :=
  match n with
  | NaN => "NaN"
  | PosInf => "Infinity"
  | NegInf => "-Infinity"
  | Fin q => NilZero.string_of_int (Z.to_int (Qnum q ÷ Zpos (Qden q)))
  end.

(** A fragment of the runtime: [JSON.parse] knows the three lines above
    and rejects every other text, [trim] leaves text without surrounding
    blanks alone, [parseInt] and the printing of numbers are the two
    functions above. *)
Definition sampleBuiltins : JSBuiltins :=
  {| JSON_parse := fun text =>
       if String.eqb text shadowing_line then Some shadowing_message
       else if String.eqb text empty_update_line then Some empty_update_message
       else if String.eqb text unconvertible_type_line
       then Some unconvertible_type_message
       else None;
     String_trim := fun text => text;
     parseInt_string := readInt;
     Number_toString := printNumber |}.

(** The controller constructed at time 0 after its first transition, taken
    at 5000 ms. *)
Definition afterFirstTransition : Controller :=
  (updatePhase 5000 5000 (constructor 0)).2.

(** A healthy, open socket on which nothing has been written. *)
Definition freshSocket : Socket :=
  {| written := []; failing := false; destroyed := false |}.

(** A server started at time 0 to which one client connected at time 0 and
    never subscribed. *)
Definition oneClientServer : TrafficSignalServer :=
  (handleNewConnection 0 freshSocket
     {| signalController := constructor 0;
        clientManager := ClientManager.new |}).2.

(* ===================================================================== *)
(** * TrafficCalculator.js, continued *)
(* ===================================================================== *)

(** [getCycleTime(demands)], on [Object.values(demands)]. *)
Definition getCycleTime (demands : list number) : integral :=
  let totalDemand := fold_left nadd demands (Fin 0) in
  if nis0 totalDemand then IInt TIMING.MIN_CYCLE_TIME
  else
    let baseMultiplier := nmin (ndiv totalDemand (Fin 100)) (Fin 2) in
    let cycleTime :=
      nmul (Fin (inject_Z TIMING.MIN_CYCLE_TIME)) (nadd (Fin 1) baseMultiplier) in
    let cycleTime :=
      nadd cycleTime (Fin (inject_Z (TIMING.YELLOW_DURATION * 2))) in
    Math_round_number cycleTime.

Section ValidateTrafficData.

Context `{JSBuiltins}.

(** [parseInt(trafficData[route]?.field) || 0] *)
Definition optionalCount (routeData : option json) (field : string)
    : result integral :=
  let value :=
    match routeData with
    | None | Some JNull => None             (* [?.] on undefined or null *)
    | Some rd => get_prop rd field
    end in
  n ← js_parseInt value; Ok (ior0 n).

(** The body of the loop of [validateTrafficData] for one route. *)
Definition validatedRoute (trafficData : json) (route : Route) : result Sample :=
  let routeData := get_prop trafficData (route_name route) in
  vehicleCount ← optionalCount routeData "vehicles";
  heavyVehicleCount ← optionalCount routeData "heavyVehicles";
  Ok (mkSample (imax (IInt 0) vehicleCount) (imax (IInt 0) heavyVehicleCount)).

(** [validateTrafficData(trafficData)]; indexing null throws, and so does
    a count that cannot be converted to a string. *)
Definition validateTrafficData (trafficData : json) : result (RouteMap Sample) :=
  match trafficData with
  | JNull => Throw "TypeError: Cannot read properties of null"
  | _ =>
      sampleA ← validatedRoute trafficData ROUTES.A;
      sampleB ← validatedRoute trafficData ROUTES.B;
      sampleC ← validatedRoute trafficData ROUTES.C;
      sampleD ← validatedRoute trafficData ROUTES.D;
      Ok (mkRouteMap sampleA sampleB sampleC sampleD)
  end.

End ValidateTrafficData.

(* ===================================================================== *)
(** * ClientManager.js, continued *)
(* ===================================================================== *)

(** [ClientConnection.updateActivity], at clock reading [now]. *)
Definition updateActivity (now : Z) (c : ClientConnection.t) : ClientConnection.t :=
  {| ClientConnection.id := ClientConnection.id c;
     ClientConnection.socket := ClientConnection.socket c;
     ClientConnection.subscribedRoutes := ClientConnection.subscribedRoutes c;
     ClientConnection.isActive := ClientConnection.isActive c;
     ClientConnection.createdAt := ClientConnection.createdAt c;
     ClientConnection.lastMessageAt := now;
     ClientConnection.bufferedData := ClientConnection.bufferedData c |}.

(** [ClientManager.removeClient]: the connection is closed and leaves the
    map, so it is no longer part of the registry's state. *)
Definition removeClient (clientId : nat) (m : ClientManager.t)
    : bool * ClientManager.t :=
  match ClientManager.getClient clientId m with
  | Some _ =>
      (true, ClientManager.with_clients (delete clientId (ClientManager.clients m)) m)
  | None => (false, m)
  end.

Definition getClientCount (m : ClientManager.t) : nat :=
  size (ClientManager.clients m).

(** The test of [cleanupInactiveClients] on one client. *)
Definition isStale (inactivityThreshold now : Z) (client : ClientConnection.t) : bool :=
  negb (ClientConnection.isActive client)
  || bool_decide (now - ClientConnection.lastMessageAt client > inactivityThreshold).

(** [cleanupInactiveClients(inactivityThreshold)] at clock reading [now]:
    the number of clients removed and the registry afterwards. *)
Definition cleanupInactiveClients (inactivityThreshold now : Z)
    (m : ClientManager.t) : nat * ClientManager.t :=
  foldl
    (fun '(removedCount, acc) '(clientId, client) =>
       if isStale inactivityThreshold now client then
         (S removedCount, (removeClient clientId acc).2)
       else (removedCount, acc))
    (0%nat, m) (map_to_list (ClientManager.clients m)).

(** [resetAllClients] *)
Definition resetAllClients (m : ClientManager.t) : ClientManager.t :=
  foldl (fun acc clientId => (removeClient clientId acc).2) m
        (map_to_list (ClientManager.clients m)).*1.

(** Every client is stored under its own id, and ids not yet handed out
    are free: what [addClient] and [removeClient] maintain. *)
Definition wellKeyed (m : ClientManager.t) : Prop :=
  forall k client,
    ClientManager.clients m !! k = Some client ->
    ClientConnection.id client = k /\ (k < ClientManager.nextClientId m)%nat.

(* ===================================================================== *)
(** * server.js, continued *)
(* ===================================================================== *)

(** The line terminator. *)
Definition newline : ascii := ascii_of_nat 10.

(** [text.split('\n')]: never empty; the last element is what follows the
    last newline. *)
Fixpoint splitLines (text : string) : list string :=
  match text with
  | EmptyString => [EmptyString]
  | String ch rest =>
      if Ascii.eqb ch newline then EmptyString :: splitLines rest
      else
        match splitLines rest with
        | first :: others => String ch first :: others
        | [] => [String ch EmptyString]
        end
  end.

(** The complete lines of the buffered text, and the fragment that stays
    buffered ([messages.pop()]). *)
Definition frames (buffered : string) : list string * string :=
  let messages := splitLines buffered in
  (removelast messages, List.last messages EmptyString).

Definition hasNewline (text : string) : bool :=
  existsb (Ascii.eqb newline) (list_ascii_of_string text).

Section ServerMore.

Context `{JSBuiltins}.

(** The loop of [handleClientData] over the complete lines: blank lines
    are skipped, an exception ends the loop. *)
Fixpoint processMessages (now : Z) (clientId : nat) (messages : list string)
    (s : TrafficSignalServer) : result TrafficSignalServer :=
  match messages with
  | [] => Ok s
  | message :: rest =>
      if String.eqb (String_trim message) "" then
        processMessages now clientId rest s
      else
        s' ← processClientMessage now clientId message s;
        processMessages now clientId rest s'
  end.

(** [handleClientData(clientId, data)] at clock reading [now]. *)
Definition handleClientData (now : Z) (clientId : nat) (data : string)
    (s : TrafficSignalServer) : result TrafficSignalServer :=
  match ClientManager.getClient clientId (clientManager s) with
  | None => Ok s
  | Some client =>
      let client1 := updateActivity now client in
      let '(messages, remainder) :=
        frames (ClientConnection.bufferedData client1 +:+ data) in
      let client2 :=
        {| ClientConnection.id := ClientConnection.id client1;
           ClientConnection.socket := ClientConnection.socket client1;
           ClientConnection.subscribedRoutes :=
             ClientConnection.subscribedRoutes client1;
           ClientConnection.isActive := ClientConnection.isActive client1;
           ClientConnection.createdAt := ClientConnection.createdAt client1;
           ClientConnection.lastMessageAt :=
             ClientConnection.lastMessageAt client1;
           ClientConnection.bufferedData := remainder |} in
      processMessages now clientId messages
        (with_manager
           (ClientManager.with_clients
              (<[clientId := client2]> (ClientManager.clients (clientManager s)))
              (clientManager s)) s)
  end.

Definition handleClientDisconnect (clientId : nat) (s : TrafficSignalServer)
    : TrafficSignalServer :=
  with_manager (removeClient clientId (clientManager s)).2 s.

End ServerMore.

(* ===================================================================== *)
(** * Binary64 values of the Standard Library's specification *)
(* ===================================================================== *)

(** The number that a [spec_float] of the Standard Library stands for. *)
Definition number_of_SF (f : spec_float) : number :=
  match f with
  | S754_zero _ => Fin 0
  | S754_infinity negative => if negative then NegInf else PosInf
  | S754_nan => NaN
  | S754_finite negative m e =>
      Fin (Qred (inject_Z (if negative then Zneg m else Zpos m) * pow2 e))
  end.

(** Two numbers are the same value. *)
Definition agrees (a b : number) : bool :=
  match a, b with
  | NaN, NaN | PosInf, PosInf | NegInf, NegInf => true
  | Fin x, Fin y => Qeq_bool x y
  | _, _ => false
  end.

(** The binary64 value nearest to [m * 2^e]. *)
Definition binary64 (m : positive) (e : Z) : spec_float :=
  binary_normalize 53 1024 (Zpos m) e false.

(** Values on which the arithmetic is compared: one, 0.8, the two largest
    powers of two, the largest finite value, the smallest subnormal, an odd
    54-bit integer (a tie), a negative value, zero, the infinities and
    NaN. *)
Definition binary64_samples : list spec_float :=
  [binary64 1 0; binary64 3602879701896397 (-52); binary64 1 1023;
   binary64 1 1022; binary64 9007199254740991 971; binary64 1 (-1074);
   binary64 9007199254740993 0; SFopp (binary64 7 (-3)); S754_zero false;
   S754_infinity false; S754_infinity true; S754_nan].

(* ===================================================================== *)
(** * The green time in terms of the two pair demands *)
(* ===================================================================== *)

(** The demand of the pair that [phase] belongs to and the demand of the
    other pair, from demands that are already clamped. *)
Definition pairDemands (demandA demandB demandC demandD : number)
    (phase : Phase) : number * number :=
  match phase with
  | PHASE_AC_GREEN | PHASE_AC_YELLOW =>
      (nadd demandA demandC, nadd demandB demandD)
  | _ => (nadd demandB demandD, nadd demandA demandC)
  end.

(** The green time for the demand [own] of the phase's pair and the demand
    [other] of the other pair. *)
Definition greenFor (own other : number) : integral :=
  let totalDemand := nadd own other in
  if nis0 totalDemand then IInt TIMING.MIN_GREEN
  else
    Math_round_number
      (nadd (Fin (inject_Z TIMING.MIN_GREEN))
            (nmul (nmul (Fin (inject_Z (TIMING.MAX_GREEN - TIMING.MIN_GREEN)))
                        (ndiv own totalDemand))
                  point8)).

(** Whether a route belongs to the pair that a phase serves
    (ROUTE_PAIRS: A with C, B with D). *)
Definition servedBy (p : Phase) (r : Route) : bool :=
  match p, r with
  | (PHASE_AC_GREEN | PHASE_AC_YELLOW), (ROUTES.A | ROUTES.C) => true
  | (PHASE_BD_GREEN | PHASE_BD_YELLOW), (ROUTES.B | ROUTES.D) => true
  | _, _ => false
  end.

(* ===================================================================== *)
(** * Predicates used to state invariants *)
(* ===================================================================== *)

(** Every stored vehicle count is non-negative. *)
Definition nonNegativeSamples (td : RouteMap Sample) : Prop :=
  forall r,
    nonNegative_i (vehicles (rm_get td r))
    /\ nonNegative_i (heavyVehicles (rm_get td r)).

(** The committed duration fits the kind of phase: the fixed yellow time
    in a yellow phase; in a green phase a number of seconds within the
    green bounds, or NaN. *)
Definition durationFitsPhase (c : Controller) : Prop :=
  if isYellowPhase (currentPhase c)
  then currentPhaseDuration c = IInt TIMING.YELLOW_DURATION
  else currentPhaseDuration c = INaN
       \/ exists seconds,
            currentPhaseDuration c = IInt seconds
            /\ TIMING.MIN_GREEN <= seconds <= TIMING.MAX_GREEN.

Section ControllerInService.

Context `{JSBuiltins}.

(** The states a controller goes through in the running server: the steps
    of [ControllerStep] interleaved with the broadcast timer's calls of
    [hasStateChanged], which moves the broadcast marker. *)
Inductive InService : Controller -> Prop :=
| service_constructor now : InService (constructor now)
| service_step c c' : InService c -> ControllerStep c c' -> InService c'
| service_hasStateChanged c : InService c -> InService (hasStateChanged c).2.

End ControllerInService.

(** The body of the delivery loop of [broadcastMessage]: the running count
    of successful sends and the registry. *)
Definition broadcastStep (message : Frame) (state : nat * ClientManager.t)
    (clientId : nat) : nat * ClientManager.t :=
  let '(count, acc) := state in
  match ClientManager.getClient clientId acc with
  | Some client =>
      if ClientConnection.isActive client then
        let '(sent, acc') := ClientManager.sendVia clientId message acc in
        ((if sent then S count else count), acc')
      else (count, acc)
  | None => (count, acc)
  end.

(** Whether a session is entitled to a broadcast restricted to [routes]
    ([None]: unrestricted). *)
Definition routesMatch (routes : option (list string))
    (client : ClientConnection.t) : Prop :=
  match routes with
  | None => True
  | Some rs => exists r, r ∈ rs /\ r ∈ ClientConnection.subscribedRoutes client
  end.

(** A controller after its first transition and the broadcast that
    follows it. *)
Definition afterFirstBroadcast : Controller :=
  (hasStateChanged afterFirstTransition).2.

(* ===================================================================== *)
(** * Binary64 rounding *)
(* ===================================================================== *)

Lemma pow2_pos (k : Z) : (0 < pow2 k)%Q.
Proof. apply Qpower_0_lt. reflexivity. Qed.

Lemma pow2_add (a b : Z) : (pow2 (a + b) == pow2 a * pow2 b)%Q.
Proof. apply Qpower_plus. discriminate. Qed.

Lemma pow2_succ (a : Z) : (pow2 (a + 1) == 2 * pow2 a)%Q.
Proof. rewrite pow2_add. change (pow2 1) with 2%Q. ring. Qed.

Lemma pow2_pred (a : Z) : (2 * pow2 (a - 1) == pow2 a)%Q.
Proof. rewrite <- pow2_succ. replace (a - 1 + 1)%Z with a by lia. reflexivity. Qed.

Lemma pow2_opp (a : Z) : (pow2 a * pow2 (- a) == 1)%Q.
Proof. rewrite <- pow2_add. replace (a + - a)%Z with 0%Z by lia. reflexivity. Qed.

Lemma pow2_le (a b : Z) : (a <= b)%Z -> (pow2 a <= pow2 b)%Q.
Proof. intros. apply Qpower_le_compat_l; [assumption | discriminate]. Qed.

Lemma pow2_lt (a b : Z) : (a < b)%Z -> (pow2 a < pow2 b)%Q.
Proof. intros. apply Qpower_lt_compat_l; [assumption | reflexivity]. Qed.

Lemma pow2_lt_inv (a b : Z) : (pow2 a < pow2 b)%Q -> (a < b)%Z.
Proof. intros. apply (Qpower_lt_compat_l_inv 2); [assumption | reflexivity]. Qed.

Lemma pow2_Z (k : Z) : (0 <= k)%Z -> (pow2 k == inject_Z (2 ^ k))%Q.
Proof. intros. unfold pow2. rewrite Zpower_Qpower by assumption. reflexivity. Qed.

(** The binade of a positive rational. *)
Lemma ilog2_spec (x : Q) :
  (0 < x)%Q -> (pow2 (ilog2 x) <= x /\ x < pow2 (ilog2 x + 1))%Q.
Proof.
  intros Hx. unfold ilog2.
  destruct x as [a b]. cbn [Qnum Qden].
  assert (Ha : (0 < a)%Z).
  { unfold Qlt in Hx. simpl in Hx. lia. }
  pose proof (Z.log2_spec a Ha) as [Ha1 Ha2].
  pose proof (Z.log2_spec (Zpos b) (Pos2Z.is_pos b)) as [Hb1 Hb2].
  pose proof (Z.log2_nonneg a) as Hla.
  pose proof (Z.log2_nonneg (Zpos b)) as Hlb.
  set (la := Z.log2 a) in *. set (lb := Z.log2 (Zpos b)) in *.
  rewrite Z.pow_succ_r in Ha2, Hb2 by assumption.
  assert (HA1 : (pow2 la <= inject_Z a)%Q).
  { rewrite pow2_Z by assumption. rewrite <- Zle_Qle. exact Ha1. }
  assert (HA2 : (inject_Z a < 2 * pow2 la)%Q).
  { rewrite pow2_Z by assumption. change 2%Q with (inject_Z 2).
    rewrite <- inject_Z_mult, <- Zlt_Qlt. exact Ha2. }
  assert (HB1 : (pow2 lb <= inject_Z (Zpos b))%Q).
  { rewrite pow2_Z by assumption. rewrite <- Zle_Qle. exact Hb1. }
  assert (HB2 : (inject_Z (Zpos b) < 2 * pow2 lb)%Q).
  { rewrite pow2_Z by assumption. change 2%Q with (inject_Z 2).
    rewrite <- inject_Z_mult, <- Zlt_Qlt. exact Hb2. }
  assert (Hx' : ((a # b) * inject_Z (Zpos b) == inject_Z a)%Q).
  { rewrite (Qmake_Qdiv a b). field. discriminate. }
  assert (Hl : (pow2 (la - lb) * pow2 lb == pow2 la)%Q).
  { rewrite <- pow2_add. replace (la - lb + lb)%Z with la by lia. reflexivity. }
  pose proof (pow2_pos la) as Pla. pose proof (pow2_pos lb) as Plb.
  pose proof (pow2_pos (la - lb)) as Pl.
  pose proof (pow2_succ (la - lb)) as Hs. pose proof (pow2_pred (la - lb)) as Hp.
  pose proof (pow2_pos (la - lb - 1)) as Pp.
  set (X := (a # b)%Q) in *. set (Bq := inject_Z (Zpos b)) in *.
  set (A := inject_Z a) in *.
  assert (Hlo : (pow2 (la - lb - 1) <= X)%Q).
  { apply Qnot_lt_le. intros Hc. nra. }
  assert (Hhi : (X < pow2 (la - lb + 1))%Q).
  { apply Qnot_le_lt. intros Hc. nra. }
  destruct (Qle_bool (pow2 (la - lb)) X) eqn:E.
  - apply Qle_bool_iff in E. split; assumption.
  - assert (Hn : (X < pow2 (la - lb))%Q).
    { apply Qnot_le_lt. intros Hc. apply Qle_bool_iff in Hc. congruence. }
    replace (la - lb - 1 + 1)%Z with (la - lb)%Z by lia. split; assumption.
Qed.

Lemma ilog2_unique (x : Q) (e : Z) :
  (pow2 e <= x)%Q -> (x < pow2 (e + 1))%Q -> ilog2 x = e.
Proof.
  intros H1 H2.
  assert (Hx : (0 < x)%Q) by (pose proof (pow2_pos e); lra).
  destruct (ilog2_spec x Hx) as [H3 H4].
  assert (e < ilog2 x + 1)%Z by (apply pow2_lt_inv; lra).
  assert (ilog2 x < e + 1)%Z by (apply pow2_lt_inv; lra).
  lia.
Qed.

Lemma ilog2_mono (x y : Q) : (0 < x)%Q -> (x <= y)%Q -> (ilog2 x <= ilog2 y)%Z.
Proof.
  intros Hx Hxy.
  destruct (ilog2_spec x Hx) as [H1 _].
  destruct (ilog2_spec y ltac:(lra)) as [_ H2].
  assert (ilog2 x < ilog2 y + 1)%Z by (apply pow2_lt_inv; lra).
  lia.
Qed.

Lemma ilog2_comp (x y : Q) : (0 < x)%Q -> (x == y)%Q -> ilog2 x = ilog2 y.
Proof.
  intros Hx Hxy. destruct (ilog2_spec x Hx) as [H1 H2].
  symmetry. apply ilog2_unique; lra.
Qed.

Lemma ilog2_double (x : Q) : (0 < x)%Q -> ilog2 (2 * x) = (ilog2 x + 1)%Z.
Proof.
  intros Hx. destruct (ilog2_spec x Hx) as [H1 H2].
  apply ilog2_unique.
  - rewrite pow2_succ. lra.
  - rewrite pow2_succ. lra.
Qed.

(** Rounding to the nearest integer. *)
Lemma RNE_comp (p q : Q) : (p == q)%Q -> RNE p = RNE q.
Proof.
  intros E. unfold RNE.
  rewrite (Qfloor_comp _ _ E).
  assert (E' : (p - inject_Z (Qfloor q) == q - inject_Z (Qfloor q))%Q) by lra.
  rewrite (Qcompare_comp _ _ E' _ _ (Qeq_refl (1 # 2))). reflexivity.
Qed.

Lemma RNE_Z (n : Z) : RNE (inject_Z n) = n.
Proof.
  unfold RNE. rewrite Qfloor_Z.
  assert (E : (inject_Z n - inject_Z n ?= 1 # 2)%Q = Lt).
  { assert (L : (inject_Z n - inject_Z n < 1 # 2)%Q) by lra.
    apply (proj1 (Qlt_alt _ _)) in L. exact L. }
  rewrite E. reflexivity.
Qed.

Lemma RNE_bounds (q : Q) :
  (Qfloor q <= RNE q <= Qfloor q + 1)%Z.
Proof.
  unfold RNE. destruct (_ ?= _)%Q; try destruct (Z.even _); lia.
Qed.

Lemma RNE_mono (p q : Q) : (p <= q)%Q -> (RNE p <= RNE q)%Z.
Proof.
  intros Hpq.
  pose proof (Qfloor_resp_le _ _ Hpq) as Hf.
  destruct (Z.eq_dec (Qfloor p) (Qfloor q)) as [E | NE].
  - unfold RNE. rewrite E.
    destruct (q - inject_Z (Qfloor q) ?= 1 # 2)%Q eqn:Cq;
      destruct (p - inject_Z (Qfloor q) ?= 1 # 2)%Q eqn:Cp;
      try destruct (Z.even (Qfloor q)); try lia;
      try apply (proj2 (Qeq_alt _ _)) in Cq; try apply (proj2 (Qlt_alt _ _)) in Cq;
      try apply (proj2 (Qgt_alt _ _)) in Cq;
      try apply (proj2 (Qeq_alt _ _)) in Cp; try apply (proj2 (Qlt_alt _ _)) in Cp;
      try apply (proj2 (Qgt_alt _ _)) in Cp;
      exfalso; lra.
  - pose proof (RNE_bounds p). pose proof (RNE_bounds q). lia.
Qed.

Lemma RNE_ge (n : Z) (q : Q) : (inject_Z n <= q)%Q -> (n <= RNE q)%Z.
Proof. intros Hq. pose proof (RNE_mono _ _ Hq) as Hm. rewrite RNE_Z in Hm. exact Hm. Qed.

Lemma RNE_le (n : Z) (q : Q) : (q <= inject_Z n)%Q -> (RNE q <= n)%Z.
Proof. intros Hq. pose proof (RNE_mono _ _ Hq) as Hm. rewrite RNE_Z in Hm. exact Hm. Qed.

(** Rounding a positive rational. *)
Lemma ulp_exp_comp (x y : Q) : (0 < x)%Q -> (x == y)%Q -> ulp_exp x = ulp_exp y.
Proof. intros Hx E. unfold ulp_exp. rewrite (ilog2_comp x y Hx E). reflexivity. Qed.

Lemma round_pos_comp (x y : Q) :
  (0 < x)%Q -> (x == y)%Q -> (round_pos x == round_pos y)%Q.
Proof.
  intros Hx E. unfold round_pos. rewrite (ulp_exp_comp x y Hx E).
  assert (E' : (x * pow2 (- ulp_exp y) == y * pow2 (- ulp_exp y))%Q)
    by (rewrite E; reflexivity).
  rewrite (RNE_comp _ _ E'). reflexivity.
Qed.

Lemma round_pos_exact (x : Q) (n : Z) :
  (x == inject_Z n * pow2 (ulp_exp x))%Q -> (round_pos x == x)%Q.
Proof.
  intros E. unfold round_pos.
  assert (E' : (x * pow2 (- ulp_exp x) == inject_Z n)%Q).
  { rewrite E at 1. rewrite <- Qmult_assoc, pow2_opp. ring. }
  rewrite (RNE_comp _ _ E'), RNE_Z. symmetry. exact E.
Qed.

Lemma round_pos_nonneg (x : Q) : (0 < x)%Q -> (0 <= round_pos x)%Q.
Proof.
  intros Hx. unfold round_pos.
  pose proof (pow2_pos (ulp_exp x)) as P1. pose proof (pow2_pos (- ulp_exp x)) as P2.
  assert (0 <= RNE (x * pow2 (- ulp_exp x)))%Z.
  { apply RNE_ge. change (inject_Z 0) with 0%Q. nra. }
  assert (0 <= inject_Z (RNE (x * pow2 (- ulp_exp x))))%Q.
  { change 0%Q with (inject_Z 0). rewrite <- Zle_Qle. assumption. }
  nra.
Qed.

Lemma round_pos_upper (x : Q) :
  (0 < x)%Q -> (round_pos x <= pow2 (Z.max (ilog2 x) (-1022) + 1))%Q.
Proof.
  intros Hx. destruct (ilog2_spec x Hx) as [_ H2].
  set (e := Z.max (ilog2 x) (-1022)).
  assert (He : (x <= pow2 (e + 1))%Q).
  { pose proof (pow2_le (ilog2 x + 1) (e + 1) ltac:(lia)). lra. }
  unfold round_pos, ulp_exp. fold e.
  pose proof (pow2_pos (e - 52)) as P1. pose proof (pow2_pos (- (e - 52))) as P2.
  assert (E53 : (pow2 (e + 1) * pow2 (- (e - 52)) == inject_Z (2 ^ 53))%Q).
  { rewrite <- pow2_add. replace (e + 1 + - (e - 52))%Z with 53%Z by lia.
    apply pow2_Z. lia. }
  assert (Hn : (RNE (x * pow2 (- (e - 52))) <= 2 ^ 53)%Z).
  { apply RNE_le. rewrite <- E53. nra. }
  assert (Hq : (inject_Z (RNE (x * pow2 (- (e - 52)))) <= inject_Z (2 ^ 53))%Q).
  { rewrite <- Zle_Qle. exact Hn. }
  assert (E : (pow2 (e + 1) == inject_Z (2 ^ 53) * pow2 (e - 52))%Q).
  { rewrite <- (pow2_Z 53) by lia. rewrite <- pow2_add.
    replace (53 + (e - 52))%Z with (e + 1)%Z by lia. reflexivity. }
  rewrite E. nra.
Qed.

Lemma round_pos_lower (x : Q) :
  (0 < x)%Q -> (-1022 <= ilog2 x)%Z -> (pow2 (ilog2 x) <= round_pos x)%Q.
Proof.
  intros Hx Hn. destruct (ilog2_spec x Hx) as [H1 _].
  unfold round_pos, ulp_exp. rewrite Z.max_l by lia.
  set (e := ilog2 x) in *.
  pose proof (pow2_pos (e - 52)) as P1. pose proof (pow2_pos (- (e - 52))) as P2.
  assert (E52 : (pow2 e * pow2 (- (e - 52)) == inject_Z (2 ^ 52))%Q).
  { rewrite <- pow2_add. replace (e + - (e - 52))%Z with 52%Z by lia.
    apply pow2_Z. lia. }
  assert (Hm : (2 ^ 52 <= RNE (x * pow2 (- (e - 52))))%Z).
  { apply RNE_ge. rewrite <- E52. nra. }
  assert (Hq : (inject_Z (2 ^ 52) <= inject_Z (RNE (x * pow2 (- (e - 52)))))%Q).
  { rewrite <- Zle_Qle. exact Hm. }
  assert (E : (pow2 e == inject_Z (2 ^ 52) * pow2 (e - 52))%Q).
  { rewrite <- (pow2_Z 52) by lia. rewrite <- pow2_add.
    replace (52 + (e - 52))%Z with e by lia. reflexivity. }
  rewrite E. nra.
Qed.

Lemma round_pos_mono (x y : Q) :
  (0 < x)%Q -> (x <= y)%Q -> (round_pos x <= round_pos y)%Q.
Proof.
  intros Hx Hxy.
  assert (Hy : (0 < y)%Q) by lra.
  pose proof (ilog2_mono x y Hx Hxy) as Hl.
  destruct (Z.eq_dec (Z.max (ilog2 x) (-1022)) (Z.max (ilog2 y) (-1022))) as [E | NE].
  - unfold round_pos, ulp_exp. rewrite E.
    set (k := (Z.max (ilog2 y) (-1022) - 52)%Z).
    pose proof (pow2_pos k) as P1. pose proof (pow2_pos (- k)) as P2.
    assert (Hm : (RNE (x * pow2 (- k)) <= RNE (y * pow2 (- k)))%Z).
    { apply RNE_mono. nra. }
    rewrite Zle_Qle in Hm. nra.
  - assert (Hy2 : (-1022 <= ilog2 y)%Z) by lia.
    pose proof (round_pos_upper x Hx) as Hu.
    pose proof (round_pos_lower y Hy Hy2) as Hlo.
    pose proof (pow2_le (Z.max (ilog2 x) (-1022) + 1) (ilog2 y) ltac:(lia)).
    lra.
Qed.

(** A positive value on the grid of its binade is left alone. *)
Lemma ulp_exp_grid (y : Q) (e : Z) :
  (0 < y)%Q -> (-1022 <= e)%Z -> (y < pow2 (e + 1))%Q ->
  ((-1022 < e)%Z -> (pow2 e <= y)%Q) ->
  ulp_exp y = (e - 52)%Z.
Proof.
  intros Hy He Hlt Hge. unfold ulp_exp. f_equal.
  destruct (ilog2_spec y Hy) as [H1 H2].
  assert (ilog2 y < e + 1)%Z by (apply pow2_lt_inv; lra).
  destruct (Z.eq_dec e (-1022)) as [-> | Hne]; [lia |].
  specialize (Hge ltac:(lia)).
  assert (e < ilog2 y + 1)%Z by (apply pow2_lt_inv; lra).
  lia.
Qed.

Lemma round_pos_idem (x : Q) :
  (0 < x)%Q -> (0 < round_pos x)%Q -> (round_pos (round_pos x) == round_pos x)%Q.
Proof.
  intros Hx Hy.
  set (e := Z.max (ilog2 x) (-1022)).
  set (n := RNE (x * pow2 (- (e - 52)))).
  assert (Ey : (round_pos x == inject_Z n * pow2 (e - 52))%Q) by reflexivity.
  pose proof (round_pos_upper x Hx) as Hu. fold e in Hu.
  pose proof (pow2_pos (e - 52)) as P1.
  assert (E1 : (pow2 (e + 1) == inject_Z (2 ^ 53) * pow2 (e - 52))%Q).
  { rewrite <- (pow2_Z 53) by lia. rewrite <- pow2_add.
    replace (53 + (e - 52))%Z with (e + 1)%Z by lia. reflexivity. }
  assert (Hn53 : (n <= 2 ^ 53)%Z).
  { rewrite Zle_Qle. apply Qnot_lt_le. intros Hc. nra. }
  destruct (Z.eq_dec n (2 ^ 53)) as [En | Nn].
  - (* rounded up to the next power of two *)
    assert (Ey' : (round_pos x == pow2 (e + 1))%Q).
    { rewrite Ey, En, E1. reflexivity. }
    apply (round_pos_exact _ (2 ^ 52)).
    assert (Ek : ulp_exp (round_pos x) = (e + 1 - 52)%Z).
    { apply ulp_exp_grid; [assumption | lia | |].
      - rewrite Ey'. apply pow2_lt. lia.
      - intros _. rewrite Ey'. apply Qle_refl. }
    rewrite Ek, Ey'. rewrite <- (pow2_Z 52) by lia. rewrite <- pow2_add.
    replace (52 + (e + 1 - 52))%Z with (e + 1)%Z by lia. reflexivity.
  - apply (round_pos_exact _ n).
    assert (Ek : ulp_exp (round_pos x) = (e - 52)%Z).
    { apply ulp_exp_grid; [assumption | lia | |].
      - rewrite Ey, E1.
        assert ((inject_Z n < inject_Z (2 ^ 53))%Q) by (rewrite <- Zlt_Qlt; lia).
        nra.
      - intros He. assert (El : e = ilog2 x) by lia.
        rewrite El. apply round_pos_lower; [assumption | lia]. }
    rewrite Ek. exact Ey.
Qed.

Lemma round_pos_double (y : Q) :
  (0 < y)%Q -> (round_pos y == y)%Q -> (round_pos (2 * y) == 2 * y)%Q.
Proof.
  intros Hy Ey.
  set (e := Z.max (ilog2 y) (-1022)).
  set (n := RNE (y * pow2 (- (e - 52)))).
  assert (Ey' : (y == inject_Z n * pow2 (e - 52))%Q).
  { rewrite <- Ey at 1. reflexivity. }
  assert (Hy2 : (0 < 2 * y)%Q) by lra.
  pose proof (ilog2_double y Hy) as Hd.
  destruct (Z_lt_le_dec (ilog2 y) (-1022)) as [Hsub | Hnorm].
  - apply (round_pos_exact _ (2 * n)).
    unfold ulp_exp. rewrite Hd. rewrite Z.max_r by lia.
    rewrite inject_Z_mult. rewrite Ey' at 1.
    unfold e. rewrite Z.max_r by lia. change (inject_Z 2) with 2%Q. ring.
  - apply (round_pos_exact _ n).
    unfold ulp_exp. rewrite Hd. rewrite Z.max_l by lia.
    rewrite Ey' at 1. unfold e. rewrite Z.max_l by lia.
    replace (ilog2 y + 1 - 52)%Z with (ilog2 y - 52 + 1)%Z by lia.
    rewrite pow2_succ. ring.
Qed.

(** Rounding to binary64. *)
Lemma round64_comp (x y : Q) : (x == y)%Q -> round64 x = round64 y.
Proof. intros E. unfold round64. rewrite (Qred_complete _ _ E). reflexivity. Qed.

Lemma Qnum_sign (x : Q) :
  match Qnum x with
  | Z0 => (x == 0)%Q
  | Zpos _ => (0 < x)%Q
  | Zneg _ => (x < 0)%Q
  end.
Proof. destruct x as [[| p | p] d]; unfold Qeq, Qlt; simpl; lia. Qed.

Lemma round64_zero (x : Q) : (x == 0)%Q -> round64 x = Fin 0.
Proof. intros E. rewrite (round64_comp _ _ E). reflexivity. Qed.

Lemma round64_pos_cases (x : Q) :
  (0 < x)%Q ->
  (round64 x = PosInf /\ (pow2 1024 <= round_pos x)%Q)
  \/ exists y, round64 x = Fin y /\ (y == round_pos x)%Q
               /\ (round_pos x < pow2 1024)%Q /\ Qred y = y.
Proof.
  intros Hx. unfold round64.
  pose proof (Qred_correct x) as Er. pose proof (Qnum_sign (Qred x)) as Hs.
  destruct (Qnum (Qred x)) as [| p | p]; [lra | | lra].
  assert (Ec : (round_pos (Qred x) == round_pos x)%Q)
    by (apply round_pos_comp; lra).
  destruct (Qle_bool (pow2 1024) (round_pos (Qred x))) eqn:Eb.
  - left. apply Qle_bool_iff in Eb. split; [reflexivity | lra].
  - right. exists (Qred (round_pos (Qred x))). repeat split.
    + rewrite Qred_correct. exact Ec.
    + apply Qnot_le_lt. intros Hc. rewrite <- Ec in Hc.
      apply Qle_bool_iff in Hc. congruence.
    + apply Qred_complete. apply Qred_correct.
Qed.

Lemma round64_neg_cases (x : Q) :
  (x < 0)%Q ->
  (round64 x = NegInf /\ (pow2 1024 <= round_pos (- x))%Q)
  \/ exists y, round64 x = Fin y /\ (y == - round_pos (- x))%Q
               /\ (round_pos (- x) < pow2 1024)%Q /\ Qred y = y.
Proof.
  intros Hx. unfold round64.
  pose proof (Qred_correct x) as Er. pose proof (Qnum_sign (Qred x)) as Hs.
  destruct (Qnum (Qred x)) as [| p | p]; [lra | lra |].
  assert (Ec : (round_pos (- Qred x) == round_pos (- x))%Q)
    by (apply round_pos_comp; lra).
  destruct (Qle_bool (pow2 1024) (round_pos (- Qred x))) eqn:Eb.
  - left. apply Qle_bool_iff in Eb. split; [reflexivity | lra].
  - right. exists (Qred (- round_pos (- Qred x))). repeat split.
    + rewrite Qred_correct, Ec. reflexivity.
    + apply Qnot_le_lt. intros Hc. rewrite <- Ec in Hc.
      apply Qle_bool_iff in Hc. congruence.
    + apply Qred_complete. apply Qred_correct.
Qed.

Lemma round64_not_NaN (x : Q) : round64 x <> NaN.
Proof.
  unfold round64. destruct (Qnum (Qred x)); [discriminate | |];
    destruct (Qle_bool _ _); discriminate.
Qed.

Lemma round64_canonical (x y : Q) : round64 x = Fin y -> Qred y = y.
Proof.
  intros E. destruct (Q_dec x 0) as [[Hn | Hp] | Hz].
  - destruct (round64_neg_cases x Hn) as [[E' _] | (y' & E' & _ & _ & Hc)];
      congruence.
  - destruct (round64_pos_cases x Hp) as [[E' _] | (y' & E' & _ & _ & Hc)];
      congruence.
  - rewrite (round64_zero x Hz) in E. injection E as <-. reflexivity.
Qed.

Lemma nle_refl_round64 (x : Q) : nle (round64 x) (round64 x).
Proof.
  pose proof (round64_not_NaN x). destruct (round64 x); simpl; try lra; tauto.
Qed.

Lemma round64_mono (x y : Q) : (x <= y)%Q -> nle (round64 x) (round64 y).
Proof.
  intros Hxy.
  destruct (Q_dec x 0) as [[Hxn | Hxp] | Hxz];
    destruct (Q_dec y 0) as [[Hyn | Hyp] | Hyz]; try lra.
  - (* both negative *)
    pose proof (round_pos_mono (- y) (- x) ltac:(lra) ltac:(lra)) as Hm.
    destruct (round64_neg_cases x Hxn) as [[-> Hx1] | (x' & -> & Ex & Hx1 & _)];
      destruct (round64_neg_cases y Hyn) as [[-> Hy1] | (y' & -> & Ey & Hy1 & _)];
      simpl; try exact I; lra.
  - destruct (round64_neg_cases x Hxn) as [[-> Hx1] | (x' & -> & Ex & Hx1 & _)];
      destruct (round64_pos_cases y Hyp) as [[-> Hy1] | (y' & -> & Ey & Hy1 & _)];
      simpl; try exact I.
    pose proof (round_pos_nonneg (- x) ltac:(lra)).
    pose proof (round_pos_nonneg y Hyp). lra.
  - rewrite (round64_zero y Hyz).
    destruct (round64_neg_cases x Hxn) as [[-> Hx1] | (x' & -> & Ex & Hx1 & _)];
      simpl; try exact I.
    pose proof (round_pos_nonneg (- x) ltac:(lra)). lra.
  - pose proof (round_pos_mono x y Hxp Hxy) as Hm.
    destruct (round64_pos_cases x Hxp) as [[-> Hx1] | (x' & -> & Ex & Hx1 & _)];
      destruct (round64_pos_cases y Hyp) as [[-> Hy1] | (y' & -> & Ey & Hy1 & _)];
      simpl; try exact I; lra.
  - rewrite (round64_zero x Hxz).
    destruct (round64_pos_cases y Hyp) as [[-> Hy1] | (y' & -> & Ey & Hy1 & _)];
      simpl; try exact I.
    pose proof (round_pos_nonneg y Hyp). lra.
  - rewrite (round64_zero x Hxz), (round64_zero y Hyz). simpl. lra.
Qed.

(** A rounded value is a binary64 value. *)
Lemma round64_idem (x y : Q) : round64 x = Fin y -> round64 y = Fin y.
Proof.
  intros E. pose proof (round64_canonical x y E) as Hc.
  destruct (Q_dec x 0) as [[Hn | Hp] | Hz].
  - destruct (round64_neg_cases x Hn) as [[E' _] | (y' & E' & Ey & Hlt & _)];
      [congruence |].
    assert (y' = y) by congruence. subst y'.
    pose proof (round_pos_nonneg (- x) ltac:(lra)) as Hnn.
    destruct (Qle_lt_or_eq _ _ Hnn) as [Hpos | Hzero].
    + assert (Hy : (y < 0)%Q) by lra.
      destruct (round64_neg_cases y Hy) as [[_ Hov] | (z & -> & Ez & _ & Hz)].
      * assert (Ec : (round_pos (- y) == round_pos (round_pos (- x)))%Q).
        { apply round_pos_comp; lra. }
        rewrite Ec, (round_pos_idem (- x) ltac:(lra) Hpos) in Hov. lra.
      * f_equal. rewrite <- Hz, <- Hc. apply Qred_complete.
        rewrite Ez.
        assert (Ec : (round_pos (- y) == round_pos (round_pos (- x)))%Q).
        { apply round_pos_comp; lra. }
        rewrite Ec, (round_pos_idem (- x) ltac:(lra) Hpos). lra.
    + rewrite (round64_zero y ltac:(lra)). f_equal.
      rewrite <- Hc. apply (Qred_complete 0 y). lra.
  - destruct (round64_pos_cases x Hp) as [[E' _] | (y' & E' & Ey & Hlt & _)];
      [congruence |].
    assert (y' = y) by congruence. subst y'.
    pose proof (round_pos_nonneg x Hp) as Hnn.
    destruct (Qle_lt_or_eq _ _ Hnn) as [Hpos | Hzero].
    + assert (Hy : (0 < y)%Q) by lra.
      assert (Ec : (round_pos y == round_pos (round_pos x))%Q).
      { apply round_pos_comp; lra. }
      destruct (round64_pos_cases y Hy) as [[_ Hov] | (z & -> & Ez & _ & Hz)].
      * rewrite Ec, (round_pos_idem x Hp Hpos) in Hov. lra.
      * f_equal. rewrite <- Hz, <- Hc. apply Qred_complete.
        rewrite Ez, Ec, (round_pos_idem x Hp Hpos). lra.
    + rewrite (round64_zero y ltac:(lra)). f_equal.
      rewrite <- Hc. apply (Qred_complete 0 y). lra.
  - rewrite (round64_zero x Hz) in E. injection E as <-. reflexivity.
Qed.

(** The structure of a positive binary64 value. *)
Lemma double_round_pos (y : Q) :
  (0 < y)%Q -> round64 y = Fin y -> (round_pos y == y)%Q.
Proof.
  intros Hy E.
  destruct (round64_pos_cases y Hy) as [[E' _] | (y' & E' & Ey & _)]; [congruence |].
  assert (y' = y) by congruence. subst y'. symmetry. exact Ey.
Qed.

(** Doubling a binary64 value is exact short of overflow. *)
Lemma round64_double (y : Q) :
  (0 <= y)%Q -> round64 y = Fin y -> (2 * y < pow2 1024)%Q ->
  round64 (2 * y) = Fin (Qred (2 * y)).
Proof.
  intros Hy E Hlt.
  destruct (Qle_lt_or_eq _ _ Hy) as [Hpos | Hzero].
  - pose proof (double_round_pos y Hpos E) as Ey.
    pose proof (round_pos_double y Hpos Ey) as E2.
    destruct (round64_pos_cases (2 * y) ltac:(lra))
      as [[_ Hov] | (z & -> & Ez & _ & Hz)]; [lra |].
    f_equal. rewrite <- Hz. apply Qred_complete. lra.
  - rewrite (round64_zero (2 * y) ltac:(lra)). f_equal.
    symmetry. apply (Qred_complete (2 * y) 0). lra.
Qed.

Lemma round64_nonneg (x : Q) : (0 <= x)%Q -> nle (Fin 0) (round64 x).
Proof. intros Hx. exact (round64_mono 0 x Hx). Qed.

Lemma round64_le_const (x c : Q) (c' : Q) :
  (x <= c)%Q -> round64 c = Fin c' -> nle (round64 x) (Fin c').
Proof. intros Hx E. rewrite <- E. apply round64_mono. exact Hx. Qed.

Lemma round64_ge_const (x c : Q) (c' : Q) :
  (c <= x)%Q -> round64 c = Fin c' -> nle (Fin c') (round64 x).
Proof. intros Hx E. rewrite <- E. apply round64_mono. exact Hx. Qed.
(* ===================================================================== *)
(** * Properties of the green-time computation *)
(* ===================================================================== *)

Section CalculatorFacts.

Import TrafficCalculator.

(** Rounding keeps a value inside an interval with integer end points. *)
Lemma Math_round_between (x : Q) (lo hi : Z) :
  (inject_Z lo <= x)%Q -> (x <= inject_Z hi)%Q -> lo <= Math_round x <= hi.
Proof.
  intros Hlo Hhi. unfold Math_round. split.
  - rewrite <- (Qfloor_Z lo). apply Qfloor_resp_le. lra.
  - assert (Hlt : Qfloor (x + (1 # 2)) < hi + 1); [| lia].
    pose proof (Qfloor_le (x + (1 # 2))) as Hf.
    rewrite Zlt_Qlt, inject_Z_plus.
    change (inject_Z 1) with 1%Q. lra.
Qed.

(** An exact result between two binary64 values rounds to a finite value
    between them. *)
Lemma round64_between (x lo hi lo' hi' : Q) :
  (lo <= x)%Q -> (x <= hi)%Q -> round64 lo = Fin lo' -> round64 hi = Fin hi' ->
  exists y, round64 x = Fin y /\ (lo' <= y)%Q /\ (y <= hi')%Q.
Proof.
  intros Hlo Hhi Elo Ehi.
  pose proof (round64_mono lo x Hlo) as H1.
  pose proof (round64_mono x hi Hhi) as H2.
  rewrite Elo in H1. rewrite Ehi in H2.
  destruct (round64 x) as [| | | y]; simpl in H1, H2; try contradiction.
  exists y. repeat split; assumption.
Qed.

(** A zero that rounding produced is the zero. *)
Lemma round64_zero_inv (x y : Q) : round64 x = Fin y -> (y == 0)%Q -> y = 0%Q.
Proof.
  intros E Hy. rewrite <- (round64_canonical x y E).
  apply (Qred_complete y 0). exact Hy.
Qed.

Lemma nonNegative_range (d : number) : nle (Fin 0) (nonNegative d).
Proof.
  unfold nonNegative.
  destruct d as [| | | x]; simpl; try exact I; try lra.
  destruct (Qeq_bool x 0) eqn:E0; simpl.
  - lra.
  - destruct (Qle_bool 0 x) eqn:E1; simpl; [| lra].
    apply Qle_bool_iff in E1. exact E1.
Qed.

Lemma nadd_nonneg (a b : number) :
  nle (Fin 0) a -> nle (Fin 0) b ->
  nle (Fin 0) (nadd a b) /\ isDouble (nadd a b).
Proof.
  intros Ha Hb.
  destruct a as [| | | x]; simpl in Ha; try contradiction;
    destruct b as [| | | y]; simpl in Hb; try contradiction;
    simpl; try (split; exact I).
  split.
  - apply round64_nonneg. lra.
  - destruct (round64 (x + y)) as [| | | z] eqn:E; simpl; try exact I.
    exact (round64_idem _ _ E).
Qed.

(** The two pair demands are non-negative binary64 values or infinite. *)
Lemma pairDemands_range (dA dB dC dD : number) (phase : Phase) :
  let pq := pairDemands (nonNegative dA) (nonNegative dB)
                        (nonNegative dC) (nonNegative dD) phase in
  (nle (Fin 0) pq.1 /\ isDouble pq.1) /\ (nle (Fin 0) pq.2 /\ isDouble pq.2).
Proof.
  pose proof (nonNegative_range dA). pose proof (nonNegative_range dB).
  pose proof (nonNegative_range dC). pose proof (nonNegative_range dD).
  destruct phase; cbn [pairDemands fst snd]; split; apply nadd_nonneg; assumption.
Qed.

Lemma calculateGreenDuration_greenFor (dA dB dC dD : number) (phase : Phase) :
  let pq := pairDemands (nonNegative dA) (nonNegative dB)
                        (nonNegative dC) (nonNegative dD) phase in
  calculateGreenDuration dA dB dC dD phase = greenFor pq.1 pq.2.
Proof. destruct phase; reflexivity. Qed.

Lemma point8_value : point8 = Fin (3602879701896397 # 4503599627370496).
Proof. vm_compute. reflexivity. Qed.

(** The share of the own pair lies between 0 and 1. *)
Lemma ratio_range (p q : number) :
  nle (Fin 0) p -> finite p -> isDouble p -> nle (Fin 0) q ->
  nis0 (nadd p q) = false ->
  exists ratio, ndiv p (nadd p q) = Fin ratio /\ (0 <= ratio <= 1)%Q.
Proof.
  intros Hp Hfin Hd Hq Hnz.
  destruct p as [| | | x]; simpl in Hfin; try contradiction.
  simpl in Hp, Hd.
  destruct q as [| | | y]; simpl in Hq; try contradiction.
  - exists 0%Q. split; [reflexivity | lra].
  - cbn [nadd] in *.
    pose proof (round64_mono x (x + y) ltac:(lra)) as Hm. rewrite Hd in Hm.
    destruct (round64 (x + y)) as [| | | t] eqn:Et; simpl in Hm; try contradiction.
    + exists 0%Q. split; [reflexivity | lra].
    + simpl in Hnz.
      assert (Ht : (0 < t)%Q).
      { destruct (Qle_lt_or_eq 0 t ltac:(lra)) as [| E]; [assumption |].
        exfalso. assert (Qeq_bool t 0 = true) by (apply Qeq_eq_bool; lra).
        congruence. }
      cbn [ndiv]. unfold Qsign.
      assert (Ec : (t ?= 0)%Q = Gt) by (apply (proj1 (Qgt_alt _ _)); exact Ht).
      rewrite Ec.
      assert (H0 : (0 <= x / t)%Q) by (apply Qle_shift_div_l; lra).
      assert (H1 : (x / t <= 1)%Q) by (apply Qle_shift_div_r; lra).
      destruct (round64_between (x / t) 0 1 0 1 H0 H1 eq_refl eq_refl)
        as (r & Er & Hr0 & Hr1).
      exists r. split; [exact Er | split; assumption].
Qed.

(** From a share between 0 and 1 the green time is between MIN_GREEN and
    49 seconds. *)
Lemma green_of_ratio (ratio : Q) :
  (0 <= ratio <= 1)%Q ->
  exists seconds,
    Math_round_number
      (nadd (Fin (inject_Z TIMING.MIN_GREEN))
            (nmul (nmul (Fin (inject_Z (TIMING.MAX_GREEN - TIMING.MIN_GREEN)))
                        (Fin ratio))
                  point8)) = IInt seconds
    /\ 5 <= seconds <= 49.
Proof.
  intros [Hr0 Hr1]. rewrite point8_value.
  change (inject_Z (TIMING.MAX_GREEN - TIMING.MIN_GREEN)) with 55%Q.
  change (inject_Z TIMING.MIN_GREEN) with 5%Q.
  cbn [nmul].
  destruct (round64_between (55 * ratio) 0 55 0 55 ltac:(lra) ltac:(lra)
              eq_refl eq_refl) as (y1 & -> & Hy1a & Hy1b).
  cbn [nmul].
  assert (E44 : round64 (55 * (3602879701896397 # 4503599627370496)) = Fin 44)
    by (vm_compute; reflexivity).
  destruct (round64_between (y1 * (3602879701896397 # 4503599627370496)) 0
              (55 * (3602879701896397 # 4503599627370496)) 0 44
              ltac:(lra) ltac:(lra) eq_refl E44) as (y2 & -> & Hy2a & Hy2b).
  cbn [nadd].
  destruct (round64_between (5 + y2) 5 49 5 49 ltac:(lra) ltac:(lra)
              eq_refl eq_refl) as (y3 & -> & Hy3a & Hy3b).
  cbn [Math_round_number]. eexists. split; [reflexivity |].
  apply (Math_round_between y3 5 49); unfold inject_Z; lra.
Qed.

(** With a finite demand of the own pair the green time is between
    MIN_GREEN and 49 seconds. *)
Lemma greenFor_range (p q : number) :
  nle (Fin 0) p -> finite p -> isDouble p -> nle (Fin 0) q ->
  exists seconds, greenFor p q = IInt seconds /\ 5 <= seconds <= 49.
Proof.
  intros Hp Hfin Hd Hq. unfold greenFor. cbv zeta.
  destruct (nis0 (nadd p q)) eqn:Ez.
  - exists 5. split; [reflexivity | lia].
  - destruct (ratio_range p q Hp Hfin Hd Hq Ez) as (ratio & -> & Hr).
    apply green_of_ratio. exact Hr.
Qed.

(** With an infinite demand of the own pair there is no green time. *)
Lemma greenFor_infinite (q : number) :
  nle (Fin 0) q -> greenFor PosInf q = INaN.
Proof.
  intros Hq. destruct q as [| | | y]; simpl in Hq; try contradiction; reflexivity.
Qed.

(** The total of the two pair demands is zero only when both are. *)
Lemma total_zero_inv (p q : number) :
  nle (Fin 0) p -> isDouble p -> nle (Fin 0) q -> isDouble q ->
  nis0 (nadd p q) = true -> p = Fin 0 /\ q = Fin 0.
Proof.
  intros Hp Hdp Hq Hdq Hz.
  destruct p as [| | | x]; simpl in Hp; try contradiction;
    destruct q as [| | | y]; simpl in Hq; try contradiction;
    try discriminate Hz.
  simpl in Hdp, Hdq. cbn [nadd] in Hz.
  pose proof (round64_mono x (x + y) ltac:(lra)) as Hx. rewrite Hdp in Hx.
  pose proof (round64_mono y (x + y) ltac:(lra)) as Hy. rewrite Hdq in Hy.
  destruct (round64 (x + y)) as [| | | t]; try discriminate Hz.
  simpl in Hz, Hx, Hy. apply Qeq_bool_eq in Hz.
  split; f_equal.
  - apply (round64_zero_inv x x Hdp). lra.
  - apply (round64_zero_inv y y Hdq). lra.
Qed.

(** The green duration as the code computes it: with [own] the clamped
    demand of the phase's pair and [other] that of the other pair, both
    summed in binary64, it is MIN_GREEN when [own = 0] and [other = 0], and
    otherwise [Math.round(MIN_GREEN + (MAX_GREEN - MIN_GREEN) * (own /
    (own + other)) * 0.8)] with every operation in binary64; whenever
    [own] is finite it lies in [[MIN_GREEN, MAX_GREEN]]. *)
Lemma calculateGreenDuration_formula_and_range
    (demandA demandB demandC demandD : number) (phase : Phase) :
  let clamp (d : number) := nmax (Fin 0) (nor0 d) in
  let own :=
    match phase with
    | PHASE_AC_GREEN | PHASE_AC_YELLOW => nadd (clamp demandA) (clamp demandC)
    | _ => nadd (clamp demandB) (clamp demandD)
    end in
  let other :=
    match phase with
    | PHASE_AC_GREEN | PHASE_AC_YELLOW => nadd (clamp demandB) (clamp demandD)
    | _ => nadd (clamp demandA) (clamp demandC)
    end in
  let result := calculateGreenDuration demandA demandB demandC demandD phase in
  (own = Fin 0 /\ other = Fin 0 -> result = IInt TIMING.MIN_GREEN)
  /\ (~ (own = Fin 0 /\ other = Fin 0) ->
      result =
        Math_round_number
          (nadd (Fin (inject_Z TIMING.MIN_GREEN))
                (nmul (nmul (Fin (inject_Z (TIMING.MAX_GREEN - TIMING.MIN_GREEN)))
                            (ndiv own (nadd own other)))
                      point8)))
  /\ (finite own ->
      exists seconds,
        result = IInt seconds
        /\ TIMING.MIN_GREEN <= seconds <= TIMING.MAX_GREEN).
Proof.
  intros clamp own other result.
  pose proof (pairDemands_range demandA demandB demandC demandD phase)
    as [[Hp Hdp] [Hq Hdq]].
  assert (Er : result = greenFor own other).
  { unfold result. rewrite calculateGreenDuration_greenFor.
    destruct phase; reflexivity. }
  assert (Eo : own = (pairDemands (nonNegative demandA) (nonNegative demandB)
                        (nonNegative demandC) (nonNegative demandD) phase).1)
    by (destruct phase; reflexivity).
  assert (Eq : other = (pairDemands (nonNegative demandA) (nonNegative demandB)
                          (nonNegative demandC) (nonNegative demandD) phase).2)
    by (destruct phase; reflexivity).
  rewrite <- Eo in Hp, Hdp. rewrite <- Eq in Hq, Hdq.
  clearbody own other result. subst result.
  split; [| split].
  - intros [-> ->]. reflexivity.
  - intros Hnz. unfold greenFor. cbv zeta.
    destruct (nis0 (nadd own other)) eqn:Ez; [| reflexivity].
    exfalso. apply Hnz. apply total_zero_inv; assumption.
  - intros Hfin.
    destruct (greenFor_range own other Hp Hfin Hdp Hq) as (s & Es & Hs).
    exists s. split; [exact Es |].
    unfold TIMING.MIN_GREEN, TIMING.MAX_GREEN. lia.
Qed.

(** C3 fails on the code for demands large enough to overflow.  When the
    demand of the phase's own pair overflows (A and C both [2^1023]) the
    result is NaN, which is not in [[MIN_GREEN, MAX_GREEN]]; when only the
    total overflows (A and B both [2^1023]) the share is 0 and the result
    is 5, where the formula on the real numbers gives 27. *)
Theorem large_demands_break_formula_and_range :
  let big := Fin (inject_Z (2 ^ 1023)) in
  isDouble big
  /\ calculateGreenDuration big big (Fin 0) (Fin 0) PHASE_AC_GREEN = IInt 5
  /\ Math_round
       (inject_Z TIMING.MIN_GREEN
        + (inject_Z TIMING.MAX_GREEN - inject_Z TIMING.MIN_GREEN)
          * (inject_Z (2 ^ 1023) / (inject_Z (2 ^ 1023) + inject_Z (2 ^ 1023)))
          * (8 # 10))%Q = 27
  /\ calculateGreenDuration big (Fin 0) big (Fin 0) PHASE_AC_GREEN = INaN.
Proof. vm_compute. repeat split; reflexivity. Qed.

(** The damping factor keeps the result at or below 49 seconds; it is NaN
    exactly when the demand of the phase's own pair is infinite. *)
Lemma calculateGreenDuration_at_most_49
    (demandA demandB demandC demandD : number) (phase : Phase) :
  calculateGreenDuration demandA demandB demandC demandD phase = INaN
  \/ exists seconds,
       calculateGreenDuration demandA demandB demandC demandD phase = IInt seconds
       /\ 5 <= seconds <= 49.
Proof.
  rewrite calculateGreenDuration_greenFor.
  pose proof (pairDemands_range demandA demandB demandC demandD phase)
    as [[Hp Hdp] [Hq Hdq]].
  destruct (pairDemands _ _ _ _ phase) as [p q]. cbn [fst snd] in *.
  destruct p as [| | | x] eqn:Ep; simpl in Hp; try contradiction.
  - left. apply greenFor_infinite. exact Hq.
  - right. apply greenFor_range; simpl; auto.
Qed.

Lemma equalDemandDuration_value : equalDemandDuration = 27.
Proof. reflexivity. Qed.

(** Equal finite demands short of overflow: the share is one half. *)
Lemma greenFor_equal (d : Q) :
  round64 d = Fin d -> (0 < d)%Q -> (2 * d < pow2 1024)%Q ->
  greenFor (Fin d) (Fin d) = IInt 27.
Proof.
  intros Hd Hpos Hlt. unfold greenFor. cbv zeta. cbn [nadd].
  assert (Et : round64 (d + d) = Fin (Qred (2 * d))).
  { rewrite (round64_comp (d + d) (2 * d)) by ring.
    apply round64_double; [lra | assumption | assumption]. }
  rewrite Et. cbn [nis0].
  pose proof (Qred_correct (2 * d)) as Ec.
  assert (Ez : Qeq_bool (Qred (2 * d)) 0 = false).
  { destruct (Qeq_bool (Qred (2 * d)) 0) eqn:E; [| reflexivity].
    apply Qeq_bool_eq in E. lra. }
  rewrite Ez. cbn [ndiv]. unfold Qsign.
  assert (Eg : (Qred (2 * d) ?= 0)%Q = Gt) by (apply (proj1 (Qgt_alt _ _)); lra).
  rewrite Eg.
  rewrite (round64_comp (d / Qred (2 * d)) (1 # 2)).
  - vm_compute. reflexivity.
  - rewrite Ec. field. lra.
Qed.

(** C4, as the code has it: when the two pair demands are equal, the green
    duration is MIN_GREEN, that is 5, if the common demand is zero, and
    [round(MIN_GREEN + (MAX_GREEN - MIN_GREEN) * 0.5 * 0.8)], that is 27,
    if it is positive and twice it is still finite (below [2^1024]). *)
Theorem equal_pair_demands_duration
    (demandA demandB demandC demandD : number) (phase : Phase) (d : Q) :
  let clamp (x : number) := nmax (Fin 0) (nor0 x) in
  let own :=
    match phase with
    | PHASE_AC_GREEN | PHASE_AC_YELLOW => nadd (clamp demandA) (clamp demandC)
    | _ => nadd (clamp demandB) (clamp demandD)
    end in
  let other :=
    match phase with
    | PHASE_AC_GREEN | PHASE_AC_YELLOW => nadd (clamp demandB) (clamp demandD)
    | _ => nadd (clamp demandA) (clamp demandC)
    end in
  own = Fin d -> other = Fin d ->
  ((d == 0)%Q ->
   calculateGreenDuration demandA demandB demandC demandD phase
   = IInt TIMING.MIN_GREEN)
  /\ ((0 < d)%Q -> (2 * d < pow2 1024)%Q ->
      calculateGreenDuration demandA demandB demandC demandD phase
      = IInt equalDemandDuration)
  /\ equalDemandDuration = 27
  /\ TIMING.MIN_GREEN = 5.
Proof.
  intros clamp own other Eo Eq.
  pose proof (pairDemands_range demandA demandB demandC demandD phase)
    as [[Hp Hdp] _].
  assert (Er : calculateGreenDuration demandA demandB demandC demandD phase
               = greenFor own other).
  { rewrite calculateGreenDuration_greenFor. destruct phase; reflexivity. }
  assert (Eo' : own = (pairDemands (nonNegative demandA) (nonNegative demandB)
                         (nonNegative demandC) (nonNegative demandD) phase).1)
    by (destruct phase; reflexivity).
  rewrite <- Eo', Eo in Hdp. simpl in Hdp.
  rewrite Er, Eo, Eq.
  split; [| split; [| split; reflexivity]].
  - intros Hz. rewrite (round64_zero_inv d d Hdp Hz). reflexivity.
  - intros Hpos Hlt. rewrite equalDemandDuration_value.
    apply greenFor_equal; assumption.
Qed.

Lemma equal_pair_demands_duration_witness :
  calculateGreenDuration (Fin 10) (Fin 4) (Fin 2) (Fin 8) PHASE_BD_GREEN
  = IInt 27.
Proof.
  apply (equal_pair_demands_duration
           (Fin 10) (Fin 4) (Fin 2) (Fin 8) PHASE_BD_GREEN 12).
  - vm_compute. reflexivity.
  - vm_compute. reflexivity.
  - reflexivity.
  - vm_compute. reflexivity.
Defined.

(** C4 as stated fails at demand zero: both pair demands are equal (to 0),
    and the result is 5, not
    [round(MIN_GREEN + (MAX_GREEN - MIN_GREEN) * 0.5 * 0.8) = 27]. *)
Lemma zero_equal_demands_give_MIN_GREEN :
  nadd (nonNegative (Fin 0)) (nonNegative (Fin 0)) = Fin 0
  /\ calculateGreenDuration (Fin 0) (Fin 0) (Fin 0) (Fin 0) PHASE_AC_GREEN
     = IInt 5
  /\ calculateGreenDuration (Fin 0) (Fin 0) (Fin 0) (Fin 0) PHASE_AC_GREEN
     <> IInt equalDemandDuration.
Proof. repeat split; discriminate. Qed.

(** The worked example of the specification: A:{30,5}, C:{25,4}, B:{2,0},
    D:{3,0} gives 46 seconds for the next A-C green. *)
Example worked_example_46 :
  let demands :=
    calculateAllDemands
      (mkRouteMap (mkSample (IInt 30) (IInt 5)) (mkSample (IInt 2) (IInt 0))
                  (mkSample (IInt 25) (IInt 4)) (mkSample (IInt 3) (IInt 0))) in
  calculateGreenDuration (atA demands) (atB demands) (atC demands) (atD demands)
    PHASE_AC_GREEN = IInt 46.
Proof. vm_compute. reflexivity. Qed.

(** Only the phase's own pair has demand: the share is 1. *)
Lemma greenFor_own_only (x : Q) :
  round64 x = Fin x -> (0 < x)%Q -> greenFor (Fin x) (Fin 0) = IInt 49.
Proof.
  intros Hd Hpos. unfold greenFor. cbv zeta. cbn [nadd].
  rewrite (round64_comp (x + 0) x) by ring. rewrite Hd. cbn [nis0].
  assert (Ez : Qeq_bool x 0 = false).
  { destruct (Qeq_bool x 0) eqn:E; [| reflexivity].
    apply Qeq_bool_eq in E. lra. }
  rewrite Ez. cbn [ndiv]. unfold Qsign.
  assert (Eg : (x ?= 0)%Q = Gt) by (apply (proj1 (Qgt_alt _ _)); lra).
  rewrite Eg. rewrite (round64_comp (x / x) 1).
  - vm_compute. reflexivity.
  - field. lra.
Qed.

(** Only the other pair has demand: the share is 0. *)
Lemma greenFor_other_only (q : number) :
  nle (Fin 0) q -> isDouble q -> q <> Fin 0 -> greenFor (Fin 0) q = IInt 5.
Proof.
  intros Hq Hd Hne.
  destruct q as [| | | y]; simpl in Hq; try contradiction.
  - vm_compute. reflexivity.
  - simpl in Hd.
    assert (Hpos : (0 < y)%Q).
    { destruct (Qle_lt_or_eq 0 y Hq) as [| E]; [assumption |].
      exfalso. apply Hne. f_equal. apply (round64_zero_inv y y Hd). lra. }
    unfold greenFor. cbv zeta. cbn [nadd].
    rewrite (round64_comp (0 + y) y) by ring. rewrite Hd. cbn [nis0].
    assert (Ez : Qeq_bool y 0 = false).
    { destruct (Qeq_bool y 0) eqn:E; [| reflexivity].
      apply Qeq_bool_eq in E. lra. }
    rewrite Ez. cbn [ndiv]. unfold Qsign.
    assert (Eg : (y ?= 0)%Q = Gt) by (apply (proj1 (Qgt_alt _ _)); lra).
    rewrite Eg. rewrite (round64_comp (0 / y) 0).
    + vm_compute. reflexivity.
    + field. lra.
Qed.

(** A demand computed from non-negative counts is a non-negative binary64
    value or plus infinity. *)
Lemma calculateDemand_range (v h : integral) :
  nonNegative_i v -> nonNegative_i h ->
  let demand := calculateDemand (number_of_integral v) (number_of_integral h) in
  nle (Fin 0) demand /\ isDouble demand.
Proof.
  intros Hv Hh. unfold calculateDemand. cbv zeta.
  apply nadd_nonneg.
  - destruct v as [| | | z]; simpl in Hv; try contradiction.
    + vm_compute. exact I.
    + cbn [number_of_integral nmul]. apply round64_nonneg.
      unfold TRAFFIC_WEIGHTS.NORMAL_VEHICLE.
      assert (0 <= inject_Z z)%Q by (rewrite Zle_Qle in Hv; exact Hv). lra.
  - destruct h as [| | | z]; simpl in Hh; try contradiction.
    + vm_compute. exact I.
    + cbn [number_of_integral nmul]. apply round64_nonneg.
      unfold TRAFFIC_WEIGHTS.HEAVY_VEHICLE.
      assert (0 <= inject_Z z)%Q by (rewrite Zle_Qle in Hh; exact Hh). lra.
Qed.

(** Clamping leaves a non-negative demand alone. *)
Lemma nonNegative_id (d : number) : nle (Fin 0) d -> isDouble d -> nonNegative d = d.
Proof.
  intros Hd Hdd. destruct d as [| | | x]; simpl in Hd; try contradiction;
    [reflexivity |].
  unfold nonNegative. cbn [nor0].
  destruct (Qeq_bool x 0) eqn:E0.
  - apply Qeq_bool_eq in E0. simpl in Hdd.
    rewrite (round64_zero_inv x x Hdd E0). reflexivity.
  - cbn [nmax]. assert (E1 : Qle_bool 0 x = true) by (apply Qle_bool_iff; exact Hd).
    rewrite E1. reflexivity.
Qed.

(** The model's arithmetic against the Standard Library's specification of
    binary64 ([SpecFloat]): sums, products and quotients agree on values
    that include subnormals, ties, the largest finite values, infinities
    and NaN. *)
Example arithmetic_agrees_with_SpecFloat :
  forallb
    (fun a =>
       forallb
         (fun b =>
            agrees (nadd (number_of_SF a) (number_of_SF b))
                   (number_of_SF (SFadd 53 1024 a b))
            && agrees (nmul (number_of_SF a) (number_of_SF b))
                      (number_of_SF (SFmul 53 1024 a b))
            && agrees (ndiv (number_of_SF a) (number_of_SF b))
                      (number_of_SF (SFdiv 53 1024 a b)))
         binary64_samples)
    binary64_samples = true.
Proof. vm_compute. reflexivity. Qed.

End CalculatorFacts.
(* ===================================================================== *)
(** * Properties of the phase controller *)
(* ===================================================================== *)

Lemma rm_get_set_eq {V} (m : RouteMap V) (r : Route) (v : V) :
  rm_get (rm_set m r v) r = v.
Proof. destruct r; reflexivity. Qed.

Lemma rm_get_set_ne {V} (m : RouteMap V) (r r' : Route) (v : V) :
  r <> r' -> rm_get (rm_set m r v) r' = rm_get m r'.
Proof. destruct r, r'; intros Hne; try reflexivity; congruence. Qed.

Lemma route_of_name_name (r : Route) : route_of_name (route_name r) = Some r.
Proof. destruct r; reflexivity. Qed.

Lemma route_of_name_Some (name : string) (r : Route) :
  route_of_name name = Some r -> name = route_name r.
Proof.
  unfold route_of_name.
  destruct (String.eqb_spec name "A") as [-> |]; [intros [= <-]; reflexivity |].
  destruct (String.eqb_spec name "B") as [-> |]; [intros [= <-]; reflexivity |].
  destruct (String.eqb_spec name "C") as [-> |]; [intros [= <-]; reflexivity |].
  destruct (String.eqb_spec name "D") as [-> |]; [intros [= <-]; reflexivity |].
  discriminate.
Qed.

(** ** Elapsed time *)

(** Rounded elapsed seconds, as an integer division of milliseconds. *)
Lemma elapsedSeconds_div (now start : Z) :
  elapsedSeconds now start = (now - start + 500) / 1000.
Proof.
  unfold elapsedSeconds, Math_round.
  rewrite (Zdiv_Qdiv (now - start + 500) 1000).
  apply Qfloor_comp. rewrite inject_Z_plus.
  change (inject_Z 500) with 500%Q. change (inject_Z 1000) with 1000%Q.
  field.
Qed.


(** [updatePhase] compares the elapsed time rounded to whole seconds, so
    it is a no-op (returns false, controller unchanged) whenever
    [now - phaseStartTime] is more than half a second short of the
    committed duration. *)
Lemma updatePhase_noop_before_rounded_duration
    (c : Controller) (now now' duration : Z) :
  currentPhaseDuration c = IInt duration ->
  now - phaseStartTime c + 500 < 1000 * duration ->
  updatePhase now now' c = (false, c).
Proof.
  intros Hd Hlt. unfold updatePhase. rewrite elapsedSeconds_div, Hd. cbn [ige].
  destruct (Z.leb_spec duration ((now - phaseStartTime c + 500) / 1000))
    as [Hge |]; [| reflexivity].
  exfalso.
  assert ((now - phaseStartTime c + 500) / 1000 < duration); [| lia].
  apply Z.div_lt_upper_bound; lia.
Qed.

(** From half a second before the duration boundary on, [updatePhase]
    performs the transition. *)
Lemma updatePhase_transitions_from_rounded_duration
    (c : Controller) (now now' duration : Z) :
  currentPhaseDuration c = IInt duration ->
  1000 * duration <= now - phaseStartTime c + 500 ->
  updatePhase now now' c = (true, executePhaseTransition now' c).
Proof.
  intros Hd Hle. unfold updatePhase. rewrite elapsedSeconds_div, Hd. cbn [ige].
  destruct (Z.leb_spec duration ((now - phaseStartTime c + 500) / 1000))
    as [| Hlt]; [reflexivity |].
  exfalso.
  assert (duration <= (now - phaseStartTime c + 500) / 1000); [| lia].
  apply Z.div_le_lower_bound; lia.
Qed.

(** C6 fails on the code: 4500 ms into the constructor's 5-second phase
    the elapsed time is strictly less than the committed duration, yet
    [updatePhase] returns true and moves to PHASE_AC_YELLOW, half a second
    before the minimum green time has elapsed. *)
Theorem updatePhase_half_second_early :
  currentPhaseDuration (constructor 0) = IInt TIMING.MIN_GREEN
  /\ 4500 - phaseStartTime (constructor 0) < 1000 * TIMING.MIN_GREEN
  /\ (updatePhase 4500 4500 (constructor 0)).1 = true
  /\ currentPhase (updatePhase 4500 4500 (constructor 0)).2 = PHASE_AC_YELLOW
  /\ updatePhase 4500 4500 (constructor 0) <> (false, constructor 0).
Proof. repeat split; try reflexivity; discriminate. Qed.

(** ** The phase cycle *)

Lemma executePhaseTransition_phase (now : Z) (c : Controller) :
  flagConsistent c ->
  currentPhase (executePhaseTransition now c) = nextInCycle (currentPhase c)
  /\ flagConsistent (executePhaseTransition now c).
Proof.
  unfold flagConsistent, executePhaseTransition.
  destruct c as [sig td ph st dur ytr iny lb]; simpl.
  intros ->. destruct ph; simpl; split; reflexivity.
Qed.







(** ** Signal colours *)

Lemma phaseSignals_exclusive (p : Phase) : exclusivePairs (phaseSignals p).
Proof.
  destruct p; [left | left | right | right];
    (split; split; simpl; solve [reflexivity | discriminate]).
Qed.

Lemma all_red_not_exclusive : ~ exclusivePairs all_red.
Proof. intros [[[Hn _] _] | [[Hn _] _]]; apply Hn; reflexivity. Qed.

Lemma executePhaseTransition_signals (now : Z) (c : Controller) :
  signalState (executePhaseTransition now c)
  = phaseSignals (currentPhase (executePhaseTransition now c)).
Proof.
  unfold executePhaseTransition.
  destruct (isInYellow c); case_decide; reflexivity.
Qed.

(** [reset] applies the signals of its phase. *)
Lemma reset_signals (now : Z) (c : Controller) :
  currentPhase (reset now c) = PHASE_AC_GREEN
  /\ signalState (reset now c) = phaseSignals PHASE_AC_GREEN
  /\ exclusivePairs (signalState (reset now c)).
Proof.
  split; [reflexivity | split; [reflexivity |]].
  apply (phaseSignals_exclusive PHASE_AC_GREEN).
Qed.

(** C9: [hasStateChanged] answers true exactly when the serialised signal
    colours differ from the stored marker; an answer of true stores the
    current serialisation as the marker and leaves the signals alone, so
    that an immediately following call answers false. *)
Theorem hasStateChanged_consume_once (c : Controller) :
  ((hasStateChanged c).1 = true
     <-> JSON_stringify_signals (signalState c) <> lastBroadcastState c)
  /\ ((hasStateChanged c).1 = true ->
        lastBroadcastState (hasStateChanged c).2
          = JSON_stringify_signals (signalState c))
  /\ signalState (hasStateChanged c).2 = signalState c
  /\ ((hasStateChanged c).1 = true ->
        (hasStateChanged (hasStateChanged c).2).1 = false).
Proof.
  unfold hasStateChanged.
  destruct (String.eqb_spec (JSON_stringify_signals (signalState c))
                            (lastBroadcastState c)) as [E | NE]; simpl.
  - repeat split; try discriminate; try reflexivity. intros HH; congruence.
  - repeat split; try done.
    rewrite String.eqb_refl. reflexivity.
Qed.

Lemma hasStateChanged_consume_once_witness :
  (hasStateChanged afterFirstTransition).1 = true
  /\ (hasStateChanged (hasStateChanged afterFirstTransition).2).1 = false.
Proof.
  split; [reflexivity |].
  apply (hasStateChanged_consume_once afterFirstTransition). reflexivity.
Defined.

(** A call that answers false changes nothing. *)
Lemma hasStateChanged_false_noop (c : Controller) :
  (hasStateChanged c).1 = false -> (hasStateChanged c).2 = c.
Proof.
  unfold hasStateChanged.
  destruct (String.eqb (JSON_stringify_signals (signalState c))
                       (lastBroadcastState c)); simpl; [reflexivity | discriminate].
Qed.

Section ControllerFacts.

Context `{JSBuiltins}.

(** Numbers and strings always convert to a string. *)
Lemma ToString_number (n : number) : ToString (JNum n) = Ok (Number_toString n).
Proof. reflexivity. Qed.

Lemma ToString_string (text : string) : ToString (JStr text) = Ok text.
Proof. reflexivity. Qed.

(** An object with an own property [toString] does not. *)
Lemma ToString_shadowed (fields : list (string * json)) (v : json) :
  assoc "toString" fields = Some v ->
  ToString (JObj fields)
  = Throw "TypeError: Cannot convert object to primitive value".
Proof. intros E. cbn [ToString]. rewrite E. reflexivity. Qed.

(** [sanitizeCount] in terms of the text of its argument. *)
Lemma sanitizeCount_text (v : json) (text : string) :
  ToString v = Ok text ->
  sanitizeCount v = Ok (imax (IInt 0) (ior0 (parseInt_string text))).
Proof. intros E. unfold sanitizeCount, parseInt. rewrite E. reflexivity. Qed.

Lemma sanitizeCount_throws (v : json) (e : string) :
  ToString v = Throw e -> sanitizeCount v = Throw e.
Proof. intros E. unfold sanitizeCount, parseInt. rewrite E. reflexivity. Qed.

Lemma sanitized_nonNegative (n : integral) : nonNegative_i (imax (IInt 0) (ior0 n)).
Proof. destruct n as [| | | z]; simpl; try exact I; lia. Qed.

Lemma sanitizeCount_nonNegative (v : json) (n : integral) :
  sanitizeCount v = Ok n -> nonNegative_i n.
Proof.
  unfold sanitizeCount, parseInt. destruct (ToString v); [| discriminate].
  intros [= <-]. apply sanitized_nonNegative.
Qed.

Lemma invalidRoute_throws (route : json) (c : Controller) :
  invalidRoute route <> Ok c.
Proof. unfold invalidRoute. destruct (ToString route); discriminate. Qed.

Lemma updateTrafficData_valid_route
    (r : Route) (v h : json) (c : Controller) (v' h' : integral) :
  sanitizeCount v = Ok v' -> sanitizeCount h = Ok h' ->
  updateTrafficData (JStr (route_name r)) v h c =
    Ok {| signalState := signalState c;
          trafficData := rm_set (trafficData c) r (mkSample v' h');
          currentPhase := currentPhase c;
          phaseStartTime := phaseStartTime c;
          currentPhaseDuration := currentPhaseDuration c;
          yellowTimeRemaining := yellowTimeRemaining c;
          isInYellow := isInYellow c;
          lastBroadcastState := lastBroadcastState c |}.
Proof.
  intros Ev Eh. unfold updateTrafficData.
  rewrite route_of_name_name, Ev, Eh. reflexivity.
Qed.

(** What a successful [updateTrafficData] was called with and what it
    stored. *)
Lemma updateTrafficData_inv route v h c c' :
  updateTrafficData route v h c = Ok c' ->
  exists r v' h',
    route = JStr (route_name r)
    /\ sanitizeCount v = Ok v' /\ sanitizeCount h = Ok h'
    /\ c' = {| signalState := signalState c;
               trafficData := rm_set (trafficData c) r (mkSample v' h');
               currentPhase := currentPhase c;
               phaseStartTime := phaseStartTime c;
               currentPhaseDuration := currentPhaseDuration c;
               yellowTimeRemaining := yellowTimeRemaining c;
               isInYellow := isInYellow c;
               lastBroadcastState := lastBroadcastState c |}.
Proof.
  unfold updateTrafficData.
  destruct route as [| | | name | |];
    try (intros E; exfalso; exact (invalidRoute_throws _ _ E)).
  destruct (route_of_name name) as [r |] eqn:Er;
    [| intros E; exfalso; exact (invalidRoute_throws _ _ E)].
  destruct (sanitizeCount v) as [v' | e] eqn:Ev; [| discriminate].
  destruct (sanitizeCount h) as [h' | e] eqn:Eh; [| discriminate].
  cbn. intros [= <-]. exists r, v', h'. repeat split.
  f_equal. apply route_of_name_Some. exact Er.
Qed.

(** Whatever the arguments, a successful [updateTrafficData] touches only
    the traffic samples. *)
Lemma updateTrafficData_frame route v h c c' :
  updateTrafficData route v h c = Ok c' ->
  signalState c' = signalState c /\ currentPhase c' = currentPhase c
  /\ phaseStartTime c' = phaseStartTime c
  /\ currentPhaseDuration c' = currentPhaseDuration c
  /\ isInYellow c' = isInYellow c
  /\ lastBroadcastState c' = lastBroadcastState c.
Proof.
  intros E. destruct (updateTrafficData_inv _ _ _ _ _ E)
    as (r & v' & h' & _ & _ & _ & ->).
  repeat split.
Qed.

(** Along every run the signals are either still the constructor's four
    REDs, with the phase still PHASE_AC_GREEN, or those of the current
    phase. *)
Lemma reachable_signals (c : Controller) :
  Reachable c ->
  (signalState c = all_red /\ currentPhase c = PHASE_AC_GREEN)
  \/ signalState c = phaseSignals (currentPhase c).
Proof.
  induction 1 as [now | c c' Hreach IH Hstep].
  - left. split; reflexivity.
  - destruct Hstep as [now now' c | now c | route v h c c' Hupd | now c].
    + unfold updatePhase. destruct (ige _ _); simpl; [| exact IH].
      right. apply executePhaseTransition_signals.
    + right. apply executePhaseTransition_signals.
    + destruct (updateTrafficData_frame _ _ _ _ _ Hupd) as (-> & -> & _).
      exact IH.
    + right. reflexivity.
Qed.

(** Every reachable state either still shows the constructor's all-red
    signals or has exactly one non-red pair. *)
Lemma reachable_exclusive_or_initial (c : Controller) :
  Reachable c -> signalState c = all_red \/ exclusivePairs (signalState c).
Proof.
  intros Hr. destruct (reachable_signals c Hr) as [[-> _] | ->].
  - left. reflexivity.
  - right. apply phaseSignals_exclusive.
Qed.

(** In reachable states the yellow flag agrees with the phase. *)
Lemma reachable_flagConsistent (c : Controller) :
  Reachable c -> flagConsistent c.
Proof.
  induction 1 as [now | c c' Hreach IH Hstep].
  - reflexivity.
  - destruct Hstep as [now now' c | now c | route v h c c' Hupd | now c].
    + unfold updatePhase. destruct (ige _ _); simpl; [| exact IH].
      apply executePhaseTransition_phase. exact IH.
    + apply executePhaseTransition_phase. exact IH.
    + destruct (updateTrafficData_frame _ _ _ _ _ Hupd) as (_ & Hp & _ & _ & Hy & _).
      unfold flagConsistent. rewrite Hy, Hp. exact IH.
    + reflexivity.
Qed.

(** C2 fails in the state the constructor produces: it is reachable, its
    phase is PHASE_AC_GREEN, yet all four signals are RED, so neither pair
    is non-red.  ([reset], by contrast, applies the phase's signals: see
    [reset_signals].) *)
Theorem constructor_state_has_no_active_pair (now : Z) :
  Reachable (constructor now)
  /\ currentPhase (constructor now) = PHASE_AC_GREEN
  /\ signalState (constructor now) = all_red
  /\ ~ exclusivePairs (signalState (constructor now)).
Proof.
  split; [constructor | split; [reflexivity | split; [reflexivity |]]].
  apply all_red_not_exclusive.
Qed.

(** The demands after one route's sample was replaced. *)
Lemma calculateAllDemands_set (td : RouteMap Sample) (r : Route) (v h : integral) :
  let demands := TrafficCalculator.calculateAllDemands (rm_set td r (mkSample v h)) in
  rm_get demands r
  = TrafficCalculator.calculateDemand (number_of_integral v) (number_of_integral h)
  /\ forall r', r' <> r ->
       rm_get demands r' = rm_get (TrafficCalculator.calculateAllDemands td) r'.
Proof.
  split.
  - destruct r; reflexivity.
  - intros r' Hne. destruct r, r'; try reflexivity; congruence.
Qed.

(** The green time of the phase after next, when only route [r] has
    traffic. *)
Lemma green_with_single_demand
    (demands : RouteMap number) (r : Route) (phase : Phase) (x : Q) :
  rm_get demands r = Fin x -> round64 x = Fin x -> (0 < x)%Q ->
  (forall r', r' <> r -> rm_get demands r' = Fin 0) ->
  TrafficCalculator.calculateGreenDuration
    (atA demands) (atB demands) (atC demands) (atD demands) phase
  = IInt (if servedBy phase r then 49 else TIMING.MIN_GREEN).
Proof.
  intros Er Hd Hpos Hothers.
  rewrite calculateGreenDuration_greenFor.
  assert (Ex : TrafficCalculator.nonNegative (Fin x) = Fin x).
  { apply nonNegative_id; simpl; [lra | exact Hd]. }
  assert (E0 : TrafficCalculator.nonNegative (Fin 0) = Fin 0) by reflexivity.
  assert (Ex0 : nadd (Fin x) (Fin 0) = Fin x).
  { cbn [nadd]. rewrite (round64_comp (x + 0) x) by ring. exact Hd. }
  assert (E0x : nadd (Fin 0) (Fin x) = Fin x).
  { cbn [nadd]. rewrite (round64_comp (0 + x) x) by ring. exact Hd. }
  assert (E00 : nadd (Fin 0) (Fin 0) = Fin 0) by reflexivity.
  assert (Hown : greenFor (Fin x) (Fin 0) = IInt 49)
    by (apply greenFor_own_only; assumption).
  assert (Hother : greenFor (Fin 0) (Fin x) = IInt TIMING.MIN_GREEN).
  { apply greenFor_other_only; simpl; [lra | exact Hd |].
    intros [= E]. rewrite E in Hpos. discriminate Hpos. }
  destruct demands as [dA dB dC dD].
  pose proof (Hothers ROUTES.A) as HA. pose proof (Hothers ROUTES.B) as HB.
  pose proof (Hothers ROUTES.C) as HC. pose proof (Hothers ROUTES.D) as HD.
  destruct r; cbn [rm_get atA atB atC atD] in *;
    rewrite Er;
    try rewrite (HA ltac:(discriminate)); try rewrite (HB ltac:(discriminate));
    try rewrite (HC ltac:(discriminate)); try rewrite (HD ltac:(discriminate));
    destruct phase; cbn [pairDemands fst snd servedBy];
    rewrite ?Ex, ?E0, ?Ex0, ?E0x, ?E00; assumption.
Qed.

(** C8: for every valid route and all counts that convert to text (as
    every number and string does), [updateTrafficData] during a green
    phase succeeds and leaves the phase, its committed duration, its start
    time and all signal colours unchanged; exactly that route's sample is
    overwritten, with [Math.max(0, parseInt(count) || 0)].  The
    green-to-yellow transition that follows ignores the new sample (same
    phase, same fixed duration, same signals as without the update), and
    the yellow-to-green transition after it computes its duration from
    demands in which that route's demand is the one of the new sample: if
    no other route has demand and the new demand is positive and finite,
    that green lasts 49 seconds when it serves the route and MIN_GREEN
    when it does not. *)
Theorem updateTrafficData_mid_green
    (r : Route) (v h : json) (vtext htext : string) (c : Controller)
    (t1 t2 : Z) :
  greenInProgress c ->
  ToString v = Ok vtext -> ToString h = Ok htext ->
  let v' := imax (IInt 0) (ior0 (parseInt_string vtext)) in
  let h' := imax (IInt 0) (ior0 (parseInt_string htext)) in
  exists c',
    updateTrafficData (JStr (route_name r)) v h c = Ok c'
    /\ currentPhase c' = currentPhase c
    /\ currentPhaseDuration c' = currentPhaseDuration c
    /\ phaseStartTime c' = phaseStartTime c
    /\ signalState c' = signalState c
    /\ rm_get (trafficData c') r = mkSample v' h'
    /\ (forall r', r' <> r ->
          rm_get (trafficData c') r' = rm_get (trafficData c) r')
    /\ (let y := executePhaseTransition t1 c' in
        let y0 := executePhaseTransition t1 c in
        currentPhase y = currentPhase y0
        /\ currentPhaseDuration y = IInt TIMING.YELLOW_DURATION
        /\ currentPhaseDuration y = currentPhaseDuration y0
        /\ signalState y = signalState y0
        /\ isYellowPhase (currentPhase y) = true
        /\ let g := executePhaseTransition t2 y in
           let demand :=
             nadd (nmul (number_of_integral v') (Fin 1))
                  (nmul (number_of_integral h') (Fin (5 # 2))) in
           isGreenPhase (currentPhase g) = true
           /\ currentPhase g = nextInCycle (nextInCycle (currentPhase c))
           /\ (exists demands,
                 rm_get demands r = demand
                 /\ (forall r', r' <> r ->
                       rm_get demands r' = rm_get (calculateDemands c) r')
                 /\ currentPhaseDuration g =
                      TrafficCalculator.calculateGreenDuration
                        (atA demands) (atB demands) (atC demands) (atD demands)
                        (currentPhase g))
           /\ ((forall r', r' <> r -> rm_get (calculateDemands c) r' = Fin 0) ->
               forall x, demand = Fin x -> (0 < x)%Q ->
               currentPhaseDuration g
               = IInt (if servedBy (currentPhase g) r then 49
                       else TIMING.MIN_GREEN))).
Proof.
  intros [Hgreen Hflag] Ev Eh v' h'.
  rewrite (updateTrafficData_valid_route r v h c v' h'
             (sanitizeCount_text v vtext Ev) (sanitizeCount_text h htext Eh)).
  eexists. split; [reflexivity |].
  pose proof (calculateAllDemands_set (trafficData c) r v' h') as [Hdr Hdo].
  assert (Hrange : nle (Fin 0)
                     (TrafficCalculator.calculateDemand
                        (number_of_integral v') (number_of_integral h'))
                   /\ isDouble
                        (TrafficCalculator.calculateDemand
                           (number_of_integral v') (number_of_integral h'))).
  { apply calculateDemand_range; apply sanitized_nonNegative. }
  set (demands' := TrafficCalculator.calculateAllDemands
                     (rm_set (trafficData c) r (mkSample v' h'))) in *.
  assert (Hg : forall ph,
             isGreenPhase ph = true ->
             let c0 := {| signalState := signalState c;
                          trafficData := rm_set (trafficData c) r (mkSample v' h');
                          currentPhase := ph;
                          phaseStartTime := phaseStartTime c;
                          currentPhaseDuration := currentPhaseDuration c;
                          yellowTimeRemaining := yellowTimeRemaining c;
                          isInYellow := false;
                          lastBroadcastState := lastBroadcastState c |} in
             let g := executePhaseTransition t2 (executePhaseTransition t1 c0) in
             currentPhase g = nextInCycle (nextInCycle ph)
             /\ isGreenPhase (currentPhase g) = true
             /\ currentPhaseDuration g =
                  TrafficCalculator.calculateGreenDuration
                    (atA demands') (atB demands') (atC demands') (atD demands')
                    (currentPhase g)).
  { intros ph Hph. destruct ph; try discriminate; repeat split. }
  destruct c as [sig td ph st dur ytr iny lb].
  cbn [currentPhase isInYellow trafficData signalState phaseStartTime
       currentPhaseDuration yellowTimeRemaining lastBroadcastState] in *.
  subst iny. specialize (Hg ph Hgreen). cbv zeta in Hg.
  destruct Hg as (Hg1 & Hg2 & Hg3).
  split; [reflexivity |]. split; [reflexivity |]. split; [reflexivity |].
  split; [reflexivity |]. split; [apply rm_get_set_eq |].
  split; [intros r' Hne; apply rm_get_set_ne; congruence |].
  cbv zeta.
  split; [destruct ph; try discriminate; reflexivity |].
  split; [destruct ph; try discriminate; reflexivity |].
  split; [destruct ph; try discriminate; reflexivity |].
  split; [destruct ph; try discriminate; reflexivity |].
  split; [destruct ph; try discriminate; reflexivity |].
  split; [exact Hg2 |]. split; [exact Hg1 |]. split.
  - exists demands'. split; [exact Hdr |]. split; [exact Hdo | exact Hg3].
  - intros Hquiet x Ex Hpos. rewrite Hg3.
    apply (green_with_single_demand demands' r _ x).
    + rewrite Hdr. exact Ex.
    + destruct Hrange as [_ Hdd].
      change (TrafficCalculator.calculateDemand (number_of_integral v')
                (number_of_integral h'))
        with (nadd (nmul (number_of_integral v') (Fin 1))
                   (nmul (number_of_integral h') (Fin (5 # 2)))) in Hdd.
      rewrite Ex in Hdd. exact Hdd.
    + exact Hpos.
    + intros r' Hne. rewrite (Hdo r' Hne). apply Hquiet. exact Hne.
Qed.

(** A count that does not convert to text makes [updateTrafficData] throw
    with nothing stored. *)
Lemma updateTrafficData_unconvertible
    (r : Route) (v h : json) (e : string) (c : Controller) :
  ToString v = Throw e ->
  updateTrafficData (JStr (route_name r)) v h c = Throw e.
Proof.
  intros E. unfold updateTrafficData.
  rewrite route_of_name_name, (sanitizeCount_throws v e E). reflexivity.
Qed.

(** A route outside the closed set makes [updateTrafficData] throw. *)
Lemma updateTrafficData_invalid_route (name : string) (v h : json) (c : Controller) :
  route_of_name name = None ->
  updateTrafficData (JStr name) v h c = Throw ("Invalid route: " +:+ name).
Proof. intros Hname. unfold updateTrafficData. rewrite Hname. reflexivity. Qed.

End ControllerFacts.

Lemma updateTrafficData_mid_green_witness :
  greenInProgress (constructor 0)
  /\ exists c',
       @updateTrafficData sampleBuiltins (JStr "B") (JNum (Fin 40)) (JNum (Fin 6))
         (constructor 0) = Ok c'
       /\ currentPhaseDuration c' = IInt 5
       /\ rm_get (trafficData c') ROUTES.B = mkSample (IInt 40) (IInt 6).
Proof.
  split; [split; reflexivity |].
  destruct (@updateTrafficData_mid_green sampleBuiltins ROUTES.B
              (JNum (Fin 40)) (JNum (Fin 6)) "40" "6" (constructor 0) 5000 8000)
    as (c' & Hrun & _ & Hdur & _ & _ & Hsample & _).
  - split; reflexivity.
  - reflexivity.
  - reflexivity.
  - exists c'. split; [exact Hrun |]. split; [exact Hdur | exact Hsample].
Defined.

(** The update of the example shows up in the green time of the B-D pair
    two transitions later: 49 seconds instead of MIN_GREEN. *)
Example update_consulted_at_next_green :
  match @updateTrafficData sampleBuiltins (JStr "B") (JNum (Fin 40)) (JNum (Fin 6))
          (constructor 0) with
  | Ok c' =>
      let y := executePhaseTransition 5000 c' in
      let g := executePhaseTransition 8000 y in
      (currentPhaseDuration c', currentPhase y, currentPhaseDuration y,
       currentPhase g, currentPhaseDuration g)
      = (IInt 5, PHASE_AC_YELLOW, IInt 3, PHASE_BD_GREEN, IInt 49)
  | Throw _ => False
  end.
Proof. vm_compute. reflexivity. Qed.

(* ===================================================================== *)
(** * Properties of the client registry and the broadcast loop *)
(* ===================================================================== *)


(** With the null default and nothing excluded, [broadcastMessage] selects
    every active client, subscribed or not. *)
Lemma broadcastTargets_null_all_active (m : ClientManager.t) (i : nat) :
  i ∈ ClientManager.broadcastTargets None [] m
  <-> exists client,
        client ∈ ClientManager.values m
        /\ ClientConnection.id client = i
        /\ ClientConnection.isActive client = true.
Proof.
  unfold ClientManager.broadcastTargets, ClientManager.getActiveClients.
  rewrite list_elem_of_In, filter_In, in_map_iff. split.
  - intros [(client & Hid & Hin) _]. apply filter_In in Hin.
    destruct Hin as [Hin Hact].
    exists client. rewrite list_elem_of_In. auto.
  - intros (client & Hin & Hid & Hact). split.
    + exists client. split; [exact Hid |]. apply filter_In.
      split; [apply list_elem_of_In; exact Hin | exact Hact].
    + rewrite bool_decide_eq_false_2; [reflexivity |]. apply not_elem_of_nil.
Qed.

(** C1 fails on the code: after the first phase change, the broadcast
    timer writes a STATUS frame to a client that never subscribed.  The
    client is not among [getSubscribedClients(null)], but
    [broadcastMessage] called without routes takes its targets from
    [getActiveClients]. *)
Theorem broadcast_reaches_unsubscribed_client :
  let s := phaseUpdateTick 5000 5000 oneClientServer in
  let s' := broadcastTick 5500 s in
  ClientManager.subscriptionsOf 1 (clientManager s) = Some ∅
  /\ ClientManager.getSubscribedClients None (clientManager s) = []
  /\ ClientManager.broadcastTargets None [] (clientManager s) = [1%nat]
  /\ ClientManager.writtenTo 1 (clientManager s') =
       ClientManager.writtenTo 1 (clientManager s)
       ++ [formatMessage 5500
             (PhaseReply (getPhaseInfo 5500 (signalController s'))) STATUS]
  /\ isStatusFrame
       (formatMessage 5500
          (PhaseReply (getPhaseInfo 5500 (signalController s'))) STATUS) = true.
Proof. vm_compute. repeat split. Qed.

(* ===================================================================== *)
(** * Properties of message validation and dispatch *)
(* ===================================================================== *)

Section ServerFacts.

Context `{JSBuiltins}.

(** What an active client's [sendMessage] changes: one more frame on its
    socket, nothing else that the protocol observes. *)
Lemma clientSend_active (clientId : nat) (message : Frame)
    (s : TrafficSignalServer) (client : ClientConnection.t) :
  ClientManager.getClient clientId (clientManager s) = Some client ->
  ClientConnection.isActive client = true ->
  let s' := clientSend clientId message s in
  signalController s' = signalController s
  /\ ClientManager.writtenTo clientId (clientManager s')
     = ClientManager.writtenTo clientId (clientManager s) ++ [message]
  /\ (forall i, i <> clientId ->
        ClientManager.getClient i (clientManager s')
        = ClientManager.getClient i (clientManager s))
  /\ (forall i,
        ClientManager.subscriptionsOf i (clientManager s')
        = ClientManager.subscriptionsOf i (clientManager s)).
Proof.
  intros Hget Hactive. unfold clientSend, ClientManager.sendVia.
  rewrite Hget. unfold ClientConnection.sendMessage. rewrite Hactive. simpl.
  unfold ClientManager.getClient in Hget.
  split; [reflexivity |]. split; [| split].
  - unfold ClientManager.writtenTo, ClientManager.getClient. rewrite Hget.
    destruct (failing (ClientConnection.socket client)); simpl;
      rewrite lookup_insert_eq; reflexivity.
  - intros i Hne. unfold ClientManager.getClient.
    destruct (failing (ClientConnection.socket client)); simpl;
      rewrite lookup_insert_ne by congruence; reflexivity.
  - intros i. unfold ClientManager.subscriptionsOf, ClientManager.getClient.
    destruct (decide (i = clientId)) as [-> | Hne].
    + rewrite Hget.
      destruct (failing (ClientConnection.socket client)); simpl;
        rewrite lookup_insert_eq; reflexivity.
    + destruct (failing (ClientConnection.socket client)); simpl;
        rewrite lookup_insert_ne by congruence; reflexivity.
Qed.

(** When [processIncomingMessage] returns a rejection (a result with
    [isValid] false) for a message that came from a registered, active
    session, the server writes exactly one frame, an ERROR frame with code
    INVALID_MESSAGE, to that session's socket, writes nothing to any other
    session, and changes neither the controller nor any subscription
    set. *)
Lemma invalid_message_one_error_no_mutation
    (now : Z) (clientId : nat) (rawMessage : string)
    (s : TrafficSignalServer) (client : ClientConnection.t)
    (r : ProcessedMessage) :
  ClientManager.getClient clientId (clientManager s) = Some client ->
  ClientConnection.isActive client = true ->
  processIncomingMessage rawMessage = Ok r ->
  isValid r = false ->
  exists error s',
    processClientMessage now clientId rawMessage s = Ok s'
    /\ ClientManager.writtenTo clientId (clientManager s')
       = ClientManager.writtenTo clientId (clientManager s)
         ++ [formatError now error "INVALID_MESSAGE"]
    /\ isErrorFrame (formatError now error "INVALID_MESSAGE") = true
    /\ (forall i, i <> clientId ->
          ClientManager.getClient i (clientManager s')
          = ClientManager.getClient i (clientManager s))
    /\ signalController s' = signalController s
    /\ (forall i,
          ClientManager.subscriptionsOf i (clientManager s')
          = ClientManager.subscriptionsOf i (clientManager s)).
Proof.
  intros Hget Hactive Hproc Hinvalid.
  destruct r as [type error | | | |]; try discriminate.
  exists error, (clientSend clientId (formatError now error "INVALID_MESSAGE") s).
  split.
  { unfold processClientMessage. rewrite Hget, Hproc. reflexivity. }
  destruct (clientSend_active clientId (formatError now error "INVALID_MESSAGE")
              s client Hget Hactive) as (Hc & Hw & Ho & Hs).
  repeat split; assumption || reflexivity.
Qed.

(** ** The ways a message is rejected *)

Lemma malformed_json_rejected (rawData : string) :
  JSON_parse (String_trim rawData) = None ->
  processIncomingMessage rawData = Ok (Rejected None "Failed to parse message").
Proof.
  intros Hparse. unfold processIncomingMessage, parseMessage. rewrite Hparse.
  destruct (String.eqb rawData ""); [reflexivity |].
  destruct (String.eqb (String_trim rawData) ""); reflexivity.
Qed.

Lemma missing_type_rejected (rawData : string) (message : json) :
  JSON_parse (String_trim rawData) = Some message ->
  get_prop message "type" = None ->
  processIncomingMessage rawData = Ok (Rejected None "Failed to parse message").
Proof.
  intros Hparse Htype. unfold processIncomingMessage, parseMessage.
  rewrite Hparse, Htype.
  destruct (String.eqb rawData ""); [reflexivity |].
  destruct (String.eqb (String_trim rawData) ""); [reflexivity |].
  destruct message; reflexivity.
Qed.

(** A type that is none of the message types is rejected when it converts
    to text, as every string and number does. *)
Lemma unknown_type_rejected (rawData : string) (message v : json)
    (text : string) :
  parseMessage rawData = Some message ->
  get_prop message "type" = Some v ->
  messageTypeOf (Some v) = None ->
  ToString v = Ok text ->
  processIncomingMessage rawData
  = Ok (Rejected None ("Unknown message type: " +:+ text)).
Proof.
  intros Hparse Hv Htype Htext. unfold processIncomingMessage.
  rewrite Hparse, Hv, Htype, Htext. reflexivity.
Qed.

(** When it does not convert, building the error text throws and nothing
    is returned. *)
Lemma unknown_type_unconvertible (rawData : string) (message v : json)
    (e : string) :
  parseMessage rawData = Some message ->
  get_prop message "type" = Some v ->
  messageTypeOf (Some v) = None ->
  ToString v = Throw e ->
  processIncomingMessage rawData = Throw e.
Proof.
  intros Hparse Hv Htype Htext. unfold processIncomingMessage.
  rewrite Hparse, Hv, Htype, Htext. reflexivity.
Qed.

Lemma checkRoutes_rejects (items : list json) :
  Exists (fun v => isRoute v = false) items ->
  exists bad, checkRoutes items = inr bad /\ bad ∈ items.
Proof.
  induction 1 as [v rest Hbad | v rest _ IH].
  - destruct v; cbn [checkRoutes];
      try (eexists; split; [reflexivity | apply list_elem_of_here]).
    rewrite Hbad. eexists; split; [reflexivity | apply list_elem_of_here].
  - destruct v as [| | | name | |]; cbn [checkRoutes];
      try (eexists; split; [reflexivity | apply list_elem_of_here]).
    destruct (isRoute (JStr name));
      [| eexists; split; [reflexivity | apply list_elem_of_here]].
    destruct IH as (bad & -> & Hin).
    eexists; split; [reflexivity | apply list_elem_of_further; exact Hin].
Qed.

Lemma invalid_subscribe_route_rejected (rawData : string) (message : json)
    (items : list json) :
  parseMessage rawData = Some message ->
  messageTypeOf (get_prop message "type") = Some SUBSCRIBE ->
  get_prop message "routes" = Some (JArr items) ->
  Exists (fun v => isRoute v = false) items ->
  Forall (fun v => exists text, ToString v = Ok text) items ->
  exists error,
    processIncomingMessage rawData = Ok (Rejected (Some SUBSCRIBE) error).
Proof.
  intros Hparse Htype Hroutes Hbad Htext. unfold processIncomingMessage.
  rewrite Hparse, Htype. unfold validateSubscribe. rewrite Hroutes. simpl.
  destruct (checkRoutes_rejects items Hbad) as (bad & -> & Hin).
  rewrite Forall_forall in Htext. destruct (Htext bad Hin) as [text ->].
  eexists. reflexivity.
Qed.

Lemma invalid_unsubscribe_route_rejected (rawData : string) (message : json)
    (items : list json) :
  parseMessage rawData = Some message ->
  messageTypeOf (get_prop message "type") = Some UNSUBSCRIBE ->
  get_prop message "routes" = Some (JArr items) ->
  Exists (fun v => isRoute v = false) items ->
  Forall (fun v => exists text, ToString v = Ok text) items ->
  exists error,
    processIncomingMessage rawData = Ok (Rejected (Some UNSUBSCRIBE) error).
Proof.
  intros Hparse Htype Hroutes Hbad Htext. unfold processIncomingMessage.
  rewrite Hparse, Htype. unfold validateUnsubscribe. rewrite Hroutes. simpl.
  destruct (checkRoutes_rejects items Hbad) as (bad & -> & Hin).
  rewrite Forall_forall in Htext. destruct (Htext bad Hin) as [text ->].
  eexists. reflexivity.
Qed.

Lemma unknown_queryType_rejected (rawData : string) (message : json)
    (q : string) :
  parseMessage rawData = Some message ->
  messageTypeOf (get_prop message "type") = Some QUERY ->
  get_prop message "queryType" = Some (JStr q) ->
  q <> "" -> q ∉ validQueryTypes ->
  exists error,
    processIncomingMessage rawData = Ok (Rejected (Some QUERY) error).
Proof.
  intros Hparse Htype Hq Hne Hnotin. unfold processIncomingMessage.
  rewrite Hparse, Htype. unfold validateQuery. rewrite Hq. simpl.
  destruct (String.eqb_spec q "") as [-> | _]; [congruence |].
  rewrite bool_decide_eq_false_2 by exact Hnotin. eexists. reflexivity.
Qed.

Lemma non_numeric_vehicles_rejected (rawData : string) (message : json)
    (fields : list (string * json)) (v : json) :
  parseMessage rawData = Some message ->
  messageTypeOf (get_prop message "type") = Some CAMERA_UPDATE ->
  get_prop message "data"
    = Some (JObj [("A", JObj (("vehicles", v) :: fields))]) ->
  parseInt v = Ok INaN ->
  (exists heavy, js_parseInt (assoc "heavyVehicles" fields) = Ok heavy) ->
  exists error,
    processIncomingMessage rawData = Ok (Rejected (Some CAMERA_UPDATE) error).
Proof.
  intros Hparse Htype Hdata Hnan [heavy Hheavy]. unfold processIncomingMessage.
  rewrite Hparse, Htype. unfold validateCameraUpdate. rewrite Hdata.
  simpl. unfold validateCameraRoute. simpl. rewrite Hnan. cbn.
  rewrite Hheavy. cbn. eexists. reflexivity.
Qed.

(** ** Camera updates and unknown keys *)

Lemma validateCameraRoute_same_routes
    (f1 f2 : list (string * json)) (route : Route) (vd : ValidatedData) :
  assoc "hasOwnProperty" f1 = None ->
  assoc "hasOwnProperty" f2 = None ->
  assoc (route_name route) f1 = assoc (route_name route) f2 ->
  validateCameraRoute (JObj f1) route vd = validateCameraRoute (JObj f2) route vd.
Proof.
  intros H1 H2 Hsame. unfold validateCameraRoute, hasOwnProperty, get_prop.
  rewrite H1, H2, Hsame. reflexivity.
Qed.

(** Two data objects that agree on the four routes, neither of which has
    an own [hasOwnProperty], validate alike. *)
Lemma validateCameraRoutes_unknown_keys_ignored
    (f1 f2 : list (string * json)) (routes : list Route) :
  assoc "hasOwnProperty" f1 = None ->
  assoc "hasOwnProperty" f2 = None ->
  (forall r, assoc (route_name r) f1 = assoc (route_name r) f2) ->
  forall vd,
    validateCameraRoutes (JObj f1) routes vd
    = validateCameraRoutes (JObj f2) routes vd.
Proof.
  intros H1 H2 Hsame. induction routes as [| route rest IH]; intros vd.
  - reflexivity.
  - cbn [validateCameraRoutes].
    rewrite (validateCameraRoute_same_routes f1 f2 route vd H1 H2 (Hsame route)).
    destruct (validateCameraRoute (JObj f2) route vd) as [[vd' | e] | e];
      simpl; [apply IH | reflexivity | reflexivity].
Qed.

Lemma assoc_cons_ne (k k' : string) (v : json) (fields : list (string * json)) :
  k <> k' -> assoc k ((k', v) :: fields) = assoc k fields.
Proof.
  intros Hne. simpl. destruct (String.eqb_spec k k'); [congruence | reflexivity].
Qed.

Lemma validateCameraUpdate_object (message : json)
    (fields : list (string * json)) :
  get_prop message "data" = Some (JObj fields) ->
  validateCameraUpdate message
  = validateCameraRoutes (JObj fields) ROUTES_values (rm_const None).
Proof.
  intros Hdata. unfold validateCameraUpdate. rewrite Hdata. reflexivity.
Qed.

(** An extra key that is neither a route name nor [hasOwnProperty] does not
    change the answer of the validator. *)
Lemma validateCameraUpdate_extra_key
    (type : json) (key : string) (v : json) (fields : list (string * json)) :
  key <> "hasOwnProperty" ->
  (forall r, route_name r <> key) ->
  assoc "hasOwnProperty" fields = None ->
  validateCameraUpdate
    (JObj [("type", type); ("data", JObj ((key, v) :: fields))])
  = validateCameraUpdate (JObj [("type", type); ("data", JObj fields)]).
Proof.
  intros Hkey Hroute Hown.
  rewrite (validateCameraUpdate_object _ ((key, v) :: fields)) by reflexivity.
  rewrite (validateCameraUpdate_object _ fields) by reflexivity.
  apply validateCameraRoutes_unknown_keys_ignored.
  - rewrite assoc_cons_ne by congruence. exact Hown.
  - exact Hown.
  - intros r. apply assoc_cons_ne. apply Hroute.
Qed.

Lemma empty_data_is_valid (message : json) :
  get_prop message "data" = Some (JObj []) ->
  validateCameraUpdate message = Ok (Valid (rm_const None)).
Proof.
  intros Hdata. unfold validateCameraUpdate. rewrite Hdata. reflexivity.
Qed.

(** [handleCameraUpdate] leaves the sample of every route that the
    validated data does not carry. *)
Lemma applyCameraRoutes_absent (routes : list Route) (td : ValidatedData) :
  forall (c : Controller) (r : Route),
    rm_get td r = None ->
    rm_get (trafficData (applyCameraRoutes routes td c).1) r
    = rm_get (trafficData c) r.
Proof.
  induction routes as [| route rest IH]; intros c r Hnone; [reflexivity |].
  cbn [applyCameraRoutes].
  destruct (rm_get td route) as [sample |] eqn:Eroute; [| apply IH; exact Hnone].
  rewrite (updateTrafficData_valid_route route _ _ c _ _
             (sanitizeCount_text _ _ (ToString_number _))
             (sanitizeCount_text _ _ (ToString_number _))).
  rewrite IH by exact Hnone. simpl.
  apply rm_get_set_ne. intros ->. congruence.
Qed.

Lemma applyCameraRoutes_nothing (routes : list Route) (c : Controller) :
  applyCameraRoutes routes (rm_const None) c = (c, None).
Proof.
  induction routes as [| route rest IH]; [reflexivity |].
  cbn [applyCameraRoutes]. destruct route; simpl; exact IH.
Qed.

Lemma handleCameraUpdate_empty (now : Z) (clientId : nat)
    (s : TrafficSignalServer) :
  signalController (handleCameraUpdate now clientId (rm_const None) s)
  = signalController s.
Proof.
  unfold handleCameraUpdate.
  destruct (ClientManager.getClient clientId (clientManager s)); [| reflexivity].
  rewrite applyCameraRoutes_nothing. reflexivity.
Qed.

(** Whatever the builtins, validating the message whose data object has an
    own key [hasOwnProperty] throws. *)
Lemma shadowed_hasOwnProperty_throws :
  typeof_object (get_prop shadowing_message "data") = true
  /\ validateCameraUpdate shadowing_message
     = Throw "TypeError: data.hasOwnProperty is not a function".
Proof. split; reflexivity. Qed.

End ServerFacts.

(** C7 fails on the code: a message of no known type whose [type] is an
    object with an own key [toString] is an invalid message, but building
    the text of its error throws; the exception leaves
    [processClientMessage], nothing is written to the session and no ERROR
    frame is sent. *)
Theorem unknown_type_without_error_frame :
  @parseMessage sampleBuiltins unconvertible_type_line
    = Some unconvertible_type_message
  /\ messageTypeOf (get_prop unconvertible_type_message "type") = None
  /\ ClientManager.getClient 1 (clientManager oneClientServer)
     = Some (ClientConnection.mk 1
               (socket_write (formatMessage 0 (Welcome 1) STATUS) freshSocket)
               ∅ true 0 0 "")
  /\ @processClientMessage sampleBuiltins 6000 1 unconvertible_type_line
       oneClientServer
     = Throw "TypeError: Cannot convert object to primitive value".
Proof. vm_compute. repeat split; reflexivity. Qed.

Lemma invalid_message_one_error_no_mutation_witness :
  exists error s',
    @processClientMessage sampleBuiltins 6000 1 "not json" oneClientServer
      = Ok s'
    /\ ClientManager.writtenTo 1 (clientManager s')
       = ClientManager.writtenTo 1 (clientManager oneClientServer)
         ++ [formatError 6000 error "INVALID_MESSAGE"]
    /\ signalController s' = signalController oneClientServer.
Proof.
  destruct (@invalid_message_one_error_no_mutation sampleBuiltins 6000 1%nat
              "not json" oneClientServer
              (ClientConnection.mk 1
                 (socket_write (formatMessage 0 (Welcome 1) STATUS) freshSocket)
                 ∅ true 0 0 "")
              (Rejected None "Failed to parse message"))
    as (error & s' & Hrun & Hw & _ & _ & Hc & _).
  - vm_compute. reflexivity.
  - reflexivity.
  - vm_compute. reflexivity.
  - reflexivity.
  - exists error, s'. split; [exact Hrun |]. split; [exact Hw | exact Hc].
Defined.

(** C10 fails on the code for one unknown key: a CAMERA_UPDATE whose data
    object has the key [hasOwnProperty] is neither accepted nor answered;
    validation throws and the exception leaves [processClientMessage].  The
    same message with an empty data object is accepted, acknowledged with
    [dataProcessed = 0], and changes no traffic sample. *)
Theorem unknown_key_hasOwnProperty_not_ignored :
  @processClientMessage sampleBuiltins 6000 1 shadowing_line oneClientServer
    = Throw "TypeError: data.hasOwnProperty is not a function"
  /\ exists s',
       @processClientMessage sampleBuiltins 6000 1 empty_update_line
         oneClientServer = Ok s'
       /\ signalController s' = signalController oneClientServer
       /\ ClientManager.writtenTo 1 (clientManager s')
          = ClientManager.writtenTo 1 (clientManager oneClientServer)
            ++ [formatMessage 6000 (CameraAck 0) STATUS].
Proof.
  split; [vm_compute; reflexivity |]. eexists. vm_compute. repeat split.
Qed.

(* ===================================================================== *)
(** * Further properties of the calculator *)
(* ===================================================================== *)

Section CalculatorMore.

Import TrafficCalculator.


Lemma fold_left_nadd_nonneg (demands : list number) :
  Forall (fun d => nle (Fin 0) d) demands ->
  forall acc, nle (Fin 0) acc -> nle (Fin 0) (fold_left nadd demands acc).
Proof.
  induction 1 as [| d rest Hd Hrest IH]; intros acc Hacc; [exact Hacc |].
  simpl. apply IH. apply (nadd_nonneg acc d Hacc Hd).
Qed.

(** X2: for non-negative demands the recommended cycle time lies between
    MIN_CYCLE_TIME (30) and 96 seconds, and is at least 36 once there is
    any demand. *)
Theorem getCycleTime_range (demands : list number) :
  Forall (fun d => nle (Fin 0) d) demands ->
  exists seconds,
    getCycleTime demands = IInt seconds
    /\ TIMING.MIN_CYCLE_TIME <= seconds <= 96
    /\ (nis0 (fold_left nadd demands (Fin 0)) = false -> 36 <= seconds).
Proof.
  intros Hnn.
  pose proof (fold_left_nadd_nonneg demands Hnn (Fin 0) ltac:(simpl; lra))
    as Htotal.
  unfold getCycleTime. set (total := fold_left nadd demands (Fin 0)) in *.
  destruct (nis0 total) eqn:Et.
  - exists TIMING.MIN_CYCLE_TIME. split; [reflexivity |].
    split; [unfold TIMING.MIN_CYCLE_TIME; lia | discriminate].
  - assert (Hbase : exists b, nmin (ndiv total (Fin 100)) (Fin 2) = Fin b
                              /\ (0 <= b <= 2)%Q).
    { destruct total as [| | | x]; simpl in Htotal; try contradiction.
      - exists 2%Q. split; [reflexivity | lra].
      - cbn [ndiv]. change (Qsign 100) with Gt. cbv iota.
        pose proof (round64_nonneg (x / 100)
                      ltac:(apply Qle_shift_div_l; lra)) as Hq.
        destruct (round64 (x / 100)) as [| | | y]; simpl in Hq;
          try contradiction.
        + exists 2%Q. split; [reflexivity | lra].
        + cbn [nmin]. destruct (Qle_bool y 2) eqn:Ey.
          * apply Qle_bool_iff in Ey. exists y. split; [reflexivity | lra].
          * exists 2%Q. split; [reflexivity | lra]. }
    destruct Hbase as (b & -> & Hb0 & Hb2).
    cbn [nadd].
    destruct (round64_between (1 + b) 1 3 1 3) as (y1 & -> & Hy1lo & Hy1hi);
      [lra | lra | reflexivity | reflexivity |].
    cbn [nmul].
    change (inject_Z TIMING.MIN_CYCLE_TIME) with 30%Q.
    destruct (round64_between (30 * y1) 30 90 30 90) as (y2 & -> & Hy2lo & Hy2hi);
      [lra | lra | reflexivity | reflexivity |].
    cbn [nadd].
    change (inject_Z (TIMING.YELLOW_DURATION * 2)) with 6%Q.
    destruct (round64_between (y2 + 6) 36 96 36 96) as (y3 & -> & Hy3lo & Hy3hi);
      [lra | lra | reflexivity | reflexivity |].
    cbn [Math_round_number]. eexists. split; [reflexivity |].
    pose proof (Math_round_between y3 36 96 Hy3lo Hy3hi) as Hr.
    unfold Math_round in Hr. unfold TIMING.MIN_CYCLE_TIME. lia.
Qed.

Lemma getCycleTime_range_witness :
  exists seconds,
    getCycleTime [Fin 15; Fin 7; Fin 13; Fin 25] = IInt seconds
    /\ TIMING.MIN_CYCLE_TIME <= seconds <= 96
    /\ (nis0 (fold_left nadd [Fin 15; Fin 7; Fin 13; Fin 25] (Fin 0)) = false ->
        36 <= seconds).
Proof.
  apply (getCycleTime_range [Fin 15; Fin 7; Fin 13; Fin 25]).
  repeat constructor; discriminate.
Defined.

End CalculatorMore.

Section ValidateTrafficDataFacts.

Context `{JSBuiltins}.

(** The value [trafficData[route]?.field]. *)
Lemma optionalCount_ok (routeData : option json) (field : string) :
  let value :=
    match routeData with
    | None | Some JNull => None
    | Some rd => get_prop rd field
    end in
  (forall n, optionalCount routeData field = Ok n -> n <> INaN)
  /\ ((exists n, optionalCount routeData field = Ok n)
      <-> forall v, value = Some v -> exists text, ToString v = Ok text).
Proof.
  intros value. unfold optionalCount. fold value.
  destruct value as [v |]; cbn [js_parseInt]; unfold parseInt.
  - destruct (ToString v) as [text | e] eqn:Etext; cbn.
    + split.
      * intros n [= <-]. destruct (parseInt_string text); discriminate.
      * split; [intros _ v' [= <-]; exists text; exact Etext
               | intros _; eexists; reflexivity].
    + split; [discriminate |].
      split; [intros [n Hn]; discriminate |].
      intros Hall. destruct (Hall v eq_refl) as [text Ht]. congruence.
  - cbn. split; [intros n [= <-]; discriminate |].
    split; [intros _ v [=] | intros _; eexists; reflexivity].
Qed.

Lemma imax_nonNegative (n : integral) : n <> INaN -> nonNegative_i (imax (IInt 0) n).
Proof. destruct n as [| | | z]; simpl; try congruence; try exact I; lia. Qed.

(** X3: on an input other than null, [validateTrafficData] returns exactly
    when every count that is present converts to text, and throws
    otherwise; every count it returns is non-negative; on null it
    throws. *)
Theorem validateTrafficData_sanitizes (trafficData : json) :
  trafficData <> JNull ->
  let counts :=
    List.map
      (fun '(route, field) =>
         match get_prop trafficData (route_name route) with
         | None | Some JNull => None
         | Some routeData => get_prop routeData field
         end)
      (list_prod ROUTES_values ["vehicles"; "heavyVehicles"]) in
  ((exists validated, validateTrafficData trafficData = Ok validated)
   <-> Forall (fun count =>
                 forall v, count = Some v -> exists text, ToString v = Ok text)
              counts)
  /\ (forall validated,
        validateTrafficData trafficData = Ok validated ->
        forall r,
          nonNegative_i (vehicles (rm_get validated r))
          /\ nonNegative_i (heavyVehicles (rm_get validated r)))
  /\ exists e, validateTrafficData JNull = Throw e.
Proof.
  intros Hnn counts.
  assert (Hroute : forall r,
             (forall sample, validatedRoute trafficData r = Ok sample ->
                nonNegative_i (vehicles sample)
                /\ nonNegative_i (heavyVehicles sample))
             /\ ((exists sample, validatedRoute trafficData r = Ok sample)
                 <-> (forall field, field ∈ ["vehicles"; "heavyVehicles"] ->
                      forall v,
                        match get_prop trafficData (route_name r) with
                        | None | Some JNull => None
                        | Some routeData => get_prop routeData field
                        end = Some v -> exists text, ToString v = Ok text))).
  { intros r. unfold validatedRoute.
    destruct (optionalCount_ok (get_prop trafficData (route_name r)) "vehicles")
      as [Hv1 Hv2].
    destruct (optionalCount_ok (get_prop trafficData (route_name r)) "heavyVehicles")
      as [Hh1 Hh2].
    cbv zeta in Hv2, Hh2.
    destruct (optionalCount (get_prop trafficData (route_name r)) "vehicles")
      as [nv | ev]; cbn.
    - destruct (optionalCount (get_prop trafficData (route_name r)) "heavyVehicles")
        as [nh | eh]; cbn.
      + split.
        * intros sample [= <-]. cbn.
          split; apply imax_nonNegative; [apply Hv1 | apply Hh1]; reflexivity.
        * split; [| intros _; eexists; reflexivity].
          intros _ field Hfield v Hval.
          apply elem_of_cons in Hfield. destruct Hfield as [-> | Hfield].
          -- apply (proj1 Hv2 ltac:(eexists; reflexivity) v Hval).
          -- apply list_elem_of_singleton in Hfield. subst field.
             apply (proj1 Hh2 ltac:(eexists; reflexivity) v Hval).
      + split; [discriminate |].
        split; [intros [sample Hs]; discriminate |].
        intros Hall. exfalso.
        destruct (proj2 Hh2) as [n Hn]; [| discriminate].
        intros v Hval. apply (Hall "heavyVehicles"); [| exact Hval].
        apply list_elem_of_further, list_elem_of_here.
    - split; [discriminate |].
      split; [intros [sample Hs]; discriminate |].
      intros Hall. exfalso.
      destruct (proj2 Hv2) as [n Hn]; [| discriminate].
      intros v Hval. apply (Hall "vehicles"); [| exact Hval].
      apply list_elem_of_here. }
  assert (Hbody : validateTrafficData trafficData =
                  (sampleA ← validatedRoute trafficData ROUTES.A;
                   sampleB ← validatedRoute trafficData ROUTES.B;
                   sampleC ← validatedRoute trafficData ROUTES.C;
                   sampleD ← validatedRoute trafficData ROUTES.D;
                   Ok (mkRouteMap sampleA sampleB sampleC sampleD))).
  { destruct trafficData; try reflexivity. congruence. }
  destruct (Hroute ROUTES.A) as [HA1 HA2]. destruct (Hroute ROUTES.B) as [HB1 HB2].
  destruct (Hroute ROUTES.C) as [HC1 HC2]. destruct (Hroute ROUTES.D) as [HD1 HD2].
  split; [| split; [| eexists; reflexivity]].
  - rewrite Hbody. unfold counts. cbn [list_prod List.map List.app ROUTES_values].
    rewrite !Forall_cons, Forall_nil.
    split.
    + intros [validated Hv].
      destruct (validatedRoute trafficData ROUTES.A) as [sA | e]; [| discriminate].
      destruct (validatedRoute trafficData ROUTES.B) as [sB | e]; [| discriminate].
      destruct (validatedRoute trafficData ROUTES.C) as [sC | e]; [| discriminate].
      destruct (validatedRoute trafficData ROUTES.D) as [sD | e]; [| discriminate].
      pose proof (proj1 HA2 ltac:(eexists; reflexivity)) as PA.
      pose proof (proj1 HB2 ltac:(eexists; reflexivity)) as PB.
      pose proof (proj1 HC2 ltac:(eexists; reflexivity)) as PC.
      pose proof (proj1 HD2 ltac:(eexists; reflexivity)) as PD.
      repeat split;
        first [ apply PA | apply PB | apply PC | apply PD ];
        first [ apply list_elem_of_here
              | apply list_elem_of_further, list_elem_of_here ].
    + intros (A1 & A2 & B1 & B2 & C1 & C2 & D1 & D2 & _).
      destruct (proj2 HA2) as [sA ->].
      { intros field Hf. apply elem_of_cons in Hf. destruct Hf as [-> | Hf];
          [exact A1 | apply list_elem_of_singleton in Hf; subst field; exact A2]. }
      destruct (proj2 HB2) as [sB ->].
      { intros field Hf. apply elem_of_cons in Hf. destruct Hf as [-> | Hf];
          [exact B1 | apply list_elem_of_singleton in Hf; subst field; exact B2]. }
      destruct (proj2 HC2) as [sC ->].
      { intros field Hf. apply elem_of_cons in Hf. destruct Hf as [-> | Hf];
          [exact C1 | apply list_elem_of_singleton in Hf; subst field; exact C2]. }
      destruct (proj2 HD2) as [sD ->].
      { intros field Hf. apply elem_of_cons in Hf. destruct Hf as [-> | Hf];
          [exact D1 | apply list_elem_of_singleton in Hf; subst field; exact D2]. }
      eexists. reflexivity.
  - intros validated Hv. rewrite Hbody in Hv.
    destruct (validatedRoute trafficData ROUTES.A) as [sA | e] eqn:EA; [| discriminate].
    destruct (validatedRoute trafficData ROUTES.B) as [sB | e] eqn:EB; [| discriminate].
    destruct (validatedRoute trafficData ROUTES.C) as [sC | e] eqn:EC; [| discriminate].
    destruct (validatedRoute trafficData ROUTES.D) as [sD | e] eqn:ED; [| discriminate].
    cbn in Hv. injection Hv as <-.
    intros r. destruct r; cbn [rm_get atA atB atC atD];
      [apply HA1 | apply HB1 | apply HC1 | apply HD1]; reflexivity.
Qed.

End ValidateTrafficDataFacts.

Lemma validateTrafficData_sanitizes_witness :
  (exists validated,
     @validateTrafficData sampleBuiltins
       (JObj [("A", JObj [("vehicles", JNum (Fin (-4)));
                          ("heavyVehicles", JStr "x")])])
     = Ok validated)
  /\ ~ exists validated,
         @validateTrafficData sampleBuiltins
           (JObj [("B", JObj [("vehicles", JObj [("toString", JNum (Fin 1))])])])
         = Ok validated.
Proof.
  split.
  - apply (@validateTrafficData_sanitizes sampleBuiltins
             (JObj [("A", JObj [("vehicles", JNum (Fin (-4)));
                                ("heavyVehicles", JStr "x")])])).
    + discriminate.
    + cbn [List.map list_prod List.app ROUTES_values].
      repeat apply Forall_cons_2; try apply Forall_nil_2;
        cbn; intros v Hv; try discriminate Hv; injection Hv as <-;
        eexists; first [apply ToString_number | apply ToString_string].
  - intros [validated Hv]. vm_compute in Hv. discriminate.
Defined.

(* ===================================================================== *)
(** * Further properties of the phase controller *)
(* ===================================================================== *)

Lemma executePhaseTransition_duration (now : Z) (c : Controller) :
  flagConsistent c -> durationFitsPhase (executePhaseTransition now c).
Proof.
  unfold flagConsistent, durationFitsPhase, executePhaseTransition.
  destruct c as [sig td ph st dur ytr iny lb]; simpl. intros ->.
  destruct ph; simpl; try reflexivity;
    (match goal with
     | |- ?d = INaN \/ _ =>
         match d with
         | TrafficCalculator.calculateGreenDuration ?a ?b ?c ?d' ?p =>
             destruct (calculateGreenDuration_at_most_49 a b c d' p)
               as [Hnan | (seconds & Hsec & Hrange)]
         end
     end;
     [left; exact Hnan
     | right; exists seconds; split;
       [exact Hsec | unfold TIMING.MIN_GREEN, TIMING.MAX_GREEN; lia]]).
Qed.

Lemma elapsedSeconds_mono (now later start : Z) :
  now <= later -> elapsedSeconds now start <= elapsedSeconds later start.
Proof.
  intros Hle. rewrite !elapsedSeconds_div. apply Z.div_le_mono; lia.
Qed.

(** X7: once a phase is due it stays due: if [updatePhase] performs the
    transition at one clock reading, it performs it from the same state at
    every later reading, so a late tick never loses a transition. *)
Theorem updatePhase_due_stays_due (c : Controller) (now later n1 n2 : Z) :
  (updatePhase now n1 c).1 = true ->
  now <= later ->
  updatePhase later n2 c = (true, executePhaseTransition n2 c).
Proof.
  unfold updatePhase. intros Hdue Hle.
  pose proof (elapsedSeconds_mono now later (phaseStartTime c) Hle) as Hmono.
  destruct (currentPhaseDuration c) as [| | | duration]; simpl in *;
    try discriminate; try reflexivity.
  destruct (Z.leb_spec duration (elapsedSeconds now (phaseStartTime c)));
    [| discriminate].
  destruct (Z.leb_spec duration (elapsedSeconds later (phaseStartTime c)));
    [reflexivity | lia].
Qed.

Lemma updatePhase_due_stays_due_witness :
  updatePhase 9000 9001 (constructor 0)
  = (true, executePhaseTransition 9001 (constructor 0)).
Proof.
  apply (updatePhase_due_stays_due (constructor 0) 5000 9000 5000 9001).
  - reflexivity.
  - discriminate.
Defined.

(** X6: [getPhaseInfo] never reports a negative remaining time (it reports
    NaN exactly when the committed duration is NaN); elapsed plus remaining
    is the committed duration until the phase is overdue; and the remaining
    time is zero exactly when [updatePhase], called at the same clock
    reading, performs the transition. *)
Theorem getPhaseInfo_remaining (c : Controller) (now n' : Z) :
  let info := getPhaseInfo now c in
  (nonNegative_i (pi_remainingSeconds info)
   \/ (pi_remainingSeconds info = INaN /\ pi_totalDurationSeconds info = INaN))
  /\ (pi_remainingSeconds info = INaN <-> pi_totalDurationSeconds info = INaN)
  /\ (forall duration,
        pi_totalDurationSeconds info = IInt duration ->
        pi_elapsedSeconds info <= duration ->
        iadd (pi_elapsedSeconds info) (pi_remainingSeconds info) = IInt duration)
  /\ (pi_remainingSeconds info = IInt 0 <-> (updatePhase now n' c).1 = true).
Proof.
  unfold getPhaseInfo, updatePhase; simpl.
  destruct (currentPhaseDuration c) as [| | | total]; simpl.
  - split; [right; split; reflexivity |].
    split; [split; reflexivity |].
    split; [discriminate |]. split; discriminate.
  - split; [left; exact I |].
    split; [split; discriminate |].
    split; [discriminate |]. split; discriminate.
  - split; [left; lia |].
    split; [split; discriminate |].
    split; [discriminate |]. split; reflexivity.
  - split; [left; lia |].
    split; [split; discriminate |].
    split.
    + intros duration [= <-] Hle. f_equal. lia.
    + destruct (Z.leb_spec total (elapsedSeconds now (phaseStartTime c)));
        simpl; split; intros E; try reflexivity; try discriminate.
      * f_equal. lia.
      * injection E as E. lia.
Qed.

(** The serialisation of the signal colours determines them. *)
Lemma JSON_stringify_signals_inj (s1 s2 : RouteMap SignalColor) :
  JSON_stringify_signals s1 = JSON_stringify_signals s2 -> s1 = s2.
Proof.
  destruct s1 as [a1 b1 c1 d1], s2 as [a2 b2 c2 d2].
  unfold JSON_stringify_signals. simpl rm_get. intros Heq.
  destruct a1, a2; vm_compute in Heq; try discriminate Heq;
    injection Heq as Heq;
    (destruct b1, b2; vm_compute in Heq; try discriminate Heq;
     injection Heq as Heq;
     (destruct c1, c2; vm_compute in Heq; try discriminate Heq;
      injection Heq as Heq;
      (destruct d1, d2; vm_compute in Heq; try discriminate Heq;
       reflexivity))).
Qed.

Lemma phaseSignals_next_differs (p : Phase) :
  phaseSignals (nextInCycle p) <> phaseSignals p
  /\ phaseSignals (nextInCycle p) <> all_red.
Proof. destruct p; split; discriminate. Qed.

Lemma hasStateChanged_true_when_differs (c : Controller) :
  (JSON_stringify_signals (signalState c) = lastBroadcastState c -> False) ->
  (hasStateChanged c).1 = true.
Proof.
  intros Hne. unfold hasStateChanged. cbn [fst].
  destruct (String.eqb_spec (JSON_stringify_signals (signalState c))
                            (lastBroadcastState c)); [contradiction | reflexivity].
Qed.

Lemma hasStateChanged_frame (c : Controller) :
  let c' := (hasStateChanged c).2 in
  signalState c' = signalState c /\ trafficData c' = trafficData c
  /\ currentPhase c' = currentPhase c
  /\ phaseStartTime c' = phaseStartTime c
  /\ currentPhaseDuration c' = currentPhaseDuration c
  /\ isInYellow c' = isInYellow c.
Proof.
  unfold hasStateChanged. cbn [snd].
  destruct (negb _); repeat split.
Qed.

Section ControllerMore.

Context `{JSBuiltins}.

(** One step keeps the yellow flag in agreement with the phase. *)
Lemma ControllerStep_flagConsistent (c c' : Controller) :
  flagConsistent c -> ControllerStep c c' -> flagConsistent c'.
Proof.
  intros Hflag Hstep.
  destruct Hstep as [now now' c | now c | route v h c c' Hupd | now c].
  - unfold updatePhase. destruct (ige _ _); simpl; [| exact Hflag].
    apply executePhaseTransition_phase. exact Hflag.
  - apply executePhaseTransition_phase. exact Hflag.
  - destruct (updateTrafficData_frame _ _ _ _ _ Hupd) as (_ & Hp & _ & _ & Hy & _).
    unfold flagConsistent. rewrite Hy, Hp. exact Hflag.
  - reflexivity.
Qed.

(** One step keeps the signals those of the constructor or of the phase. *)
Lemma ControllerStep_signals (c c' : Controller) :
  signalState c = all_red \/ signalState c = phaseSignals (currentPhase c) ->
  ControllerStep c c' ->
  signalState c' = all_red \/ signalState c' = phaseSignals (currentPhase c').
Proof.
  intros Hsig Hstep.
  destruct Hstep as [now now' c | now c | route v h c c' Hupd | now c].
  - unfold updatePhase. destruct (ige _ _); simpl; [| exact Hsig].
    right. apply executePhaseTransition_signals.
  - right. apply executePhaseTransition_signals.
  - destruct (updateTrafficData_frame _ _ _ _ _ Hupd) as (-> & -> & _).
    exact Hsig.
  - right. reflexivity.
Qed.

(** One step keeps the stored counts non-negative. *)
Lemma ControllerStep_nonNegativeSamples (c c' : Controller) :
  nonNegativeSamples (trafficData c) -> ControllerStep c c' ->
  nonNegativeSamples (trafficData c').
Proof.
  intros Hnn Hstep.
  destruct Hstep as [now now' c | now c | route v h c c' Hupd | now c].
  - unfold updatePhase. destruct (ige _ _); simpl; [| exact Hnn].
    unfold executePhaseTransition.
    destruct (isInYellow c); case_decide; exact Hnn.
  - unfold executePhaseTransition.
    destruct (isInYellow c); case_decide; exact Hnn.
  - destruct (updateTrafficData_inv _ _ _ _ _ Hupd)
      as (r0 & v' & h' & _ & Hv & Hh & ->).
    simpl. intros r.
    destruct (decide (r0 = r)) as [-> | Hne].
    + rewrite rm_get_set_eq. simpl.
      split; [exact (sanitizeCount_nonNegative v v' Hv)
             | exact (sanitizeCount_nonNegative h h' Hh)].
    + rewrite rm_get_set_ne by exact Hne. apply Hnn.
  - intros r. destruct r; simpl; lia.
Qed.

(** One step keeps the committed duration fitting the phase. *)
Lemma ControllerStep_durationFitsPhase (c c' : Controller) :
  flagConsistent c -> durationFitsPhase c -> ControllerStep c c' ->
  durationFitsPhase c'.
Proof.
  intros Hflag Hfit Hstep.
  destruct Hstep as [now now' c | now c | route v h c c' Hupd | now c].
  - unfold updatePhase. destruct (ige _ _); simpl; [| exact Hfit].
    apply executePhaseTransition_duration. exact Hflag.
  - apply executePhaseTransition_duration. exact Hflag.
  - destruct (updateTrafficData_frame _ _ _ _ _ Hupd)
      as (_ & Hp & _ & Hd & _ & _).
    unfold durationFitsPhase. rewrite Hp, Hd. exact Hfit.
  - unfold durationFitsPhase. simpl. right. exists TIMING.MIN_GREEN.
    split; [reflexivity | unfold TIMING.MIN_GREEN, TIMING.MAX_GREEN; lia].
Qed.

Lemma inService_flagConsistent (c : Controller) :
  InService c -> flagConsistent c.
Proof.
  induction 1 as [now | c c' Hserv IH Hstep | c Hserv IH].
  - reflexivity.
  - exact (ControllerStep_flagConsistent c c' IH Hstep).
  - destruct (hasStateChanged_frame c) as (_ & _ & Hp & _ & _ & Hy).
    unfold flagConsistent. rewrite Hy, Hp. exact IH.
Qed.

Lemma inService_signals (c : Controller) :
  InService c ->
  signalState c = all_red \/ signalState c = phaseSignals (currentPhase c).
Proof.
  induction 1 as [now | c c' Hserv IH Hstep | c Hserv IH].
  - left. reflexivity.
  - exact (ControllerStep_signals c c' IH Hstep).
  - destruct (hasStateChanged_frame c) as (Hs & _ & Hp & _).
    rewrite Hs, Hp. exact IH.
Qed.

(** X4: in every state a controller in service goes through, all stored
    vehicle counts are non-negative, so every demand computed from them is
    non-negative too. *)
Theorem reachable_samples_nonnegative (c : Controller) :
  InService c ->
  nonNegativeSamples (trafficData c)
  /\ let demands := calculateDemands c in
     forall r, nle (Fin 0) (rm_get demands r).
Proof.
  intros Hr.
  assert (Hnn : nonNegativeSamples (trafficData c)).
  { induction Hr as [now | c c' Hserv IH Hstep | c Hserv IH].
    - intros r. destruct r; simpl; lia.
    - exact (ControllerStep_nonNegativeSamples c c' IH Hstep).
    - destruct (hasStateChanged_frame c) as (_ & Htd & _).
      rewrite Htd. exact IH. }
  split; [exact Hnn |].
  intros demands r. unfold demands, calculateDemands,
    TrafficCalculator.calculateAllDemands.
  pose proof (Hnn r) as [Hv Hh].
  destruct r; cbn [rm_get atA atB atC atD] in *;
    apply (calculateDemand_range _ _ Hv Hh).
Qed.

(** X5: in every state a controller in service goes through, the committed
    duration is YELLOW_DURATION during a yellow phase; during a green phase
    it is a number of seconds within [[MIN_GREEN, MAX_GREEN]] or it is NaN,
    and a phase whose duration is NaN is never found elapsed by
    [updatePhase]. *)
Theorem reachable_duration_fits_phase (c : Controller) :
  InService c ->
  durationFitsPhase c
  /\ (currentPhaseDuration c = INaN ->
      forall now now', updatePhase now now' c = (false, c)).
Proof.
  intros Hserv. split.
  - induction Hserv as [now | c c' Hserv IH Hstep | c Hserv IH].
    + unfold durationFitsPhase. simpl. right. exists TIMING.MIN_GREEN.
      split; [reflexivity | unfold TIMING.MIN_GREEN, TIMING.MAX_GREEN; lia].
    + exact (ControllerStep_durationFitsPhase c c'
               (inService_flagConsistent c Hserv) IH Hstep).
    + destruct (hasStateChanged_frame c) as (_ & _ & Hp & _ & Hd & _).
      unfold durationFitsPhase. rewrite Hp, Hd. exact IH.
  - intros Hnan now now'. unfold updatePhase. rewrite Hnan. reflexivity.
Qed.

(** X8: a phase transition is always visible to the change detection: if
    the broadcast marker is up to date in a state of a controller in
    service (as it is after any call of [hasStateChanged]), then after
    [executePhaseTransition] the next [hasStateChanged] answers true. *)
Theorem transition_is_detected (c : Controller) (now : Z) :
  InService c ->
  lastBroadcastState c = JSON_stringify_signals (signalState c) ->
  (hasStateChanged (executePhaseTransition now c)).1 = true.
Proof.
  intros Hr Hmarker.
  pose proof (inService_flagConsistent c Hr) as Hflag.
  destruct (executePhaseTransition_phase now c Hflag) as [Hnext _].
  pose proof (executePhaseTransition_signals now c) as Hsig.
  rewrite Hnext in Hsig.
  apply (hasStateChanged_true_when_differs (executePhaseTransition now c)).
  intros Heq. symmetry in Heq.
  assert (Hlb : lastBroadcastState (executePhaseTransition now c)
                = lastBroadcastState c).
  { unfold executePhaseTransition.
    destruct (isInYellow c); case_decide; reflexivity. }
  rewrite Hlb, Hmarker, Hsig in Heq.
  apply JSON_stringify_signals_inj in Heq.
  destruct (phaseSignals_next_differs (currentPhase c)) as [Hd Hred].
  destruct (inService_signals c Hr) as [Hall | Hps];
    rewrite <- Heq in *; congruence.
Qed.

(** X9: [updateTrafficData] succeeds exactly when the route is one of the
    four route names and both counts convert to text; it throws on every
    other route argument, and on a count that does not convert. *)
Theorem updateTrafficData_succeeds_iff (route v h : json) (c : Controller) :
  ((exists c', updateTrafficData route v h c = Ok c')
   <-> (exists r, route = JStr (route_name r))
       /\ (exists text, ToString v = Ok text)
       /\ (exists text, ToString h = Ok text))
  /\ ((forall r, route <> JStr (route_name r)) ->
      exists e, updateTrafficData route v h c = Throw e)
  /\ (forall e, ToString v = Throw e \/ ToString h = Throw e ->
      exists e', updateTrafficData route v h c = Throw e').
Proof.
  assert (Hiff : (exists c', updateTrafficData route v h c = Ok c')
                 <-> (exists r, route = JStr (route_name r))
                     /\ (exists text, ToString v = Ok text)
                     /\ (exists text, ToString h = Ok text)).
  { split.
    - intros [c' Hupd].
      destruct (updateTrafficData_inv _ _ _ _ _ Hupd)
        as (r & v' & h' & -> & Hv & Hh & _).
      split; [exists r; reflexivity |].
      unfold sanitizeCount, parseInt in Hv, Hh.
      destruct (ToString v) as [vtext |]; [| discriminate].
      destruct (ToString h) as [htext |]; [| discriminate].
      split; eexists; reflexivity.
    - intros ([r ->] & [vtext Hv] & [htext Hh]).
      rewrite (updateTrafficData_valid_route r v h c _ _
                 (sanitizeCount_text v vtext Hv) (sanitizeCount_text h htext Hh)).
      eexists. reflexivity. }
  split; [exact Hiff |].
  split.
  - intros Hroute.
    destruct (updateTrafficData route v h c) as [c' | e] eqn:E;
      [| exists e; reflexivity].
    destruct (proj1 Hiff ltac:(exists c'; reflexivity)) as ([r Hr] & _).
    destruct (Hroute r Hr).
  - intros e He.
    destruct (updateTrafficData route v h c) as [c' | e'] eqn:E;
      [| exists e'; reflexivity].
    destruct (proj1 Hiff ltac:(exists c'; reflexivity))
      as (_ & [vtext Hv] & [htext Hh]).
    destruct He; congruence.
Qed.

End ControllerMore.

Lemma transition_is_detected_witness :
  (hasStateChanged (executePhaseTransition 10000 afterFirstBroadcast)).1 = true.
Proof.
  apply (@transition_is_detected sampleBuiltins afterFirstBroadcast 10000).
  - apply service_hasStateChanged.
    apply (@service_step sampleBuiltins (constructor 0)); constructor.
  - reflexivity.
Defined.

Lemma reachable_samples_nonnegative_witness :
  nonNegativeSamples (trafficData afterFirstBroadcast).
Proof.
  apply (@reachable_samples_nonnegative sampleBuiltins afterFirstBroadcast).
  apply service_hasStateChanged.
  apply (@service_step sampleBuiltins (constructor 0)); constructor.
Defined.

Lemma reachable_duration_fits_phase_witness :
  durationFitsPhase afterFirstBroadcast.
Proof.
  refine (proj1 (@reachable_duration_fits_phase sampleBuiltins afterFirstBroadcast _)).
  apply service_hasStateChanged.
  apply (@service_step sampleBuiltins (constructor 0)); constructor.
Defined.

(* ===================================================================== *)
(** * Further properties of the client registry *)
(* ===================================================================== *)

Set Warnings "-clear-no-such-hyp".

Lemma foldl_subscribe (routes : list string) (s : gset string) :
  foldl (fun acc route => {[route]} ∪ acc) s routes = s ∪ list_to_set routes.
Proof.
  revert s. induction routes as [| route rest IH]; intros s; simpl.
  - set_solver.
  - rewrite IH. set_solver.
Qed.

Lemma foldl_unsubscribe (routes : list string) (s : gset string) :
  foldl (fun acc route => acc ∖ {[route]}) s routes = s ∖ list_to_set routes.
Proof.
  revert s. induction routes as [| route rest IH]; intros s; simpl.
  - set_solver.
  - rewrite IH. set_solver.
Qed.

Lemma subscriptions_sets_union (routes : list string) (c : ClientConnection.t) :
  ClientConnection.subscribedRoutes (ClientConnection.subscribeToRoutes routes c)
  = ClientConnection.subscribedRoutes c ∪ list_to_set routes.
Proof.
  unfold ClientConnection.subscribeToRoutes. simpl. apply foldl_subscribe.
Qed.

Lemma subscriptions_sets_difference (routes : list string)
    (c : ClientConnection.t) :
  ClientConnection.subscribedRoutes
    (ClientConnection.unsubscribeFromRoutes routes c)
  = ClientConnection.subscribedRoutes c ∖ list_to_set routes.
Proof.
  unfold ClientConnection.unsubscribeFromRoutes. simpl. apply foldl_unsubscribe.
Qed.

(** X10: subscribing is set union and unsubscribing set difference on the
    session's route set; both are idempotent, and unsubscribing the routes
    just subscribed leaves exactly the earlier routes that are not among
    them. *)
Theorem subscriptions_are_sets (routes : list string) (c : ClientConnection.t) :
  ClientConnection.subscribedRoutes (ClientConnection.subscribeToRoutes routes c)
    = ClientConnection.subscribedRoutes c ∪ list_to_set routes
  /\ ClientConnection.subscribedRoutes
       (ClientConnection.unsubscribeFromRoutes routes c)
     = ClientConnection.subscribedRoutes c ∖ list_to_set routes
  /\ ClientConnection.subscribeToRoutes routes
       (ClientConnection.subscribeToRoutes routes c)
     = ClientConnection.subscribeToRoutes routes c
  /\ ClientConnection.unsubscribeFromRoutes routes
       (ClientConnection.unsubscribeFromRoutes routes c)
     = ClientConnection.unsubscribeFromRoutes routes c
  /\ ClientConnection.subscribedRoutes
       (ClientConnection.unsubscribeFromRoutes routes
          (ClientConnection.subscribeToRoutes routes c))
     = ClientConnection.subscribedRoutes c ∖ list_to_set routes.
Proof.
  unfold ClientConnection.subscribeToRoutes, ClientConnection.unsubscribeFromRoutes,
    ClientConnection.with_subscribedRoutes; simpl.
  rewrite !foldl_subscribe, !foldl_unsubscribe.
  repeat split; try (f_equal; set_solver); set_solver.
Qed.

(** A registry built by [addClient] and [removeClient] is well keyed. *)
Lemma wellKeyed_new : wellKeyed ClientManager.new.
Proof. intros k client Hget. simpl in Hget. rewrite lookup_empty in Hget. discriminate. Qed.

Lemma removeClient_clients (clientId : nat) (m : ClientManager.t) :
  ClientManager.clients (removeClient clientId m).2
    = delete clientId (ClientManager.clients m)
  /\ ClientManager.nextClientId (removeClient clientId m).2
     = ClientManager.nextClientId m.
Proof.
  unfold removeClient, ClientManager.getClient.
  destruct (ClientManager.clients m !! clientId) eqn:Hget; simpl.
  - split; reflexivity.
  - split; [| reflexivity]. symmetry. apply delete_id. exact Hget.
Qed.

Lemma wellKeyed_removeClient (clientId : nat) (m : ClientManager.t) :
  wellKeyed m -> wellKeyed (removeClient clientId m).2.
Proof.
  intros Hwk k client Hget.
  destruct (removeClient_clients clientId m) as [Hc Hn].
  rewrite Hc in Hget. rewrite Hn.
  apply lookup_delete_Some in Hget. destruct Hget as [_ Hget].
  apply Hwk. exact Hget.
Qed.

Lemma addClient_free_slot (m : ClientManager.t) :
  wellKeyed m ->
  ClientManager.clients m !! ClientManager.nextClientId m = None.
Proof.
  intros Hwk.
  destruct (ClientManager.clients m !! ClientManager.nextClientId m)
    as [client |] eqn:Hget; [| reflexivity].
  apply Hwk in Hget. lia.
Qed.

Lemma wellKeyed_addClient (socket : Socket) (now : Z) (m : ClientManager.t) :
  wellKeyed m -> wellKeyed (ClientManager.addClient socket now m).2.
Proof.
  intros Hwk k client Hget. unfold ClientManager.addClient in *. simpl in *.
  destruct (decide (k = ClientManager.nextClientId m)) as [-> | Hne].
  - rewrite lookup_insert_eq in Hget. injection Hget as <-. simpl. lia.
  - rewrite lookup_insert_ne in Hget by congruence.
    apply Hwk in Hget. lia.
Qed.

Lemma wellKeyed_handleNewConnection (now : Z) (socket : Socket)
    (s : TrafficSignalServer) :
  wellKeyed (clientManager s) ->
  wellKeyed (clientManager (handleNewConnection now socket s).2).
Proof.
  intros Hwk k client Hget. unfold handleNewConnection in *. simpl in *.
  destruct (decide (k = ClientManager.nextClientId (clientManager s)))
    as [-> | Hne].
  - rewrite lookup_insert_eq in Hget. injection Hget as <-. simpl. lia.
  - rewrite !lookup_insert_ne in Hget by congruence.
    apply Hwk in Hget. lia.
Qed.

Lemma wellKeyed_oneClientServer : wellKeyed (clientManager oneClientServer).
Proof. apply wellKeyed_handleNewConnection. apply wellKeyed_new. Qed.

(** X11: [addClient] hands out an id that no registered client has: the new
    client is stored under it with no subscriptions, every other client
    stays as it was, and the registry stays well keyed. *)
Theorem addClient_fresh (socket : Socket) (now : Z) (m : ClientManager.t) :
  wellKeyed m ->
  let client := (ClientManager.addClient socket now m).1 in
  let m' := (ClientManager.addClient socket now m).2 in
  ClientManager.getClient (ClientConnection.id client) m = None
  /\ ClientManager.getClient (ClientConnection.id client) m' = Some client
  /\ ClientConnection.subscribedRoutes client = ∅
  /\ ClientConnection.isActive client = true
  /\ (forall k, k <> ClientConnection.id client ->
        ClientManager.getClient k m' = ClientManager.getClient k m)
  /\ getClientCount m' = S (getClientCount m)
  /\ wellKeyed m'.
Proof.
  intros Hwk.
  pose proof (addClient_free_slot m Hwk) as Hfree.
  pose proof (wellKeyed_addClient socket now m Hwk) as Hwk'.
  unfold ClientManager.addClient, ClientManager.getClient in *; simpl in *.
  split; [exact Hfree |]. split; [apply lookup_insert_eq |].
  split; [reflexivity |]. split; [reflexivity |]. split; [| split].
  - intros k Hne. apply lookup_insert_ne. congruence.
  - unfold getClientCount; simpl. apply map_size_insert_None. exact Hfree.
  - exact Hwk'.
Qed.

Lemma addClient_fresh_witness :
  ClientManager.getClient 2 (clientManager oneClientServer) = None
  /\ ClientManager.getClient 1 (clientManager oneClientServer)
     = ClientManager.getClient 1
         (ClientManager.addClient freshSocket 9 (clientManager oneClientServer)).2.
Proof.
  destruct (addClient_fresh freshSocket 9 (clientManager oneClientServer)
              wellKeyed_oneClientServer)
    as (Hnone & _ & _ & _ & Hother & _).
  split; [exact Hnone |]. symmetry. apply Hother. discriminate.
Defined.



(** ** Cleanup *)

Lemma cleanup_fold_clients (threshold now : Z)
    (entries : list (nat * ClientConnection.t)) :
  forall (n : nat) (acc : ClientManager.t),
    let res :=
      foldl
        (fun '(removedCount, acc) '(clientId, client) =>
           if isStale threshold now client then
             (S removedCount, (removeClient clientId acc).2)
           else (removedCount, acc))
        (n, acc) entries in
    res.1 = (n + List.length
                   (List.filter (fun e => isStale threshold now e.2) entries))%nat
    /\ ClientManager.nextClientId res.2 = ClientManager.nextClientId acc
    /\ forall k client,
         ClientManager.clients res.2 !! k = Some client
         <-> ClientManager.clients acc !! k = Some client
             /\ forall c', (k, c') ∈ entries -> isStale threshold now c' = false.
Proof.
  induction entries as [| [k0 c0] rest IH]; intros n acc; simpl.
  - split; [lia |]. split; [reflexivity |].
    intros k client. split; [intros Hget; split; [exact Hget |] | tauto].
    intros c' Hin. apply elem_of_nil in Hin. contradiction.
  - destruct (isStale threshold now c0) eqn:Hstale.
    + specialize (IH (S n) (removeClient k0 acc).2). simpl in IH.
      destruct IH as (Hcount & Hnext & Hlook).
      destruct (removeClient_clients k0 acc) as [Hc Hn].
      split; [rewrite Hcount; simpl; lia |].
      split; [rewrite Hnext; exact Hn |].
      intros k client. rewrite Hlook, Hc. split.
      * intros [Hget Hrest]. apply lookup_delete_Some in Hget.
        destruct Hget as [Hne Hget]. split; [exact Hget |].
        intros c' Hin. apply elem_of_cons in Hin.
        destruct Hin as [[= -> ->] | Hin]; [congruence | apply Hrest; exact Hin].
      * intros [Hget Hall]. split.
        -- apply lookup_delete_Some. split; [| exact Hget].
           intros ->. specialize (Hall c0 ltac:(left)). congruence.
        -- intros c' Hin. apply Hall. right. exact Hin.
    + specialize (IH n acc). simpl in IH.
      destruct IH as (Hcount & Hnext & Hlook).
      split; [rewrite Hcount; simpl; lia |].
      split; [exact Hnext |].
      intros k client. rewrite Hlook. split.
      * intros [Hget Hrest]. split; [exact Hget |].
        intros c' Hin. apply elem_of_cons in Hin.
        destruct Hin as [[= -> ->] | Hin]; [exact Hstale | apply Hrest; exact Hin].
      * intros [Hget Hall]. split; [exact Hget |].
        intros c' Hin. apply Hall. right. exact Hin.
Qed.

Lemma cleanup_lookup (threshold now : Z) (m : ClientManager.t)
    (k : nat) (client : ClientConnection.t) :
  ClientManager.getClient k (cleanupInactiveClients threshold now m).2
    = Some client
  <-> ClientManager.getClient k m = Some client
      /\ isStale threshold now client = false.
Proof.
  unfold cleanupInactiveClients.
  destruct (cleanup_fold_clients threshold now
              (map_to_list (ClientManager.clients m)) 0%nat m)
    as (_ & _ & Hlook).
  cbv zeta in Hlook. unfold ClientManager.getClient. rewrite Hlook. split.
  - intros [Hget Hall]. split; [exact Hget |].
    apply Hall. apply elem_of_map_to_list. exact Hget.
  - intros [Hget Hok]. split; [exact Hget |].
    intros c' Hin. apply elem_of_map_to_list in Hin. congruence.
Qed.

(** X13: [cleanupInactiveClients] removes exactly the clients that are
    marked inactive or whose last message is older than the threshold,
    keeps every other client unchanged, and returns the number of clients
    that met the removal test. *)
Theorem cleanupInactiveClients_spec (threshold now : Z) (m : ClientManager.t) :
  let res := cleanupInactiveClients threshold now m in
  (forall k client,
     ClientManager.getClient k res.2 = Some client
     <-> ClientManager.getClient k m = Some client
         /\ ClientConnection.isActive client = true
         /\ now - ClientConnection.lastMessageAt client <= threshold)
  /\ res.1 = List.length
               (List.filter (isStale threshold now) (ClientManager.values m))
  /\ ClientManager.nextClientId res.2 = ClientManager.nextClientId m.
Proof.
  cbv zeta. split; [| split].
  - intros k client. rewrite cleanup_lookup. unfold isStale.
    destruct (ClientConnection.isActive client); simpl.
    + rewrite bool_decide_eq_false. split; intros [? ?]; repeat split; auto; lia.
    + split; [intros [_ ?]; discriminate | intros (_ & ? & _); discriminate].
  - unfold cleanupInactiveClients.
    destruct (cleanup_fold_clients threshold now
                (map_to_list (ClientManager.clients m)) 0%nat m)
      as (Hcount & _ & _).
    cbv zeta in Hcount. rewrite Hcount. unfold ClientManager.values. simpl.
    generalize (map_to_list (ClientManager.clients m)).
    induction l as [| [k c] rest IHl]; [reflexivity |].
    simpl. destruct (isStale threshold now c); simpl; rewrite IHl; reflexivity.
  - unfold cleanupInactiveClients.
    destruct (cleanup_fold_clients threshold now
                (map_to_list (ClientManager.clients m)) 0%nat m)
      as (_ & Hnext & _).
    exact Hnext.
Qed.

Lemma resetAll_fold (keys : list nat) :
  forall (acc : ClientManager.t) (k : nat),
    ClientManager.clients
      (foldl (fun acc clientId => (removeClient clientId acc).2) acc keys) !! k
    = if bool_decide (k ∈ keys) then None else ClientManager.clients acc !! k.
Proof.
  induction keys as [| k0 rest IH]; intros acc k; cbn [foldl].
  - rewrite bool_decide_eq_false_2; [reflexivity | apply not_elem_of_nil].
  - rewrite IH. destruct (removeClient_clients k0 acc) as [Hc _]. rewrite Hc.
    destruct (decide (k ∈ rest)) as [Hin | Hnin].
    + rewrite !bool_decide_eq_true_2; [reflexivity | right; exact Hin | exact Hin].
    + rewrite (bool_decide_eq_false_2 (k ∈ rest)) by exact Hnin.
      destruct (decide (k = k0)) as [-> | Hne].
      * rewrite bool_decide_eq_true_2 by left. apply lookup_delete_eq.
      * rewrite bool_decide_eq_false_2.
        -- apply lookup_delete_ne. congruence.
        -- intros Hin. apply elem_of_cons in Hin. tauto.
Qed.

(** X14: [resetAllClients] leaves no client registered. *)
Theorem resetAllClients_empties (m : ClientManager.t) :
  ClientManager.clients (resetAllClients m) = ∅
  /\ getClientCount (resetAllClients m) = 0%nat
  /\ ClientManager.getSubscribedClients None (resetAllClients m) = [].
Proof.
  assert (Hempty : ClientManager.clients (resetAllClients m) = ∅).
  { apply map_eq. intros k. unfold resetAllClients. rewrite resetAll_fold.
    rewrite lookup_empty. case_bool_decide as Hin; [reflexivity |].
    destruct (ClientManager.clients m !! k) as [client |] eqn:Hget; [| reflexivity].
    exfalso. apply Hin. apply list_elem_of_fmap. exists (k, client).
    split; [reflexivity |]. apply elem_of_map_to_list. exact Hget. }
  split; [exact Hempty |]. split.
  - unfold getClientCount. rewrite Hempty. apply map_size_empty.
  - unfold ClientManager.getSubscribedClients, ClientManager.values.
    rewrite Hempty, map_to_list_empty. reflexivity.
Qed.

(** X15: a write that reports an error still hands the frame to the
    socket and marks the session inactive without removing it; later sends
    to it write nothing; and the next cleanup removes it, whatever its last
    activity and whatever the threshold. *)
Theorem failed_write_then_cleanup
    (message later : Frame) (k : nat) (m : ClientManager.t)
    (client : ClientConnection.t) (threshold now : Z) :
  ClientManager.getClient k m = Some client ->
  ClientConnection.isActive client = true ->
  failing (ClientConnection.socket client) = true ->
  let m1 := (ClientManager.sendVia k message m).2 in
  (ClientManager.sendVia k message m).1 = false
  /\ ClientManager.writtenTo k m1 = ClientManager.writtenTo k m ++ [message]
  /\ (exists client1,
        ClientManager.getClient k m1 = Some client1
        /\ ClientConnection.isActive client1 = false)
  /\ (ClientManager.sendVia k later m1).1 = false
  /\ ClientManager.writtenTo k (ClientManager.sendVia k later m1).2
     = ClientManager.writtenTo k m1
  /\ ClientManager.getClient k (cleanupInactiveClients threshold now m1).2 = None.
Proof.
  intros Hget Hact Hfail. cbv zeta.
  assert (Hm1 : exists client1,
            ClientManager.getClient k (ClientManager.sendVia k message m).2
              = Some client1
            /\ ClientConnection.isActive client1 = false
            /\ written (ClientConnection.socket client1)
               = written (ClientConnection.socket client) ++ [message]
            /\ (ClientManager.sendVia k message m).1 = false).
  { unfold ClientManager.sendVia. rewrite Hget.
    unfold ClientConnection.sendMessage. rewrite Hact, Hfail. simpl.
    eexists. unfold ClientManager.getClient. simpl.
    rewrite lookup_insert_eq. repeat split. }
  destruct Hm1 as (client1 & Hget1 & Hact1 & Hw1 & Hsent).
  set (m1 := (ClientManager.sendVia k message m).2) in *.
  assert (Hlater : ClientManager.sendVia k later m1
                   = (false,
                      ClientManager.with_clients
                        (<[k := client1]> (ClientManager.clients m1)) m1)).
  { unfold ClientManager.sendVia. rewrite Hget1.
    unfold ClientConnection.sendMessage. rewrite Hact1. reflexivity. }
  split; [exact Hsent |]. split; [| split; [| split; [| split]]].
  - unfold ClientManager.writtenTo. rewrite Hget1, Hget. exact Hw1.
  - exists client1. split; assumption.
  - rewrite Hlater. reflexivity.
  - rewrite Hlater. unfold ClientManager.writtenTo, ClientManager.getClient.
    cbn [snd ClientManager.with_clients ClientManager.clients].
    rewrite lookup_insert_eq. unfold ClientManager.getClient in Hget1.
    rewrite Hget1. reflexivity.
  - destruct (ClientManager.getClient k (cleanupInactiveClients threshold now m1).2)
      as [c |] eqn:Hc; [| reflexivity].
    apply cleanup_lookup in Hc. destruct Hc as [Hgc Hstale].
    rewrite Hget1 in Hgc. injection Hgc as <-.
    unfold isStale in Hstale. rewrite Hact1 in Hstale. discriminate.
Qed.

Lemma failed_write_then_cleanup_witness :
  let m :=
    (ClientManager.addClient (mkSocket [] true false) 0 ClientManager.new).2 in
  ClientManager.getClient 1
    (cleanupInactiveClients 60000 5
       (ClientManager.sendVia 1 (formatError 1 "first" "INVALID_MESSAGE") m).2).2
  = None.
Proof.
  apply (failed_write_then_cleanup
           (formatError 1 "first" "INVALID_MESSAGE")
           (formatError 2 "late" "INVALID_MESSAGE") 1
           (ClientManager.addClient (mkSocket [] true false) 0 ClientManager.new).2
           (ClientConnection.new 1 (mkSocket [] true false) 0) 60000 5).
  - vm_compute. reflexivity.
  - reflexivity.
  - reflexivity.
Defined.

(** ** Broadcast delivery *)

Lemma broadcastMessage_as_fold (message : Frame) (routes : option (list string))
    (excludeClientIds : list nat) (m : ClientManager.t) :
  ClientManager.broadcastMessage message routes excludeClientIds m
  = let targets := ClientManager.broadcastTargets routes excludeClientIds m in
    let res := foldl (broadcastStep message) (0%nat, m) targets in
    ((List.length targets, res.1), res.2).
Proof.
  unfold ClientManager.broadcastMessage. cbv zeta.
  match goal with
  | |- context [foldl ?f (0%nat, m) _] =>
      assert (Hstep : forall targets state,
                foldl f state targets
                = foldl (broadcastStep message) state targets)
  end.
  { induction targets as [| k rest IH]; intros state; [reflexivity |].
    cbn [foldl]. rewrite <- IH. f_equal. destruct state; reflexivity. }
  rewrite Hstep.
  destruct (foldl (broadcastStep message) _ _) as [count m']. reflexivity.
Qed.

Lemma broadcastStep_other (message : Frame) (state : nat * ClientManager.t)
    (k0 k : nat) :
  k <> k0 ->
  ClientManager.getClient k (broadcastStep message state k0).2
  = ClientManager.getClient k state.2.
Proof.
  intros Hne. destruct state as [count acc]. unfold broadcastStep.
  destruct (ClientManager.getClient k0 acc) as [client |] eqn:Hget; [| reflexivity].
  destruct (ClientConnection.isActive client); [| reflexivity].
  unfold ClientManager.sendVia. rewrite Hget.
  destruct (ClientConnection.sendMessage message client) as [sent client'].
  simpl. unfold ClientManager.getClient. simpl.
  apply lookup_insert_ne. congruence.
Qed.

Lemma broadcastStep_self (message : Frame) (state : nat * ClientManager.t)
    (k : nat) (client : ClientConnection.t) :
  ClientManager.getClient k state.2 = Some client ->
  ClientConnection.isActive client = true ->
  ClientManager.getClient k (broadcastStep message state k).2
  = Some (ClientConnection.sendMessage message client).2.
Proof.
  intros Hget Hact. destruct state as [count acc]. simpl in Hget.
  unfold broadcastStep. rewrite Hget, Hact.
  unfold ClientManager.sendVia. rewrite Hget.
  destruct (ClientConnection.sendMessage message client) as [sent client'].
  simpl. unfold ClientManager.getClient. simpl. apply lookup_insert_eq.
Qed.

Lemma broadcast_fold_other (message : Frame) (targets : list nat) (k : nat) :
  k ∉ targets ->
  forall state,
    ClientManager.getClient k (foldl (broadcastStep message) state targets).2
    = ClientManager.getClient k state.2.
Proof.
  induction targets as [| k0 rest IH]; intros Hnin state; [reflexivity |].
  apply not_elem_of_cons in Hnin. destruct Hnin as [Hne Hnin].
  cbn [foldl]. rewrite IH by exact Hnin. apply broadcastStep_other. exact Hne.
Qed.

Lemma broadcast_fold_target (message : Frame) (targets : list nat) (k : nat)
    (client : ClientConnection.t) :
  NoDup targets -> k ∈ targets ->
  ClientConnection.isActive client = true ->
  forall state,
    ClientManager.getClient k state.2 = Some client ->
    ClientManager.getClient k (foldl (broadcastStep message) state targets).2
    = Some (ClientConnection.sendMessage message client).2.
Proof.
  intros Hnd Hin Hact.
  induction targets as [| k0 rest IH]; intros state Hget.
  - apply elem_of_nil in Hin. contradiction.
  - apply NoDup_cons in Hnd. destruct Hnd as [Hfresh Hnd].
    cbn [foldl]. destruct (decide (k = k0)) as [-> | Hne].
    + rewrite broadcast_fold_other by exact Hfresh.
      apply broadcastStep_self; assumption.
    + apply elem_of_cons in Hin. destruct Hin as [-> | Hin]; [congruence |].
      apply IH; [exact Hnd | exact Hin |].
      rewrite broadcastStep_other by exact Hne. exact Hget.
Qed.

Lemma values_lookup (m : ClientManager.t) (client : ClientConnection.t) :
  client ∈ ClientManager.values m
  <-> exists k, ClientManager.clients m !! k = Some client.
Proof.
  unfold ClientManager.values. rewrite list_elem_of_fmap. split.
  - intros ([k c] & -> & Hin). exists k. apply elem_of_map_to_list. exact Hin.
  - intros [k Hget]. exists (k, client). split; [reflexivity |].
    apply elem_of_map_to_list. exact Hget.
Qed.

Lemma ids_of_filtered_values_NoDup (m : ClientManager.t)
    (keep : ClientConnection.t -> bool) :
  wellKeyed m ->
  NoDup (List.map ClientConnection.id (List.filter keep (ClientManager.values m))).
Proof.
  intros Hwk. unfold ClientManager.values.
  assert (Hkeys : forall k c, (k, c) ∈ map_to_list (ClientManager.clients m) ->
                    ClientConnection.id c = k).
  { intros k c Hin. apply elem_of_map_to_list in Hin. apply Hwk in Hin. tauto. }
  pose proof (NoDup_fst_map_to_list (ClientManager.clients m)) as Hnd.
  revert Hkeys Hnd. generalize (map_to_list (ClientManager.clients m)).
  induction l as [| [k c] rest IH]; intros Hkeys Hnd; [constructor |].
  cbn [fmap list_fmap List.filter fst snd] in *. apply NoDup_cons in Hnd.
  destruct Hnd as [Hfresh Hnd].
  assert (Hrest : NoDup (List.map ClientConnection.id (List.filter keep rest.*2))).
  { apply IH; [| exact Hnd]. intros k' c' Hin. apply Hkeys. right. exact Hin. }
  destruct (keep c); [| exact Hrest].
  cbn [List.map]. apply NoDup_cons. split; [| exact Hrest].
  rewrite (Hkeys k c) by left.
  intros Hin. apply Hfresh.
  apply list_elem_of_In, in_map_iff in Hin. destruct Hin as (c' & Hid & Hin).
  apply filter_In in Hin. destruct Hin as [Hin _].
  apply list_elem_of_In, list_elem_of_fmap in Hin.
  destruct Hin as ([k' c''] & -> & Hin). simpl in Hid.
  apply list_elem_of_fmap. exists (k', c''). split; [| exact Hin].
  simpl. rewrite <- Hid. apply Hkeys. right. exact Hin.
Qed.

Lemma NoDup_List_filter {T} (keep : T -> bool) (l : list T) :
  NoDup l -> NoDup (List.filter keep l).
Proof.
  induction 1 as [| x rest Hfresh Hnd IH]; simpl; [constructor |].
  destruct (keep x); [| exact IH].
  constructor; [| exact IH].
  intros Hin. apply Hfresh.
  apply list_elem_of_In, filter_In in Hin. apply list_elem_of_In. tauto.
Qed.

Lemma broadcastTargets_NoDup (routes : option (list string))
    (excludeClientIds : list nat) (m : ClientManager.t) :
  wellKeyed m -> NoDup (ClientManager.broadcastTargets routes excludeClientIds m).
Proof.
  intros Hwk. unfold ClientManager.broadcastTargets.
  apply NoDup_List_filter.
  destruct routes as [rs |].
  - unfold ClientManager.getSubscribedClients.
    apply ids_of_filtered_values_NoDup. exact Hwk.
  - unfold ClientManager.getActiveClients.
    apply ids_of_filtered_values_NoDup. exact Hwk.
Qed.

(** The clients [broadcastMessage] selects, on a well-keyed registry. *)
Lemma broadcastTargets_spec (routes : option (list string))
    (excludeClientIds : list nat) (m : ClientManager.t) (k : nat) :
  wellKeyed m ->
  k ∈ ClientManager.broadcastTargets routes excludeClientIds m
  <-> exists client,
        ClientManager.getClient k m = Some client
        /\ ClientConnection.isActive client = true
        /\ (k ∉ excludeClientIds)
        /\ routesMatch routes client.
Proof.
  intros Hwk. unfold ClientManager.broadcastTargets, ClientManager.getClient.
  rewrite list_elem_of_In, filter_In, negb_true_iff, bool_decide_eq_false.
  assert (Hsel : forall (keep : ClientConnection.t -> bool),
            In k (List.map ClientConnection.id
                    (List.filter keep (ClientManager.values m)))
            <-> exists client,
                  ClientManager.clients m !! k = Some client
                  /\ keep client = true).
  { intros keep. rewrite in_map_iff. split.
    - intros (client & Hid & Hin). apply filter_In in Hin.
      destruct Hin as [Hin Hkeep]. apply list_elem_of_In, values_lookup in Hin.
      destruct Hin as [k' Hget]. exists client. split; [| exact Hkeep].
      destruct (Hwk k' client Hget) as [Hid' _]. congruence.
    - intros (client & Hget & Hkeep). exists client.
      split; [apply (Hwk k client Hget) |].
      apply filter_In. split; [| exact Hkeep].
      apply list_elem_of_In, values_lookup. exists k. exact Hget. }
  destruct routes as [rs |]; simpl.
  - unfold ClientManager.getSubscribedClients. rewrite Hsel. split.
    + intros [(client & Hget & Hkeep) Hex]. exists client.
      destruct (ClientConnection.isActive client); [| discriminate].
      simpl in Hkeep. apply existsb_exists in Hkeep.
      destruct Hkeep as (r & Hin & Hsub).
      apply bool_decide_eq_true in Hsub.
      repeat split; try assumption. exists r.
      split; [apply list_elem_of_In; exact Hin | exact Hsub].
    + intros (client & Hget & Hact & Hex & (r & Hin & Hsub)).
      split; [| exact Hex]. exists client. split; [exact Hget |].
      rewrite Hact. simpl. apply existsb_exists. exists r.
      split; [apply list_elem_of_In; exact Hin |].
      apply bool_decide_eq_true. exact Hsub.
  - unfold ClientManager.getActiveClients. rewrite Hsel. split.
    + intros [(client & Hget & Hact) Hex]. exists client. auto.
    + intros (client & Hget & Hact & Hex & _). split; [| exact Hex].
      exists client. auto.
Qed.

Lemma broadcast_delivers_to_selected (message : Frame)
    (routes : option (list string)) (excludeClientIds : list nat)
    (m : ClientManager.t) (k : nat) (client : ClientConnection.t) :
  wellKeyed m ->
  ClientManager.getClient k m = Some client ->
  ClientConnection.isActive client = true ->
  k ∉ excludeClientIds ->
  routesMatch routes client ->
  let res := ClientManager.broadcastMessage message routes excludeClientIds m in
  ClientManager.getClient k res.2
    = Some (ClientConnection.sendMessage message client).2
  /\ ClientManager.writtenTo k res.2
     = ClientManager.writtenTo k m ++ [message].
Proof.
  intros Hwk Hget Hact Hex Hroutes. cbv zeta.
  rewrite broadcastMessage_as_fold. cbv zeta. cbn [snd].
  assert (Hin : k ∈ ClientManager.broadcastTargets routes excludeClientIds m).
  { apply broadcastTargets_spec; [exact Hwk |]. exists client. auto. }
  pose proof (broadcast_fold_target message _ k client
                (broadcastTargets_NoDup routes excludeClientIds m Hwk)
                Hin Hact (0%nat, m) Hget) as Hres.
  split; [exact Hres |].
  unfold ClientManager.writtenTo. rewrite Hres, Hget.
  unfold ClientConnection.sendMessage. rewrite Hact. simpl.
  destruct (failing (ClientConnection.socket client)); reflexivity.
Qed.

Lemma broadcast_skips_unselected (message : Frame)
    (routes : option (list string)) (excludeClientIds : list nat)
    (m : ClientManager.t) (k : nat) :
  wellKeyed m ->
  (forall client,
     ClientManager.getClient k m = Some client ->
     ~ (ClientConnection.isActive client = true
        /\ (k ∉ excludeClientIds) /\ routesMatch routes client)) ->
  ClientManager.getClient k
    (ClientManager.broadcastMessage message routes excludeClientIds m).2
  = ClientManager.getClient k m.
Proof.
  intros Hwk Hnot. rewrite broadcastMessage_as_fold. cbv zeta. cbn [snd].
  apply (broadcast_fold_other message _ k).
  intros Hin. apply broadcastTargets_spec in Hin; [| exact Hwk].
  destruct Hin as (client & Hget & Hact & Hex & Hroutes).
  apply (Hnot client Hget). auto.
Qed.

(** X16: on a well-keyed registry [broadcastMessage] hands the message
    exactly once to every active client that is not excluded and, when
    routes are given, is subscribed to one of them; every other client is
    left exactly as it was, and the reported target count is the number of
    clients selected. *)
Theorem broadcastMessage_delivery (message : Frame)
    (routes : option (list string)) (excludeClientIds : list nat)
    (m : ClientManager.t) (k : nat) :
  wellKeyed m ->
  let res := ClientManager.broadcastMessage message routes excludeClientIds m in
  let selected client :=
    ClientConnection.isActive client = true
    /\ (k ∉ excludeClientIds) /\ routesMatch routes client in
  (forall client,
     ClientManager.getClient k m = Some client -> selected client ->
     ClientManager.getClient k res.2
       = Some (ClientConnection.sendMessage message client).2
     /\ ClientManager.writtenTo k res.2
        = ClientManager.writtenTo k m ++ [message])
  /\ ((forall client,
         ClientManager.getClient k m = Some client -> ~ selected client) ->
      ClientManager.getClient k res.2 = ClientManager.getClient k m)
  /\ res.1.1
     = List.length (ClientManager.broadcastTargets routes excludeClientIds m).
Proof.
  intros Hwk. cbv zeta. split; [| split].
  - intros client Hget (Hact & Hex & Hroutes).
    apply broadcast_delivers_to_selected; assumption.
  - intros Hnot. apply broadcast_skips_unselected; assumption.
  - rewrite broadcastMessage_as_fold. reflexivity.
Qed.

Lemma broadcastMessage_delivery_witness :
  let message := formatMessage 7 (Welcome 0) STATUS in
  ClientManager.writtenTo 1
    (ClientManager.broadcastMessage message None []
       (clientManager oneClientServer)).2
  = ClientManager.writtenTo 1 (clientManager oneClientServer) ++ [message].
Proof.
  destruct (broadcastMessage_delivery (formatMessage 7 (Welcome 0) STATUS)
              None [] (clientManager oneClientServer) 1
              wellKeyed_oneClientServer) as (Hsel & _).
  apply (Hsel (ClientConnection.mk 1
                 (socket_write (formatMessage 0 (Welcome 1) STATUS) freshSocket)
                 ∅ true 0 0 "")).
  - vm_compute. reflexivity.
  - split; [reflexivity |]. split; [apply not_elem_of_nil | exact I].
Defined.

(* ===================================================================== *)
(** * Further properties of message validation *)
(* ===================================================================== *)

Section ValidationMore.

Context `{JSBuiltins}.

Lemma checkRoutes_accepts (items : list json) (ok : string) :
  checkRoutes items = inl ok ->
  List.map JStr (routeStrings items) = items
  /\ Forall (fun name => is_Some (route_of_name name)) (routeStrings items).
Proof.
  revert ok. induction items as [| v rest IH]; intros ok Hcheck.
  - split; [reflexivity | constructor].
  - destruct v as [| | | name | |]; cbn [checkRoutes] in Hcheck; try discriminate.
    destruct (isRoute (JStr name)) eqn:Hroute; [| discriminate].
    destruct (checkRoutes rest) as [ok' | bad]; [| discriminate].
    destruct (IH ok' eq_refl) as [Hmap Hall].
    unfold routeStrings in *. cbn [omap list_omap List.map]. split.
    + rewrite Hmap. reflexivity.
    + constructor; [| exact Hall].
      simpl in Hroute. apply bool_decide_eq_true in Hroute. exact Hroute.
Qed.

(** X17: a SUBSCRIBE or UNSUBSCRIBE is accepted only with routes of the
    closed set: every accepted route is one of A, B, C, D; for an array the
    accepted routes are exactly its elements, for "all" the four routes;
    and the two validators accept the same messages with the same
    routes. *)
Theorem validateSubscribe_sound (message : json) (routes : list string) :
  validateSubscribe message = Ok (Valid routes) ->
  Forall (fun name => is_Some (route_of_name name)) routes
  /\ (get_prop message "routes" = Some (JArr (List.map JStr routes))
      \/ (get_prop message "routes" = Some (JStr "all")
          /\ routes = List.map route_name ROUTES_values))
  /\ validateUnsubscribe message = Ok (Valid routes).
Proof.
  unfold validateSubscribe, validateUnsubscribe.
  destruct (falsy (get_prop message "routes")); [discriminate |].
  destruct (get_prop message "routes") as [[| | | s | items |] |];
    try discriminate.
  - destruct (String.eqb_spec s "all") as [-> |]; [| discriminate].
    intros [= <-]. split; [| split; [right; split; reflexivity | reflexivity]].
    repeat constructor; eexists; reflexivity.
  - destruct (checkRoutes items) as [ok | bad] eqn:Hcheck;
      [| destruct (ToString bad); discriminate].
    intros [= <-]. destruct (checkRoutes_accepts items ok Hcheck) as [Hmap Hall].
    split; [exact Hall |]. split; [left; rewrite Hmap; reflexivity | reflexivity].
Qed.

(** The loop of [validateCameraUpdate] only ever records non-negative
    samples, and only for routes that the data object carries. *)
Lemma validateCameraRoutes_invariant (data : json) (routes : list Route) :
  forall (vd vd' : ValidatedData),
    (forall r sample, rm_get vd r = Some sample ->
       nonNegative_i (vehicles sample) /\ nonNegative_i (heavyVehicles sample)
       /\ is_Some (get_prop data (route_name r))) ->
    validateCameraRoutes data routes vd = Ok (Valid vd') ->
    forall r sample, rm_get vd' r = Some sample ->
      nonNegative_i (vehicles sample) /\ nonNegative_i (heavyVehicles sample)
      /\ is_Some (get_prop data (route_name r)).
Proof.
  induction routes as [| route rest IH]; intros vd vd' Hinv Hrun.
  - injection Hrun as <-. exact Hinv.
  - cbn [validateCameraRoutes] in Hrun.
    destruct (validateCameraRoute data route vd) as [[vd1 | e] | e] eqn:Hroute;
      simpl in Hrun; try discriminate.
    apply (IH vd1 vd'); [| exact Hrun].
    unfold validateCameraRoute in Hroute.
    destruct (hasOwnProperty data (route_name route)) as [[|] | e];
      simpl in Hroute; try discriminate.
    + destruct (get_prop data (route_name route)) as [rd |] eqn:Hrd;
        [| discriminate].
      assert (Hset : forall sample0,
                Ok (Valid (rm_set vd route (Some sample0))) = Ok (Valid vd1) ->
                nonNegative_i (vehicles sample0) ->
                nonNegative_i (heavyVehicles sample0) ->
                forall r sample, rm_get vd1 r = Some sample ->
                  nonNegative_i (vehicles sample) /\ nonNegative_i (heavyVehicles sample)
                  /\ is_Some (get_prop data (route_name r))).
      { intros sample0 [= <-] Hv Hh r sample Hget.
        destruct (decide (route = r)) as [<- | Hne].
        - rewrite rm_get_set_eq in Hget. injection Hget as <-.
          rewrite Hrd. split; [exact Hv |]. split; [exact Hh | eauto].
        - rewrite rm_get_set_ne in Hget by exact Hne. apply Hinv. exact Hget. }
      assert (Hclamp : forall n,
                nonNegative_i (if isNaN n then IInt 0 else imax (IInt 0) n)).
      { intros n. destruct n as [| | | z]; simpl; try exact I; lia. }
      destruct rd; simpl in Hroute; try discriminate;
        repeat (match type of Hroute with
                | context [js_parseInt ?value] =>
                    destruct (js_parseInt value); simpl in Hroute;
                    try discriminate
                | (if ?b then _ else _) = _ => destruct b; try discriminate
                end);
        (eapply Hset; [exact Hroute | |]; simpl;
         first [apply Hclamp | lia]).
    + injection Hroute as <-. exact Hinv.
Qed.

(** X18: whatever CAMERA_UPDATE the validator accepts, every sample it
    hands on has non-negative counts and belongs to a route that the
    message's data object really carries. *)
Theorem validateCameraUpdate_sound (message : json) (validated : ValidatedData) :
  validateCameraUpdate message = Ok (Valid validated) ->
  exists data,
    get_prop message "data" = Some data
    /\ forall r sample,
         rm_get validated r = Some sample ->
         nonNegative_i (vehicles sample) /\ nonNegative_i (heavyVehicles sample)
         /\ is_Some (get_prop data (route_name r)).
Proof.
  unfold validateCameraUpdate.
  destruct (get_prop message "data") as [data |]; [| discriminate].
  destruct (falsy (Some data) || negb (typeof_object (Some data)));
    [discriminate |].
  intros Hrun. exists data. split; [reflexivity |].
  apply (validateCameraRoutes_invariant data ROUTES_values (rm_const None));
    [| exact Hrun].
  intros r sample Hget. destruct r; discriminate.
Qed.

(** X19: [validateQuery] accepts exactly the query types status, phase
    and traffic, taking status when the field is missing or falsy. *)
Theorem validateQuery_sound (message : json) :
  (forall queryType,
     validateQuery message = Valid queryType ->
     queryType ∈ validQueryTypes
     /\ (get_prop message "queryType" = Some (JStr queryType)
         \/ (falsy (get_prop message "queryType") = true
             /\ queryType = "status")))
  /\ (falsy (get_prop message "queryType") = true ->
        validateQuery message = Valid "status")
  /\ (forall queryType,
        queryType ∈ validQueryTypes ->
        get_prop message "queryType" = Some (JStr queryType) ->
        validateQuery message = Valid queryType).
Proof.
  unfold validateQuery. split; [| split].
  - intros queryType.
    destruct (falsy (get_prop message "queryType")) eqn:Hfalsy.
    + simpl. intros [= <-]. split; [| right; split; reflexivity].
      unfold validQueryTypes. set_solver.
    + destruct (get_prop message "queryType") as [[| | | q | |] |];
        try discriminate.
      case_bool_decide as Hin; [| discriminate].
      intros [= <-]. split; [exact Hin | left; reflexivity].
  - intros ->. reflexivity.
  - intros queryType Hin Hq. rewrite Hq.
    assert (Hne : falsy (Some (JStr queryType)) = false).
    { simpl. destruct (String.eqb_spec queryType "") as [-> |]; [| reflexivity].
      unfold validQueryTypes in Hin. set_solver. }
    rewrite Hne. rewrite bool_decide_eq_true_2 by exact Hin. reflexivity.
Qed.

End ValidationMore.

Lemma validateSubscribe_sound_witness :
  @validateUnsubscribe sampleBuiltins
    (JObj [("type", JStr "SUBSCRIBE"); ("routes", JArr [JStr "A"; JStr "C"])])
  = Ok (Valid ["A"; "C"]).
Proof.
  apply (@validateSubscribe_sound sampleBuiltins
           (JObj [("type", JStr "SUBSCRIBE"); ("routes", JArr [JStr "A"; JStr "C"])])
           ["A"; "C"]).
  reflexivity.
Defined.

Lemma validateCameraUpdate_sound_witness :
  exists data,
    get_prop
      (JObj [("type", JStr "CAMERA_UPDATE");
             ("data", JObj [("B", JObj [("vehicles", JNum (Fin (-3)))])])]) "data"
    = Some data
    /\ forall r sample,
         rm_get (mkRouteMap None (Some (mkSample (IInt 0) (IInt 0))) None None) r = Some sample ->
         nonNegative_i (vehicles sample) /\ nonNegative_i (heavyVehicles sample)
         /\ is_Some (get_prop data (route_name r)).
Proof.
  apply (@validateCameraUpdate_sound sampleBuiltins
           (JObj [("type", JStr "CAMERA_UPDATE");
                  ("data", JObj [("B", JObj [("vehicles", JNum (Fin (-3)))])])])
           (mkRouteMap None (Some (mkSample (IInt 0) (IInt 0))) None None)).
  vm_compute. reflexivity.
Defined.

(* ===================================================================== *)
(** * Further properties of the server *)
(* ===================================================================== *)

(** ** Frame reassembly *)

Lemma splitLines_nonempty (text : string) : splitLines text <> [].
Proof.
  destruct text as [| ch rest]; simpl; [discriminate |].
  destruct (Ascii.eqb ch newline); [discriminate |].
  destruct (splitLines rest); discriminate.
Qed.





Lemma splitLines_no_newline (text : string) :
  hasNewline text = false -> splitLines text = [text].
Proof.
  unfold hasNewline. induction text as [| ch rest IH]; [reflexivity |].
  cbn [list_ascii_of_string existsb splitLines]. intros Hno.
  apply orb_false_iff in Hno. destruct Hno as [Hch Hrest].
  rewrite Ascii.eqb_sym in Hch. rewrite Hch, (IH Hrest). reflexivity.
Qed.





(** The text is recovered by joining the lines and the fragment with
    newlines. *)
Lemma splitLines_join (text : string) :
  String.concat (String newline EmptyString) (splitLines text) = text.
Proof.
  induction text as [| ch rest IH]; [reflexivity |].
  cbn [splitLines]. destruct (Ascii.eqb_spec ch newline) as [-> | Hne].
  - pose proof (splitLines_nonempty rest) as Hnon.
    destruct (splitLines rest) as [| first others]; [congruence |].
    cbn [String.concat]. simpl. rewrite <- IH. reflexivity.
  - destruct (splitLines rest) as [| first others] eqn:Hsplit.
    { exfalso. apply (splitLines_nonempty rest). exact Hsplit. }
    destruct others as [| second others'].
    + simpl in *. rewrite IH. reflexivity.
    + cbn [String.concat] in *. simpl. rewrite <- IH. reflexivity.
Qed.

Section ServerMore2.

Context `{JSBuiltins}.

(** X21: a read that completes no line is only buffered: with no newline
    in the buffer or in the data, [handleClientData] records the activity
    time, appends the data to the session's buffer and does nothing
    else. *)
Theorem handleClientData_buffers_partial
    (now : Z) (clientId : nat) (data : string) (s : TrafficSignalServer)
    (client : ClientConnection.t) :
  ClientManager.getClient clientId (clientManager s) = Some client ->
  hasNewline (ClientConnection.bufferedData client +:+ data) = false ->
  exists s',
    handleClientData now clientId data s = Ok s'
    /\ signalController s' = signalController s
    /\ ClientManager.getClient clientId (clientManager s')
       = Some
           {| ClientConnection.id := ClientConnection.id client;
              ClientConnection.socket := ClientConnection.socket client;
              ClientConnection.subscribedRoutes :=
                ClientConnection.subscribedRoutes client;
              ClientConnection.isActive := ClientConnection.isActive client;
              ClientConnection.createdAt := ClientConnection.createdAt client;
              ClientConnection.lastMessageAt := now;
              ClientConnection.bufferedData :=
                ClientConnection.bufferedData client +:+ data |}
    /\ forall k, k <> clientId ->
         ClientManager.getClient k (clientManager s')
         = ClientManager.getClient k (clientManager s).
Proof.
  intros Hget Hno. unfold handleClientData. rewrite Hget.
  unfold frames. simpl ClientConnection.bufferedData.
  rewrite (splitLines_no_newline _ Hno). cbn [removelast List.last processMessages].
  eexists. split; [reflexivity |]. simpl.
  split; [reflexivity |]. unfold ClientManager.getClient. simpl. split.
  - apply lookup_insert_eq.
  - intros k Hne. apply lookup_insert_ne. congruence.
Qed.

(** X22: once a session is disconnected, data arriving for it is dropped
    without effect, and a disconnect of an unknown session changes
    nothing. *)
Theorem disconnected_session_is_ignored
    (now : Z) (clientId : nat) (data : string) (s : TrafficSignalServer) :
  let s' := handleClientDisconnect clientId s in
  ClientManager.getClient clientId (clientManager s') = None
  /\ handleClientData now clientId data s' = Ok s'
  /\ processClientMessage now clientId data s' = Ok s'
  /\ signalController s' = signalController s
  /\ (ClientManager.getClient clientId (clientManager s) = None -> s' = s).
Proof.
  simpl.
  assert (Hgone : ClientManager.getClient clientId
                    (clientManager (handleClientDisconnect clientId s)) = None).
  { unfold handleClientDisconnect. simpl.
    destruct (removeClient_clients clientId (clientManager s)) as [Hc _].
    unfold ClientManager.getClient. rewrite Hc. apply lookup_delete_eq. }
  split; [exact Hgone |]. split; [| split; [| split]].
  - unfold handleClientData. rewrite Hgone. reflexivity.
  - unfold processClientMessage. rewrite Hgone. reflexivity.
  - reflexivity.
  - intros Hnone. unfold handleClientDisconnect, removeClient.
    rewrite Hnone. destruct s; reflexivity.
Qed.

(** X23: a QUERY is read-only: for a registered, active session
    [handleQuery] writes exactly one STATUS frame to that session and
    changes neither the controller, nor any subscription, nor any other
    session. *)
Theorem handleQuery_read_only
    (now : Z) (clientId : nat) (queryType : string)
    (s : TrafficSignalServer) (client : ClientConnection.t) :
  ClientManager.getClient clientId (clientManager s) = Some client ->
  ClientConnection.isActive client = true ->
  let s' := handleQuery now clientId queryType s in
  exists frame,
    ClientManager.writtenTo clientId (clientManager s')
      = ClientManager.writtenTo clientId (clientManager s) ++ [frame]
    /\ isStatusFrame frame = true
    /\ frame_timestamp frame = now
    /\ signalController s' = signalController s
    /\ (forall i, i <> clientId ->
          ClientManager.getClient i (clientManager s')
          = ClientManager.getClient i (clientManager s))
    /\ (forall i,
          ClientManager.subscriptionsOf i (clientManager s')
          = ClientManager.subscriptionsOf i (clientManager s)).
Proof.
  intros Hget Hact. simpl. unfold handleQuery. rewrite Hget.
  match goal with
  | |- context [clientSend clientId ?f s] =>
      exists f;
      destruct (clientSend_active clientId f s client Hget Hact)
        as (Hc & Hw & Ho & Hs)
  end.
  repeat split; assumption || reflexivity.
Qed.

Lemma subscribeClient_effect (clientId : nat) (routes : list string)
    (m : ClientManager.t) (client : ClientConnection.t) :
  ClientManager.getClient clientId m = Some client ->
  let m' := (ClientManager.subscribeClient clientId routes m).2 in
  (ClientManager.subscribeClient clientId routes m).1 = true
  /\ ClientManager.getClient clientId m'
     = Some (ClientConnection.subscribeToRoutes routes client)
  /\ forall i, i <> clientId ->
       ClientManager.getClient i m' = ClientManager.getClient i m.
Proof.
  intros Hget. unfold ClientManager.subscribeClient. rewrite Hget. simpl.
  unfold ClientManager.getClient. simpl. split; [reflexivity |]. split.
  - apply lookup_insert_eq.
  - intros i Hne. apply lookup_insert_ne. congruence.
Qed.

Lemma unsubscribeClient_effect (clientId : nat) (routes : list string)
    (m : ClientManager.t) (client : ClientConnection.t) :
  ClientManager.getClient clientId m = Some client ->
  let m' := (ClientManager.unsubscribeClient clientId routes m).2 in
  (ClientManager.unsubscribeClient clientId routes m).1 = true
  /\ ClientManager.getClient clientId m'
     = Some (ClientConnection.unsubscribeFromRoutes routes client)
  /\ forall i, i <> clientId ->
       ClientManager.getClient i m' = ClientManager.getClient i m.
Proof.
  intros Hget. unfold ClientManager.unsubscribeClient. rewrite Hget. simpl.
  unfold ClientManager.getClient. simpl. split; [reflexivity |]. split.
  - apply lookup_insert_eq.
  - intros i Hne. apply lookup_insert_ne. congruence.
Qed.

(** X24: for a registered, active session [handleSubscribe] adds the
    routes to that session's subscription set, acknowledges with exactly
    one STATUS frame, and leaves the controller and every other session
    alone; [handleUnsubscribe] does the same with the routes removed. *)
Theorem handleSubscribe_effect
    (now : Z) (clientId : nat) (routes : list string)
    (s : TrafficSignalServer) (client : ClientConnection.t) :
  ClientManager.getClient clientId (clientManager s) = Some client ->
  ClientConnection.isActive client = true ->
  let s1 := handleSubscribe now clientId routes s in
  let s2 := handleUnsubscribe now clientId routes s in
  (ClientManager.subscriptionsOf clientId (clientManager s1)
     = Some (ClientConnection.subscribedRoutes client ∪ list_to_set routes)
   /\ ClientManager.writtenTo clientId (clientManager s1)
      = ClientManager.writtenTo clientId (clientManager s)
        ++ [formatMessage now (SubscribedAck routes) STATUS]
   /\ signalController s1 = signalController s
   /\ forall i, i <> clientId ->
        ClientManager.getClient i (clientManager s1)
        = ClientManager.getClient i (clientManager s))
  /\ (ClientManager.subscriptionsOf clientId (clientManager s2)
        = Some (ClientConnection.subscribedRoutes client ∖ list_to_set routes)
      /\ ClientManager.writtenTo clientId (clientManager s2)
         = ClientManager.writtenTo clientId (clientManager s)
           ++ [formatMessage now (UnsubscribedAck routes) STATUS]
      /\ signalController s2 = signalController s
      /\ forall i, i <> clientId ->
           ClientManager.getClient i (clientManager s2)
           = ClientManager.getClient i (clientManager s)).
Proof.
  intros Hget Hact. simpl. split.
  - unfold handleSubscribe. rewrite Hget.
    destruct (subscribeClient_effect clientId routes (clientManager s) client Hget)
      as (Hok & Hnew & Hothers).
    destruct (ClientManager.subscribeClient clientId routes (clientManager s))
      as [success m] eqn:Hsub. simpl in Hok, Hnew, Hothers. subst success.
    destruct (clientSend_active clientId
                (formatMessage now (SubscribedAck routes) STATUS)
                (with_manager m s)
                (ClientConnection.subscribeToRoutes routes client))
      as (Hc & Hw & Ho & Hs); [exact Hnew | exact Hact |].
    cbv zeta in Hc, Hw, Ho, Hs. cbn [with_manager clientManager] in Hw, Ho, Hs.
    split; [| split; [| split]].
    + rewrite Hs. unfold ClientManager.subscriptionsOf. rewrite Hnew. simpl.
      f_equal. apply (subscriptions_sets_union routes client).
    + rewrite Hw. unfold ClientManager.writtenTo. rewrite Hnew, Hget. reflexivity.
    + exact Hc.
    + intros i Hne. rewrite Ho by exact Hne. apply Hothers. exact Hne.
  - unfold handleUnsubscribe. rewrite Hget.
    destruct (unsubscribeClient_effect clientId routes (clientManager s) client Hget)
      as (Hok & Hnew & Hothers).
    destruct (ClientManager.unsubscribeClient clientId routes (clientManager s))
      as [success m] eqn:Hsub. simpl in Hok, Hnew, Hothers. subst success.
    destruct (clientSend_active clientId
                (formatMessage now (UnsubscribedAck routes) STATUS)
                (with_manager m s)
                (ClientConnection.unsubscribeFromRoutes routes client))
      as (Hc & Hw & Ho & Hs); [exact Hnew | exact Hact |].
    cbv zeta in Hc, Hw, Ho, Hs. cbn [with_manager clientManager] in Hw, Ho, Hs.
    split; [| split; [| split]].
    + rewrite Hs. unfold ClientManager.subscriptionsOf. rewrite Hnew. simpl.
      f_equal. apply (subscriptions_sets_difference routes client).
    + rewrite Hw. unfold ClientManager.writtenTo. rewrite Hnew, Hget. reflexivity.
    + exact Hc.
    + intros i Hne. rewrite Ho by exact Hne. apply Hothers. exact Hne.
Qed.

Lemma applyCameraRoutes_frame (routes : list Route) (td : ValidatedData) :
  forall c : Controller,
    let c' := (applyCameraRoutes routes td c).1 in
    (applyCameraRoutes routes td c).2 = None
    /\ signalState c' = signalState c /\ currentPhase c' = currentPhase c
    /\ phaseStartTime c' = phaseStartTime c
    /\ currentPhaseDuration c' = currentPhaseDuration c
    /\ isInYellow c' = isInYellow c
    /\ lastBroadcastState c' = lastBroadcastState c.
Proof.
  induction routes as [| route rest IH]; intros c; [repeat split |].
  cbn [applyCameraRoutes].
  destruct (rm_get td route) as [sample |]; [| apply IH].
  rewrite (updateTrafficData_valid_route route _ _ c _ _
             (sanitizeCount_text _ _ (ToString_number _))
             (sanitizeCount_text _ _ (ToString_number _))).
  match goal with
  | |- context [applyCameraRoutes rest td ?c1] => specialize (IH c1)
  end.
  simpl in IH. exact IH.
Qed.

(** X25: an accepted CAMERA_UPDATE from a registered, active session never
    touches the phase, its timing, the signal colours or the broadcast
    marker; the samples of routes it does not mention stay as they were;
    and the session gets exactly one STATUS acknowledgement carrying the
    number of routes in the update. *)
Theorem handleCameraUpdate_effect
    (now : Z) (clientId : nat) (data : ValidatedData)
    (s : TrafficSignalServer) (client : ClientConnection.t) :
  ClientManager.getClient clientId (clientManager s) = Some client ->
  ClientConnection.isActive client = true ->
  let s' := handleCameraUpdate now clientId data s in
  let c := signalController s in
  let c' := signalController s' in
  signalState c' = signalState c /\ currentPhase c' = currentPhase c
  /\ phaseStartTime c' = phaseStartTime c
  /\ currentPhaseDuration c' = currentPhaseDuration c
  /\ lastBroadcastState c' = lastBroadcastState c
  /\ (forall r, rm_get data r = None ->
        rm_get (trafficData c') r = rm_get (trafficData c) r)
  /\ ClientManager.writtenTo clientId (clientManager s')
     = ClientManager.writtenTo clientId (clientManager s)
       ++ [formatMessage now (CameraAck (keyCount data)) STATUS]
  /\ (forall i,
        ClientManager.subscriptionsOf i (clientManager s')
        = ClientManager.subscriptionsOf i (clientManager s)).
Proof.
  intros Hget Hact. cbv zeta. unfold handleCameraUpdate. rewrite Hget.
  destruct (applyCameraRoutes_frame ROUTES_values data (signalController s))
    as (Hnone & Hsig & Hph & Hst & Hdur & _ & Hlb).
  pose proof (applyCameraRoutes_absent ROUTES_values data (signalController s))
    as Habsent.
  assert (Hpair : applyCameraRoutes ROUTES_values data (signalController s)
                  = ((applyCameraRoutes ROUTES_values data (signalController s)).1,
                     None)).
  { rewrite <- Hnone. apply surjective_pairing. }
  rewrite Hpair. clear Hpair.
  set (c' := (applyCameraRoutes ROUTES_values data (signalController s)).1) in *.
  destruct (clientSend_active clientId
              (formatMessage now (CameraAck (keyCount data)) STATUS)
              (with_controller c' s) client Hget Hact)
    as (Hc & Hw & _ & Hs).
  cbv zeta in Hc, Hw, Hs.
  cbn [with_controller clientManager signalController] in Hc, Hw, Hs.
  rewrite Hc. repeat split; assumption.
Qed.

(** X26: the broadcast timer does not repeat itself: a second firing with
    no phase change in between writes nothing and changes nothing. *)
Theorem broadcastTick_idempotent (t1 t2 : Z) (s : TrafficSignalServer) :
  broadcastTick t2 (broadcastTick t1 s) = broadcastTick t1 s.
Proof.
  assert (Hquiet : forall s0 : TrafficSignalServer,
            JSON_stringify_signals (signalState (signalController s0))
            = lastBroadcastState (signalController s0) ->
            broadcastTick t2 s0 = s0).
  { intros s0 Heq. unfold broadcastTick, hasStateChanged.
    rewrite Heq, String.eqb_refl. simpl. destruct s0; reflexivity. }
  apply Hquiet. unfold broadcastTick, hasStateChanged.
  destruct (String.eqb_spec
              (JSON_stringify_signals (signalState (signalController s)))
              (lastBroadcastState (signalController s))) as [Heq | Hne];
    simpl; [exact Heq | reflexivity].
Qed.

End ServerMore2.

Lemma handleClientData_buffers_partial_witness :
  exists s',
    @handleClientData sampleBuiltins 40 1 "{partial" oneClientServer = Ok s'
    /\ signalController s' = signalController oneClientServer.
Proof.
  destruct (@handleClientData_buffers_partial sampleBuiltins 40 1%nat "{partial"
              oneClientServer
              (ClientConnection.mk 1
                 (socket_write (formatMessage 0 (Welcome 1) STATUS) freshSocket)
                 ∅ true 0 0 ""))
    as (s' & Hrun & Hc & _).
  - vm_compute. reflexivity.
  - reflexivity.
  - exists s'. split; assumption.
Defined.

Lemma handleQuery_read_only_witness :
  signalController (handleQuery 40 1 "phase" oneClientServer)
  = signalController oneClientServer.
Proof.
  destruct (handleQuery_read_only 40 1%nat "phase" oneClientServer
              (ClientConnection.mk 1
                 (socket_write (formatMessage 0 (Welcome 1) STATUS) freshSocket)
                 ∅ true 0 0 ""))
    as (frame & _ & _ & _ & Hc & _).
  - vm_compute. reflexivity.
  - reflexivity.
  - exact Hc.
Defined.

Lemma handleSubscribe_effect_witness :
  ClientManager.subscriptionsOf 1
    (clientManager (handleSubscribe 40 1 ["A"; "C"] oneClientServer))
  = Some (∅ ∪ list_to_set ["A"; "C"]).
Proof.
  destruct (handleSubscribe_effect 40 1%nat ["A"; "C"]
              oneClientServer
              (ClientConnection.mk 1
                 (socket_write (formatMessage 0 (Welcome 1) STATUS) freshSocket)
                 ∅ true 0 0 ""))
    as ((Hsub & _) & _).
  - vm_compute. reflexivity.
  - reflexivity.
  - exact Hsub.
Defined.

Lemma handleCameraUpdate_effect_witness :
  currentPhaseDuration
    (signalController
       (@handleCameraUpdate sampleBuiltins 40 1
          (mkRouteMap (Some (mkSample (IInt 9) (IInt 1))) None None None) oneClientServer))
  = currentPhaseDuration (signalController oneClientServer).
Proof.
  destruct (@handleCameraUpdate_effect sampleBuiltins 40 1%nat
              (mkRouteMap (Some (mkSample (IInt 9) (IInt 1))) None None None) oneClientServer
              (ClientConnection.mk 1
                 (socket_write (formatMessage 0 (Welcome 1) STATUS) freshSocket)
                 ∅ true 0 0 ""))
    as (_ & _ & _ & Hdur & _).
  - vm_compute. reflexivity.
  - reflexivity.
  - exact Hdur.
Defined.

Lemma string_append_assoc (a b c : string) :
  a +:+ (b +:+ c) = (a +:+ b) +:+ c.
Proof.
  induction a as [| ch rest IH]; [reflexivity |].
  change (String ch (rest +:+ (b +:+ c)) = String ch ((rest +:+ b) +:+ c)).
  rewrite IH. reflexivity.
Qed.

Lemma splitLines_one_line (line : string) :
  hasNewline line = false ->
  splitLines (line +:+ String newline EmptyString) = [line; EmptyString].
Proof.
  unfold hasNewline. induction line as [| ch rest IH]; [reflexivity |].
  cbn [list_ascii_of_string existsb]. intros Hno.
  apply orb_false_iff in Hno. destruct Hno as [Hch Hrest].
  change (String ch rest +:+ String newline EmptyString)
    with (String ch (rest +:+ String newline EmptyString)).
  cbn [splitLines]. rewrite Ascii.eqb_sym in Hch. rewrite Hch, (IH Hrest).
  reflexivity.
Qed.

Section ServerMore3.

Context `{JSBuiltins}.

(** X27: when the signal colours changed since the last broadcast, one
    firing of the broadcast timer writes exactly one STATUS frame with the
    current phase information to every registered active session, and
    moves the marker to the current colours. *)
Theorem broadcastTick_delivers
    (now : Z) (s : TrafficSignalServer) (k : nat) (client : ClientConnection.t) :
  wellKeyed (clientManager s) ->
  (hasStateChanged (signalController s)).1 = true ->
  ClientManager.getClient k (clientManager s) = Some client ->
  ClientConnection.isActive client = true ->
  let s' := broadcastTick now s in
  ClientManager.writtenTo k (clientManager s')
    = ClientManager.writtenTo k (clientManager s)
      ++ [formatMessage now
            (PhaseReply (getPhaseInfo now (signalController s'))) STATUS]
  /\ lastBroadcastState (signalController s')
     = JSON_stringify_signals (signalState (signalController s))
  /\ signalState (signalController s') = signalState (signalController s)
  /\ currentPhase (signalController s') = currentPhase (signalController s).
Proof.
  intros Hwk Hchanged Hget Hact. cbv zeta. unfold broadcastTick.
  destruct (hasStateChanged (signalController s)) as [changed c] eqn:Hhsc.
  cbn [fst] in Hchanged. subst changed. cbn [negb].
  cbn [with_manager with_controller signalController clientManager].
  assert (Hc : c = (hasStateChanged (signalController s)).2)
    by (rewrite Hhsc; reflexivity).
  assert (Htrue : (hasStateChanged (signalController s)).1 = true)
    by (rewrite Hhsc; reflexivity).
  split.
  - apply (broadcast_delivers_to_selected _ None [] (clientManager s) k client);
      [exact Hwk | exact Hget | exact Hact | apply not_elem_of_nil | exact I].
  - rewrite Hc. clear Hhsc Hc. unfold hasStateChanged in *. cbn [fst snd] in *.
    rewrite Htrue. repeat split.
Qed.

(** X28: a read that completes exactly one line, possibly started by
    earlier reads, empties the buffer and hands that one line to
    [processClientMessage]; a line that is blank after trimming is dropped
    without any reply. *)
Theorem handleClientData_one_line
    (now : Z) (clientId : nat) (chunk : string) (s : TrafficSignalServer)
    (client : ClientConnection.t) :
  ClientManager.getClient clientId (clientManager s) = Some client ->
  hasNewline (ClientConnection.bufferedData client +:+ chunk) = false ->
  let line := ClientConnection.bufferedData client +:+ chunk in
  let s0 :=
    with_manager
      (ClientManager.with_clients
         (<[clientId :=
              {| ClientConnection.id := ClientConnection.id client;
                 ClientConnection.socket := ClientConnection.socket client;
                 ClientConnection.subscribedRoutes :=
                   ClientConnection.subscribedRoutes client;
                 ClientConnection.isActive := ClientConnection.isActive client;
                 ClientConnection.createdAt := ClientConnection.createdAt client;
                 ClientConnection.lastMessageAt := now;
                 ClientConnection.bufferedData := EmptyString |}]>
            (ClientManager.clients (clientManager s)))
         (clientManager s)) s in
  handleClientData now clientId (chunk +:+ String newline EmptyString) s
  = if String.eqb (String_trim line) "" then Ok s0
    else processClientMessage now clientId line s0.
Proof.
  intros Hget Hno. cbv zeta. unfold handleClientData. rewrite Hget.
  unfold frames. cbn [updateActivity ClientConnection.bufferedData].
  rewrite string_append_assoc, (splitLines_one_line _ Hno).
  cbn [removelast List.last processMessages].
  destruct (String.eqb (String_trim (ClientConnection.bufferedData client +:+ chunk)) "");
    [reflexivity |].
  destruct (processClientMessage now clientId _ _); reflexivity.
Qed.

End ServerMore3.

Lemma broadcastTick_delivers_witness :
  let s := phaseUpdateTick 5000 5000 oneClientServer in
  ClientManager.writtenTo 1 (clientManager (broadcastTick 5500 s))
  = ClientManager.writtenTo 1 (clientManager s)
    ++ [formatMessage 5500
          (PhaseReply
             (getPhaseInfo 5500 (signalController (broadcastTick 5500 s))))
          STATUS].
Proof.
  apply (broadcastTick_delivers 5500 (phaseUpdateTick 5000 5000 oneClientServer) 1
           (ClientConnection.mk 1
              (socket_write (formatMessage 0 (Welcome 1) STATUS) freshSocket)
              ∅ true 0 0 "")).
  - apply wellKeyed_oneClientServer.
  - reflexivity.
  - vm_compute. reflexivity.
  - reflexivity.
Defined.

Lemma handleClientData_one_line_witness :
  @handleClientData sampleBuiltins 40 1
    ("not json" +:+ String newline EmptyString) oneClientServer
  = @processClientMessage sampleBuiltins 40 1 "not json"
      (with_manager
         (ClientManager.with_clients
            (<[1%nat :=
                 ClientConnection.mk 1
                   (socket_write (formatMessage 0 (Welcome 1) STATUS) freshSocket)
                   ∅ true 0 40 ""]>
               (ClientManager.clients (clientManager oneClientServer)))
            (clientManager oneClientServer)) oneClientServer).
Proof.
  apply (@handleClientData_one_line sampleBuiltins 40 1%nat "not json"
           oneClientServer
           (ClientConnection.mk 1
              (socket_write (formatMessage 0 (Welcome 1) STATUS) freshSocket)
              ∅ true 0 0 "")).
  - vm_compute. reflexivity.
  - reflexivity.
Defined.


